(** * Conduit: permission engine, NDJSON framer and session manager

    A shallow embedding of the core of Conduit
    ([src/core/permission-engine.ts], [src/bridge/ndjson.ts],
    [src/core/session-manager.ts], [src/db/database.ts]) together with the
    properties its specification states about it, followed by further
    properties of the code: of these modules, of the message router, of
    the bridge's message handler, of the event bus and of the external
    WebSocket endpoint.

    Conventions of the embedding.
    - A JavaScript string is a [string]; a character is one 8-bit code
      unit, so the line terminators are LF and CR and the white space
      of [trim] is TAB, LF, VT, FF, CR, SP and NBSP.
    - A function that may throw returns a [Completion]; code that also
      mutates module-level state ([db], [activeSessions], [usedPorts],
      the event bus) runs in the monad [M] over [World].
    - An SQLite table is the list of its rows in rowid order.
    - [generateId()] and [new Date()] read a counter and a clock kept in
      the world. *)

From Stdlib Require Import String Ascii ZArith QArith Lia.
From stdpp Require Import base option list sorting gmap strings pretty.

Set Warnings "-register-all".

(** ** Completions: normal return or a thrown exception *)

Inductive JsError : Type :=
| Error (message : string)
| TypeError (message : string)
| SyntaxError (message : string)
| ConflictError (message : string)
| ValidationError (message : string)
| NotFoundError (resource ident : string)
| SqliteError (code : string).

Inductive Completion (A : Type) : Type :=
| Normal (a : A)
| Throw (e : JsError).

Arguments Normal {A} a.
Arguments Throw {A} e.

Definition is_normal {A} (c : Completion A) : bool :=
  match c with Normal _ => true | Throw _ => false end.

(** ** JavaScript strings and regular expressions *)

Module Js.

Definition LF : ascii := "010"%char.
Definition CR : ascii := "013"%char.
Definition backslash : ascii := "\"%char.
Definition dquote : ascii := "034"%char.

Definition str (c : ascii) : string := String c EmptyString.

(** [s.startsWith(p)] *)
Definition startsWith (s p : string) : bool := String.prefix p s.

(** [s.includes(sub)] *)
Fixpoint includes (s sub : string) : bool :=
  String.prefix sub s ||
  match s with
  | EmptyString => false
  | String _ s' => includes s' sub
  end.

(** [s.endsWith(c)] for a one-character [c] *)
Fixpoint endsWith (s : string) (c : ascii) : bool :=
  match s with
  | EmptyString => false
  | String a EmptyString => Ascii.eqb a c
  | String _ s' => endsWith s' c
  end.

(** [s.split(sep)] for a one-character separator: never empty. *)
Fixpoint split (s : string) (sep : ascii) : list string :=
  match s with
  | EmptyString => [EmptyString]
  | String c s' =>
      if Ascii.eqb c sep then EmptyString :: split s' sep
      else match split s' sep with
           | l :: ls => String c l :: ls
           | [] => [str c]
           end
  end.

(** [s.split(sep, limit)]: the pieces of [split] beyond [limit] are
    dropped (the remainder of the string is not kept in the last piece). *)
Definition split_limit (s : string) (sep : ascii) (limit : nat) : list string :=
  take limit (split s sep).

(** [lines.pop()]: the array without its last element, and that element. *)
Fixpoint pop {A} (l : list A) : list A * option A :=
  match l with
  | [] => ([], None)
  | [x] => ([], Some x)
  | x :: l' => let '(r, o) := pop l' in (x :: r, o)
  end.

Definition is_white_space (c : ascii) : bool :=
  let n := nat_of_ascii c in
  (Nat.leb 9 n && Nat.leb n 13) || Nat.eqb n 32 || Nat.eqb n 160.

Fixpoint trimStart (s : string) : string :=
  match s with
  | EmptyString => EmptyString
  | String c s' => if is_white_space c then trimStart s' else s
  end.

Fixpoint trimEnd (s : string) : string :=
  match s with
  | EmptyString => EmptyString
  | String c s' =>
      match trimEnd s' with
      | EmptyString => if is_white_space c then EmptyString else str c
      | t => String c t
      end
  end.

(** [s.trim()] *)
Definition trim (s : string) : string := trimEnd (trimStart s).

(** [s.slice(0, n)] *)
Fixpoint slice0 (s : string) (n : nat) : string :=
  match n, s with
  | S n', String c s' => String c (slice0 s' n')
  | _, _ => EmptyString
  end.

(** [s.slice(n)] *)
Fixpoint slice (s : string) (n : nat) : string :=
  match n, s with
  | S n', String _ s' => slice s' n'
  | _, _ => s
  end.

(** The decimal digits [0] to [9]. *)
Definition is_digit (c : ascii) : bool :=
  let n := nat_of_ascii c in Nat.leb 48 n && Nat.leb n 57.

Definition digit_value (c : ascii) : Z := Z.of_nat (nat_of_ascii c - 48).

(** A run of digits at the head of a text, read as a number that
    continues [acc], and the text after the run. *)
Fixpoint digits (acc : Z) (s : string) : Z * string :=
  match s with
  | String c s' => if is_digit c then digits (10 * acc + digit_value c) s' else (acc, s)
  | EmptyString => (acc, s)
  end.

(** The run of digits at the head of a text, and the text after it. *)
Fixpoint digit_run (s : string) : string * string :=
  match s with
  | String c s' =>
      if is_digit c then let '(d, r) := digit_run s' in (String c d, r)
      else (EmptyString, s)
  | EmptyString => (EmptyString, EmptyString)
  end.

Fixpoint all_digits (s : string) : bool :=
  match s with
  | String c s' => is_digit c && all_digits s'
  | EmptyString => true
  end.

(** *** Regular expressions

    The fragment of the pattern grammar that a glob can be translated to:
    the assertions [^] and [$], literal characters, identity escapes of
    syntax characters, the wildcard [.], and the quantifiers [*] and [?]
    with their lazy forms.  A source outside the fragment is reported as
    [Unsupported]; a source the engine rejects is a [SyntaxErr]. *)

Inductive atom : Type :=
| Lit (c : ascii)
| Dot.

Inductive quant : Type :=
| One
| Opt
| Star.

Inductive term : Type :=
| TBegin
| TEnd
| TAtom (a : atom) (q : quant) (greedy : bool).

Inductive compiled : Type :=
| Compiled (ts : list term)
| SyntaxErr (message : string)
| Unsupported.

(** SyntaxCharacter of the pattern grammar: [^$\.*+?()[]{}|] *)
Definition is_syntax_char (c : ascii) : bool :=
  bool_decide (c ∈ list_ascii_of_string "^$\.*+?()[]{}|").

(** What the parser has just read: nothing that can be repeated, an atom
    without a quantifier, or an atom with a greedy quantifier (which a
    following [?] turns lazy). *)
Inductive pstate : Type :=
| PNone
| PAtom
| PQuant.

Fixpoint parse (acc : list term) (st : pstate) (src : string) : compiled :=
  match src with
  | EmptyString => Compiled (rev acc)
  | String c r =>
      if Ascii.eqb c "^" then parse (TBegin :: acc) PNone r
      else if Ascii.eqb c "$" then parse (TEnd :: acc) PNone r
      else if Ascii.eqb c "*" then
        match st, acc with
        | PAtom, TAtom a _ g :: acc' => parse (TAtom a Star g :: acc') PQuant r
        | _, _ => SyntaxErr "Nothing to repeat"
        end
      else if Ascii.eqb c "?" then
        match st, acc with
        | PAtom, TAtom a _ g :: acc' => parse (TAtom a Opt g :: acc') PQuant r
        | PQuant, TAtom a q _ :: acc' => parse (TAtom a q false :: acc') PNone r
        | _, _ => SyntaxErr "Nothing to repeat"
        end
      else if Ascii.eqb c backslash then
        match r with
        | EmptyString => SyntaxErr "\ at end of pattern"
        | String e r' =>
            if is_syntax_char e then parse (TAtom (Lit e) One true :: acc) PAtom r'
            else Unsupported
        end
      else if Ascii.eqb c "." then parse (TAtom Dot One true :: acc) PAtom r
      else if is_syntax_char c then Unsupported
      else parse (TAtom (Lit c) One true :: acc) PAtom r
  end.

(** [new RegExp(src)] with no flags *)
Definition RegExp (src : string) : compiled := parse [] PNone src.

Definition is_line_terminator (c : ascii) : bool :=
  Ascii.eqb c LF || Ascii.eqb c CR.

(** Without the [s] flag the wildcard does not match a line terminator. *)
Definition atom_matches (a : atom) (c : ascii) : bool :=
  match a with
  | Lit l => Ascii.eqb l c
  | Dot => negb (is_line_terminator c)
  end.

(** Is there a match of [ts] that starts at the head of [s]?  [bos] tells
    whether the head of [s] is the start of the input.  Only the existence
    of a match is computed, so greedy and lazy quantifiers agree. *)
Fixpoint match_here (ts : list term) (bos : bool) (s : string) : bool :=
  match ts with
  | [] => true
  | TBegin :: ts' => bos && match_here ts' bos s
  | TEnd :: ts' =>
      match s with
      | EmptyString => match_here ts' bos s
      | String _ _ => false
      end
  | TAtom a One _ :: ts' =>
      match s with
      | EmptyString => false
      | String c s' => atom_matches a c && match_here ts' false s'
      end
  | TAtom a Opt _ :: ts' =>
      match_here ts' bos s ||
      match s with
      | EmptyString => false
      | String c s' => atom_matches a c && match_here ts' false s'
      end
  | TAtom a Star _ :: ts' =>
      (fix star (bos : bool) (s : string) : bool :=
         match_here ts' bos s ||
         match s with
         | EmptyString => false
         | String c s' => atom_matches a c && star false s'
         end) bos s
  end.

(** A match may start at any index of the input. *)
Fixpoint match_from (ts : list term) (bos : bool) (s : string) : bool :=
  match_here ts bos s ||
  match s with
  | EmptyString => false
  | String _ s' => match_from ts false s'
  end.

(** [regex.test(value)] *)
Definition test (ts : list term) (value : string) : bool :=
  match_from ts true value.

End Js.

(** ** JavaScript numbers

    A finite number is represented by the decimal numeral that
    [Number::toString] prints for it: its significant digits [s], which
    neither start nor end with [0], and the position [n] of the decimal
    point, the number being [0.s × 10^n].  These are the [s] and the [n]
    of [Number::toString], whose [k] is the length of [s]; for a double
    they are the digits of the shortest numeral that reads back as the
    same double.  Zero has no digits.  The two zeros are not told apart;
    [NaN] and the infinities, which JSON text cannot carry, have no
    representation.  Reading a numeral gives the number it denotes; where
    a numeral has more digits than the shortest numeral of the double
    nearest to it, or lies beyond the range of the doubles, JavaScript
    rounds (to that double, to zero or to an infinity) and the
    representation does not.  What [Number::toString] prints is read back
    without rounding in JavaScript too. *)

Module Number.

Record t : Type := mk {
  negative : bool;
  significand : string;
  point : Z
}.

Definition zero : t := mk false "" 0.

Fixpoint zeros (n : nat) : string :=
  match n with
  | O => EmptyString
  | S n' => String "0" (zeros n')
  end.

Fixpoint leading_zeros (s : string) : nat :=
  match s with
  | String c s' => if Ascii.eqb c "0" then S (leading_zeros s') else 0
  | EmptyString => 0
  end.

Fixpoint strip_leading (s : string) : string :=
  match s with
  | String c s' => if Ascii.eqb c "0" then strip_leading s' else s
  | EmptyString => s
  end.

Fixpoint strip_trailing (s : string) : string :=
  match s with
  | EmptyString => EmptyString
  | String c s' =>
      match strip_trailing s' with
      | EmptyString => if Ascii.eqb c "0" then EmptyString else Js.str c
      | t => String c t
      end
  end.

(** The number [0.s × 10^n], negated when [neg], for digits [s] that may
    start and end with zeros. *)
Definition make (neg : bool) (s : string) (n : Z) : t :=
  match strip_trailing (strip_leading s) with
  | EmptyString => zero
  | s' => mk neg s' (n - Z.of_nat (leading_zeros s))
  end.

(** An integer as a number. *)
Definition of_Z (z : Z) : t :=
  let s := pretty (Z.abs z) in
  make (Z.ltb z 0) s (Z.of_nat (String.length s)).

Fixpoint last_nonzero (s : string) : bool :=
  match s with
  | EmptyString => false
  | String c EmptyString => negb (Ascii.eqb c "0")
  | String _ s' => last_nonzero s'
  end.

(** The representations that stand for a number. *)
Definition canonical (x : t) : bool :=
  match significand x with
  | EmptyString => negb (negative x) && Z.eqb (point x) 0
  | String c _ =>
      Js.all_digits (significand x) && negb (Ascii.eqb c "0")
      && last_nonzero (significand x)
  end.

Definition is_zero (x : t) : bool :=
  match significand x with
  | EmptyString => true
  | String _ _ => false
  end.

(** [Number::toString(x, 10)] *)
Definition toString (x : t) : string :=
  match significand x with
  | EmptyString => "0"
  | String d ds =>
      let s := significand x in
      let k := Z.of_nat (String.length s) in
      let n := point x in
      (if negative x then "-" else "") +:+
      (if Z.leb k n && Z.leb n 21 then s +:+ zeros (Z.to_nat (n - k))
       else if Z.ltb 0 n && Z.leb n 21
       then Js.slice0 s (Z.to_nat n) +:+ "." +:+ Js.slice s (Z.to_nat n)
       else if Z.ltb (-6) n && Z.leb n 0
       then "0." +:+ zeros (Z.to_nat (- n)) +:+ s
       else
         String d (match ds with
                   | EmptyString => EmptyString
                   | _ => String "." ds
                   end)
         +:+ "e" +:+ (if Z.ltb (n - 1) 0 then "-" else "+")
         +:+ pretty (Z.abs (n - 1)))
  end.

(** The integer a number is, when it is one. *)
Definition integer (x : t) : option Z :=
  let k := Z.of_nat (String.length (significand x)) in
  if Z.leb k (point x)
  then Some ((if negative x then -1 else 1)
             * (Js.digits 0 (significand x)).1 * 10 ^ (point x - k))%Z
  else None.

(** The value of a number, for comparisons. *)
Definition to_Q (x : t) : Q :=
  Qmult (inject_Z ((if negative x then -1 else 1) * (Js.digits 0 (significand x)).1))
        (Qpower (inject_Z 10) (point x - Z.of_nat (String.length (significand x)))).

End Number.

(** ** JavaScript values

    The values that JSON can carry, and [undefined]. *)

Inductive JsValue : Type :=
| JUndefined
| JNull
| JBool (b : bool)
| JNum (x : Number.t)
| JStr (s : string)
| JArr (items : list JsValue)
| JObj (props : list (string * JsValue)).

Module JsVal.

Definition is_undefined (v : JsValue) : bool :=
  match v with JUndefined => true | _ => false end.

(** ToBoolean *)
Definition truthy (v : JsValue) : bool :=
  match v with
  | JUndefined | JNull => false
  | JBool b => b
  | JNum x => negb (Number.is_zero x)
  | JStr s => negb (String.eqb s "")
  | JArr _ | JObj _ => true
  end.

Fixpoint join (sep : string) (l : list string) : string :=
  match l with
  | [] => ""
  | [x] => x
  | x :: l' => x +:+ sep +:+ join sep l'
  end.

(** [String(v)] *)
Fixpoint ToString (v : JsValue) : string :=
  match v with
  | JUndefined => "undefined"
  | JNull => "null"
  | JBool true => "true"
  | JBool false => "false"
  | JNum x => Number.toString x
  | JStr s => s
  | JArr items =>
      join "," (map (fun x => match x with
                              | JUndefined | JNull => ""
                              | _ => ToString x
                              end) items)
  | JObj _ => "[object Object]"
  end.

(** [o.k] on an object literal: the value of the property, or
    [undefined]. *)
Fixpoint get (props : list (string * JsValue)) (k : string) : JsValue :=
  match props with
  | [] => JUndefined
  | (k', v) :: props' => if String.eqb k' k then v else get props' k
  end.

(** A key that is an array index: the canonical numeral of an integer
    from 0 to 2^32 - 2. *)
Definition array_index (k : string) : option Z :=
  match k with
  | EmptyString => None
  | String c r =>
      if Js.all_digits k && (negb (Ascii.eqb c "0") || String.eqb r "")
         && Nat.leb (String.length k) 10
      then let n := (Js.digits 0 k).1 in
           if Z.leb n 4294967294 then Some n else None
      else None
  end.

(** The own keys of an object are listed with the array indices first,
    in ascending order, and the other keys after them in the order they
    were created: [precedes k k'] tells that a new key [k] goes before
    an existing key [k']. *)
Definition precedes (k k' : string) : bool :=
  match array_index k, array_index k' with
  | Some i, Some j => Z.ltb i j
  | Some _, None => true
  | None, _ => false
  end.

(** [o[k] = v] on an ordinary object: the value of an existing property
    is replaced, a new property takes its place in the order of the own
    keys. *)
Fixpoint set_prop (k : string) (v : JsValue) (props : list (string * JsValue))
    : list (string * JsValue) :=
  match props with
  | [] => [(k, v)]
  | (k', v') :: props' =>
      if String.eqb k' k then (k', v) :: props'
      else if precedes k k' then (k, v) :: props
      else (k', v') :: set_prop k v props'
  end.

Definition hex_digit (n : nat) : ascii :=
  match String.get n "0123456789abcdef" with
  | Some c => c
  | None => "0"%char
  end.

(** QuoteJSONString, one code unit at a time *)
Definition quote_char (c : ascii) : string :=
  let n := nat_of_ascii c in
  if Ascii.eqb c Js.dquote then String Js.backslash (Js.str Js.dquote)
  else if Ascii.eqb c Js.backslash then String Js.backslash (Js.str Js.backslash)
  else if Nat.eqb n 8 then String Js.backslash "b"
  else if Nat.eqb n 9 then String Js.backslash "t"
  else if Nat.eqb n 10 then String Js.backslash "n"
  else if Nat.eqb n 12 then String Js.backslash "f"
  else if Nat.eqb n 13 then String Js.backslash "r"
  else if Nat.ltb n 32 then
    String Js.backslash ("u00" +:+ String (hex_digit (n / 16)) (Js.str (hex_digit (n mod 16))))
  else Js.str c.

Fixpoint quote_body (s : string) : string :=
  match s with
  | EmptyString => EmptyString
  | String c s' => quote_char c +:+ quote_body s'
  end.

Definition quote (s : string) : string :=
  String Js.dquote (quote_body s +:+ Js.str Js.dquote).

(** [JSON.stringify(v)]; [None] is the result [undefined]. *)
Fixpoint stringify (v : JsValue) : option string :=
  match v with
  | JUndefined => None
  | JNull => Some "null"
  | JBool true => Some "true"
  | JBool false => Some "false"
  | JNum x => Some (Number.toString x)
  | JStr s => Some (quote s)
  | JArr items =>
      Some ("[" +:+ join "," (map (fun x => default "null" (stringify x)) items) +:+ "]")
  | JObj props =>
      Some ("{" +:+
            join "," (omap (fun kv => match stringify (snd kv) with
                                      | Some t => Some (quote (fst kv) +:+ ":" +:+ t)
                                      | None => None
                                      end) props) +:+ "}")
  end.

(** [v === undefined || v === null], the test behind [??] and [?.] *)
Definition nullish (v : JsValue) : bool :=
  match v with JUndefined | JNull => true | _ => false end.

(** [v ?? d] *)
Definition coalesce (v d : JsValue) : JsValue := if nullish v then d else v.

(** [v === "s"] *)
Definition is_str (v : JsValue) (s : string) : bool :=
  match v with JStr t => String.eqb t s | _ => false end.

(** [v?.k] for a key [k] that no prototype defines (the keys read by the
    code are [type], [subtype], [request], [status], [message] and the
    like): the own property of an object, [undefined] on anything else. *)
Definition field_opt (v : JsValue) (k : string) : JsValue :=
  match v with JObj props => get props k | _ => JUndefined end.

(** [v.k] for such a key: a TypeError on [null] and [undefined]. *)
Definition field (v : JsValue) (k : string) : Completion JsValue :=
  if nullish v
  then Throw (TypeError ("Cannot read properties of " +:+ ToString v
                         +:+ " (reading '" +:+ k +:+ "')"))
  else Normal (field_opt v k).

End JsVal.

(** ** The persistent store ([src/db/schema.sql], [src/db/database.ts]) *)

(** A value stored in a column, with its storage class: NULL, INTEGER,
    REAL or TEXT. *)
Inductive SqlValue : Type :=
| SNull
| SInt (n : Z)
| SReal (x : Number.t)
| SText (s : string).

(** [SessionStatus] of [src/core/types.ts] *)
Module SessionStatus.
Inductive t : Type := idle | starting | active | compacting | error | closed.

Definition to_string (s : t) : string :=
  match s with
  | idle => "idle"
  | starting => "starting"
  | active => "active"
  | compacting => "compacting"
  | error => "error"
  | closed => "closed"
  end.

Definition eqb (a b : t) : bool := String.eqb (to_string a) (to_string b).

(** The terminal states of the session state machine. *)
Definition terminal (s : t) : bool :=
  match s with
  | error | closed => true
  | _ => false
  end.
End SessionStatus.

(** A row of [permission_rules].  [tool_name], [rule_content] and
    [behavior] have TEXT affinity, so they hold text (or NULL where the
    column allows it); [priority] has INTEGER affinity and holds whatever
    storage class the bound value converts to.  Timestamps are the
    instants the ISO strings denote. *)
Module PermissionRule.
Record t : Type := mk {
  id : string;
  project_id : option string;
  tool_name : string;
  rule_content : option string;
  behavior : string;
  priority : SqlValue;
  created_at : Z
}.
End PermissionRule.

Module PermissionLogEntry.
Record t : Type := mk {
  id : string;
  session_id : string;
  request_id : string;
  tool_name : string;
  tool_input : string;
  decision : string;
  decision_source : string;
  rule_id : option string;
  decided_by : string;
  decided_at : Z
}.
End PermissionLogEntry.

Module Session.
Record t : Type := mk {
  id : string;
  project_id : string;
  session_id : string;
  name : string;
  status : SessionStatus.t;
  model : string;
  cli_pid : option Z;
  ws_port : option Z;
  total_cost_usd : Q;
  total_input_tokens : Z;
  total_output_tokens : Z;
  num_turns : Z;
  error_message : string;
  created_at : Z;
  last_active_at : Z;
  closed_at : option Z
}.
End Session.

Module Message.
Record t : Type := mk {
  id : string;
  session_id : string;
  direction : string;
  message_type : string;
  message_subtype : string;
  content : string;
  timestamp : Z
}.
End Message.

Record Database : Type := mkDatabase {
  projects : list string;
  permission_rules : list PermissionRule.t;
  sessions : list Session.t;
  messages : list Message.t;
  permission_log : list PermissionLogEntry.t
}.

Module Sql.

(** The value of an INTEGER or a REAL. *)
Definition number (v : SqlValue) : Q :=
  match v with
  | SInt n => inject_Z n
  | SReal x => Number.to_Q x
  | _ => 0%Q
  end.

(** The order of ORDER BY across storage classes: NULL, then numbers by
    value, then text; text is compared code unit by code unit (the BINARY
    collation). *)
Definition leb (a b : SqlValue) : bool :=
  match a, b with
  | SNull, _ => true
  | _, SNull => false
  | SText s, SText u => String.leb s u
  | SText _, _ => false
  | _, SText _ => true
  | _, _ => Qle_bool (number a) (number b)
  end.

Section OrderBy.
Context {A : Type} (key : A → SqlValue).

Fixpoint insert_desc (r : A) (l : list A) : list A :=
  match l with
  | [] => [r]
  | x :: l' => if leb (key x) (key r) then r :: l else x :: insert_desc r l'
  end.

(** [ORDER BY key DESC]; rows with equal keys stay in rowid order. *)
Definition order_by_desc (l : list A) : list A := foldr insert_desc [] l.
End OrderBy.

(** What better-sqlite3 binds for a parameter: [null] and [undefined]
    as NULL, a number as a REAL (every JavaScript number is bound as a
    double), a string as TEXT; a boolean, an array or an object is a
    [TypeError]. *)
Definition bind (v : JsValue) : Completion SqlValue :=
  match v with
  | JUndefined | JNull => Normal SNull
  | JNum x => Normal (SReal x)
  | JStr s => Normal (SText s)
  | _ => Throw (TypeError "SQLite3 can only bind numbers, strings, bigints, buffers, and null")
  end.

(** The digits and the position of the point of a number rounded to 15
    significant digits.  The numeral is rounded, half up; SQLite rounds
    the digits of the double, which differ from the numeral only beyond
    its last digit. *)
Definition round15 (x : Number.t) : string * Z :=
  let s := Number.significand x in
  if Nat.leb (String.length s) 15 then (s, Number.point x)
  else
    let v := (Js.digits 0 (Js.slice0 s 15)).1 in
    let up := match Js.slice s 15 with
              | String c _ => Nat.leb 53 (nat_of_ascii c)
              | EmptyString => false
              end in
    let v' := if up then (v + 1)%Z else v in
    if Z.eqb v' (10 ^ 15) then ("1", (Number.point x + 1)%Z)
    else (Number.strip_trailing (pretty v'), Number.point x).

Definition or_zero (s : string) : string :=
  match s with
  | EmptyString => "0"
  | _ => s
  end.

(** The text of a REAL, as the conversion to TEXT renders it (the format
    [%!.15g]): 15 significant digits at most, always a decimal point with
    a digit after it, and an exponent of two digits at least when the
    decimal exponent is below -4 or above 14. *)
Definition real_text (x : Number.t) : string :=
  match Number.significand x with
  | EmptyString => "0.0"
  | String _ _ =>
      let '(s, n) := round15 x in
      let e := (n - 1)%Z in
      (if Number.negative x then "-" else "") +:+
      (if Z.ltb e (-4) || Z.ltb 14 e then
         Js.slice0 s 1 +:+ "." +:+ or_zero (Js.slice s 1)
         +:+ "e" +:+ (if Z.ltb e 0 then "-" else "+")
         +:+ (if Z.ltb (Z.abs e) 10 then "0" else "") +:+ pretty (Z.abs e)
       else if Z.ltb e 0 then
         "0." +:+ Number.zeros (Z.to_nat (- e - 1)) +:+ s
       else
         Js.slice0 (s +:+ Number.zeros (Z.to_nat n - String.length s)) (Z.to_nat n)
         +:+ "." +:+ or_zero (Js.slice s (Z.to_nat n)))
  end.

(** TEXT affinity: a number is stored as its text. *)
Definition text_affinity (v : SqlValue) : option string :=
  match v with
  | SNull => None
  | SInt n => Some (pretty n)
  | SReal x => Some (real_text x)
  | SText s => Some s
  end.

(** The white space that the conversion of text to a number skips. *)
Definition is_space (c : ascii) : bool :=
  let n := nat_of_ascii c in (Nat.leb 9 n && Nat.leb n 13) || Nat.eqb n 32.

Fixpoint skip_spaces (s : string) : string :=
  match s with
  | String c s' => if is_space c then skip_spaces s' else s
  | EmptyString => s
  end.

Definition sign (s : string) : bool * string :=
  match s with
  | String c r =>
      if Ascii.eqb c "-" then (true, r)
      else if Ascii.eqb c "+" then (false, r)
      else (false, s)
  | EmptyString => (false, s)
  end.

(** Text that is a number from end to end, white space around it apart:
    a sign, digits with or without a decimal point, an exponent with
    digits.  The flag tells a plain integer from a numeral with a point
    or an exponent. *)
Definition numeric_literal (s : string) : option (bool * Number.t) :=
  let '(neg, s1) := sign (skip_spaces s) in
  let '(int, s2) := Js.digit_run s1 in
  let '(frac, s3, plain) :=
    match s2 with
    | String c r =>
        if Ascii.eqb c "." then let '(f, r') := Js.digit_run r in (f, r', false)
        else (EmptyString, s2, true)
    | EmptyString => (EmptyString, s2, true)
    end in
  if String.eqb int "" && String.eqb frac "" then None
  else
    let n := Z.of_nat (String.length int) in
    match s3 with
    | String c r =>
        if Ascii.eqb c "e" || Ascii.eqb c "E" then
          let '(eneg, r1) := sign r in
          let '(ed, r2) := Js.digit_run r1 in
          if String.eqb ed "" then None
          else if String.eqb (skip_spaces r2) "" then
            let e := (Js.digits 0 ed).1 in
            Some (false, Number.make neg (int +:+ frac) (n + (if eneg then - e else e)))
          else None
        else if String.eqb (skip_spaces s3) ""
        then Some (plain, Number.make neg (int +:+ frac) n)
        else None
    | EmptyString => Some (plain, Number.make neg (int +:+ frac) n)
    end.

(** A number under INTEGER affinity.  The numeral of an integer
    ([plain]) is stored as INTEGER when a 64-bit integer holds it.  A
    REAL without a fraction is stored as the INTEGER of the same value;
    up to 2^53 in magnitude that is the integer its numeral denotes.
    Beyond 2^53 the digits that [Number::toString] prints as zeros are
    not those of the double, whose exact value SQLite stores as INTEGER
    (below 2^63): the embedding keeps such a number as the REAL, which
    compares and reads back as the same number.  Any other number is
    stored as REAL. *)
Definition integer_or_real (plain : bool) (x : Number.t) : SqlValue :=
  match Number.integer x with
  | Some n =>
      if plain then
        if Z.leb (- 2 ^ 63) n && Z.leb n (2 ^ 63 - 1) then SInt n else SReal x
      else if Z.leb (Z.abs n) (2 ^ 53) then SInt n
      else SReal x
  | None => SReal x
  end.

(** INTEGER affinity: a REAL without a fraction and text that is a
    number are converted; other text is stored unchanged. *)
Definition integer_affinity (v : SqlValue) : SqlValue :=
  match v with
  | SReal x => integer_or_real false x
  | SText s =>
      match numeric_literal s with
      | Some (plain, x) => integer_or_real plain x
      | None => v
      end
  | _ => v
  end.

Section OrderByAsc.
Context {A : Type} (key : A → SqlValue).

Fixpoint insert_asc (r : A) (l : list A) : list A :=
  match l with
  | [] => [r]
  | x :: l' => if leb (key r) (key x) then r :: l else x :: insert_asc r l'
  end.

(** [ORDER BY key ASC]; rows with equal keys stay in rowid order. *)
Definition order_by_asc (l : list A) : list A := foldr insert_asc [] l.
End OrderByAsc.

(** [LIMIT limit OFFSET offset]: a negative limit is no limit, a negative
    offset is no offset. *)
Definition limit_offset {A} (limit offset : Z) (rows : list A) : list A :=
  let rest := drop (Z.to_nat offset) rows in
  if Z.ltb limit 0 then rest else take (Z.to_nat limit) rest.

End Sql.

(** ** Module-level state *)

(** [EventType] and [ConduitEvent] of [src/core/types.ts] *)
Inductive EventType : Type :=
| session_created
| session_status
| session_message
| session_result
| session_error
| session_closed
| stream_event.

Module ConduitEvent.
Record t : Type := mk {
  type : EventType;
  session_id : string;
  data : JsValue;
  timestamp : Z
}.
End ConduitEvent.

(** The part of [Config] the core reads ([src/config.ts]). *)
Record Config : Type := mkConfig {
  cliPath : string;
  wsPortRangeStart : Z;
  wsPortRangeEnd : Z;
  maxSessionsGlobal : nat
}.

(** The state behind a [BridgeServer] object ([src/bridge/ws-server.ts]):
    its port, whether [close()] was called, whether a client socket is
    attached and open, and the frames handed to [send] so far. *)
Module BridgeServer.
Record t : Type := mk {
  port : Z;
  closed : bool;
  connected : bool;
  sent : list string
}.
End BridgeServer.

(** The state behind a [LaunchedCli] object ([src/bridge/cli-launcher.ts]):
    the pid, the captured standard error, and whether [kill()] has sent
    SIGTERM. *)
Module LaunchedCli.
Record t : Type := mk {
  pid : Z;
  stderrBuf : string;
  killed : bool
}.
End LaunchedCli.

(** [ActiveSession] of the session manager.  The bridge and the process
    are objects shared by reference; they live in [bridges] and [clis] of
    the world under the Conduit session id, and the entry refers to them
    by that id. *)
Module ActiveSession.
Record t : Type := mk {
  projectId : string;
  cliSessionId : option string
}.
End ActiveSession.

Record World : Type := mkWorld {
  config : Config;
  db : option Database;
  uuid_counter : nat;
  clock : Z;
  activeSessions : gmap string ActiveSession.t;
  usedPorts : gset Z;
  bridges : gmap string BridgeServer.t;
  clis : gmap string LaunchedCli.t;
  emitted : list ConduitEvent.t
}.

Definition set_db (d : option Database) (w : World) : World :=
  mkWorld (config w) d (uuid_counter w) (clock w) (activeSessions w)
          (usedPorts w) (bridges w) (clis w) (emitted w).

Definition set_uuid_counter (n : nat) (w : World) : World :=
  mkWorld (config w) (db w) n (clock w) (activeSessions w)
          (usedPorts w) (bridges w) (clis w) (emitted w).

Definition set_activeSessions (m : gmap string ActiveSession.t) (w : World) : World :=
  mkWorld (config w) (db w) (uuid_counter w) (clock w) m
          (usedPorts w) (bridges w) (clis w) (emitted w).

Definition set_usedPorts (s : gset Z) (w : World) : World :=
  mkWorld (config w) (db w) (uuid_counter w) (clock w) (activeSessions w)
          s (bridges w) (clis w) (emitted w).

Definition set_bridges (m : gmap string BridgeServer.t) (w : World) : World :=
  mkWorld (config w) (db w) (uuid_counter w) (clock w) (activeSessions w)
          (usedPorts w) m (clis w) (emitted w).

Definition set_clis (m : gmap string LaunchedCli.t) (w : World) : World :=
  mkWorld (config w) (db w) (uuid_counter w) (clock w) (activeSessions w)
          (usedPorts w) (bridges w) m (emitted w).

Definition set_emitted (l : list ConduitEvent.t) (w : World) : World :=
  mkWorld (config w) (db w) (uuid_counter w) (clock w) (activeSessions w)
          (usedPorts w) (bridges w) (clis w) l.

(** ** The monad of effectful code: state and exceptions.  The state
    written before a throw is kept, as in JavaScript. *)

Definition M (A : Type) : Type := World → Completion A * World.

Definition ret {A} (a : A) : M A := fun w => (Normal a, w).

Definition bind {A B} (m : M A) (k : A → M B) : M B :=
  fun w => match m w with
           | (Normal a, w') => k a w'
           | (Throw e, w') => (Throw e, w')
           end.

Definition throw {A} (e : JsError) : M A := fun w => (Throw e, w).

(** [try { body } catch (err) { handler(err) }] *)
Definition try_catch {A} (body : M A) (handler : JsError → M A) : M A :=
  fun w => match body w with
           | (Normal a, w') => (Normal a, w')
           | (Throw e, w') => handler e w'
           end.

Definition lift {A} (c : Completion A) : M A := fun w => (c, w).

Definition gets {A} (f : World → A) : M A := fun w => (Normal (f w), w).

Definition modify (f : World → World) : M unit := fun w => (Normal tt, f w).

Notation "x <- c ;; k" := (bind c (fun x => k))
  (at level 100, c at next level, right associativity).
Notation "c ;;; k" := (bind c (fun _ => k))
  (at level 100, right associativity).

(** [generateId()] of [src/utils/uuid.ts]: a fresh identifier. *)
Definition uuid_of (n : nat) : string := "uuid-" +:+ pretty n.

Definition generateId : M string :=
  fun w => (Normal (uuid_of (uuid_counter w)), set_uuid_counter (S (uuid_counter w)) w).

(** [new Date()] / [Date.now()] *)
Definition now : M Z := gets clock.

(** [getDb()] of [src/db/database.ts] *)
Definition getDb : M Database :=
  fun w => match db w with
           | Some d => (Normal d, w)
           | None => (Throw (Error "Database not initialized. Call initDatabase() first."), w)
           end.

(** A statement run through [queryAll]/[queryOne]: it needs the database
    handle and reads the tables. *)
Definition query {A} (q : Database → A) : M A :=
  d <- getDb ;; ret (q d).

(** A statement run through [execute]: it needs the database handle and
    either fails, leaving the tables as they were, or replaces them. *)
Definition execute (stmt : Database → Completion Database) : M unit :=
  d <- getDb ;;
  d' <- lift (stmt d) ;;
  modify (set_db (Some d')).

(** [eventBus.emit(event)]: every subscriber is called inside its own
    [try]/[catch], so [emit] returns normally; the world records the
    events in emission order. *)
Definition emit (e : ConduitEvent.t) : M unit :=
  modify (fun w => set_emitted (emitted w ++ [e]) w).

(** ** The permission engine ([src/core/permission-engine.ts]) *)

Module PermissionEngine.

(** [PermissionDecision] *)
Record PermissionDecision : Type := mkDecision {
  behavior : string;
  updated_input : option JsValue
}.

(** *** Pattern matching *)

(** The characters of the class [[.+^${}()|[\]\\]]. *)
Definition is_escaped (c : ascii) : bool :=
  bool_decide (c ∈ list_ascii_of_string ".+^${}()|[]\").

(** [pattern.replace(/[.+^${}()|[\]\\]/g, "\\$&")] *)
Fixpoint escape (s : string) : string :=
  match s with
  | EmptyString => EmptyString
  | String c s' =>
      if is_escaped c then String Js.backslash (String c (escape s'))
      else String c (escape s')
  end.

(** [escaped.replace(/\*/g, ".*")] *)
Fixpoint stars (s : string) : string :=
  match s with
  | EmptyString => EmptyString
  | String c s' =>
      if Ascii.eqb c "*" then String "." (String "*" (stars s'))
      else String c (stars s')
  end.

(** The source of the anchored regular expression built from a glob. *)
Definition globSource (pattern : string) : string :=
  "^" +:+ stars (escape pattern) +:+ "$".

(** The second half of [matchGlob]: convert the glob to a regular
    expression and test the value. *)
Definition globTest (pattern value : string) : Completion bool :=
  match Js.RegExp (globSource pattern) with
  | Js.Compiled ts => Normal (Js.test ts value)
  | Js.SyntaxErr m => Throw (SyntaxError ("Invalid regular expression: " +:+ m))
  | Js.Unsupported => Throw (SyntaxError "regular expression outside the modelled fragment")
  end.

(** The first half of [matchGlob]: the prefix of a pattern such as
    [git:*], when the pattern is one. *)
Definition prefixPattern (pattern : string) : option string :=
  if Js.includes pattern ":" then
    match Js.split_limit pattern ":" 2 with
    | prefix :: suffix :: _ => if String.eqb suffix "*" then Some prefix else None
    | _ => None
    end
  else None.

Definition matchGlob (pattern value : string) : Completion bool :=
  match prefixPattern pattern with
  | Some prefix => Normal (Js.startsWith value prefix)
  | None => globTest pattern value
  end.

Definition ToolInput : Type := list (string * JsValue).

(** [JSON.stringify(toolInput)] of an object is never [undefined]. *)
Definition stringifyInput (toolInput : ToolInput) : string :=
  default "{}" (JsVal.stringify (JObj toolInput)).

Definition matchesRule (rule : PermissionRule.t) (toolName : string)
    (toolInput : ToolInput) : Completion bool :=
  if negb (String.eqb (PermissionRule.tool_name rule) "*") &&
     negb (String.eqb (PermissionRule.tool_name rule) toolName)
  then Normal false
  else
    match PermissionRule.rule_content rule with
    | None | Some EmptyString => Normal true
    | Some pattern =>
        if String.eqb toolName "Bash" && JsVal.truthy (JsVal.get toolInput "command")
        then matchGlob pattern (JsVal.ToString (JsVal.get toolInput "command"))
        else if (String.eqb toolName "Write" || String.eqb toolName "Edit"
                 || String.eqb toolName "Read")
                && JsVal.truthy (JsVal.get toolInput "file_path")
        then matchGlob pattern (JsVal.ToString (JsVal.get toolInput "file_path"))
        else matchGlob pattern (stringifyInput toolInput)
    end.

(** The two SELECT statements of [findMatchingRule]. *)
Definition selectProjectRules (pid behavior : string) (d : Database)
    : list PermissionRule.t :=
  Sql.order_by_desc PermissionRule.priority
    (filter (fun r => PermissionRule.project_id r = Some pid
                      ∧ PermissionRule.behavior r = behavior)
            (permission_rules d)).

Definition selectGlobalRules (behavior : string) (d : Database)
    : list PermissionRule.t :=
  Sql.order_by_desc PermissionRule.priority
    (filter (fun r => PermissionRule.project_id r = None
                      ∧ PermissionRule.behavior r = behavior)
            (permission_rules d)).

(** The loop of [findMatchingRule]: the first rule that matches. *)
Fixpoint firstMatch (rules : list PermissionRule.t) (toolName : string)
    (toolInput : ToolInput) : Completion (option PermissionRule.t) :=
  match rules with
  | [] => Normal None
  | rule :: rules' =>
      match matchesRule rule toolName toolInput with
      | Throw e => Throw e
      | Normal true => Normal (Some rule)
      | Normal false => firstMatch rules' toolName toolInput
      end
  end.

(** [projectId ? ... : ...]: [null] and the empty string select the
    global rules. *)
Definition findMatchingRule (projectId : option string) (toolName : string)
    (toolInput : ToolInput) (behavior : string) : M (option PermissionRule.t) :=
  rules <- match projectId with
           | None | Some EmptyString => query (selectGlobalRules behavior)
           | Some pid => query (selectProjectRules pid behavior)
           end ;;
  lift (firstMatch rules toolName toolInput).

(** *** Audit logging *)

(** The INSERT of [logDecision]; [permission_log] references [sessions]
    and [permission_rules], and foreign keys are enforced. *)
Definition insertLog (e : PermissionLogEntry.t) (d : Database) : Completion Database :=
  if bool_decide (PermissionLogEntry.session_id e ∈ Session.id <$> sessions d) &&
     match PermissionLogEntry.rule_id e with
     | None => true
     | Some rid => bool_decide (rid ∈ PermissionRule.id <$> permission_rules d)
     end
  then Normal (mkDatabase (projects d) (permission_rules d) (sessions d)
                          (messages d) (permission_log d ++ [e]))
  else Throw (SqliteError "SQLITE_CONSTRAINT_FOREIGNKEY").

Definition logDecision (sessionId requestId toolName : string)
    (toolInput : ToolInput) (decision source : string)
    (ruleId : option string) : M unit :=
  ident <- generateId ;;
  decided_at <- now ;;
  execute (insertLog
    (PermissionLogEntry.mk ident sessionId requestId toolName
       (stringifyInput toolInput) decision source ruleId
       (if String.eqb source "auto_rule" || String.eqb source "auto_default"
        then "system" else source)
       decided_at)).

(** *** Evaluation *)

Definition evaluate (sessionId projectId requestId toolName : string)
    (toolInput : ToolInput) : M PermissionDecision :=
  projectDeny <- findMatchingRule (Some projectId) toolName toolInput "deny" ;;
  match projectDeny with
  | Some rule =>
      logDecision sessionId requestId toolName toolInput "deny" "auto_rule"
                  (Some (PermissionRule.id rule)) ;;;
      ret (mkDecision "deny" None)
  | None =>
  globalDeny <- findMatchingRule None toolName toolInput "deny" ;;
  match globalDeny with
  | Some rule =>
      logDecision sessionId requestId toolName toolInput "deny" "auto_rule"
                  (Some (PermissionRule.id rule)) ;;;
      ret (mkDecision "deny" None)
  | None =>
  projectAllow <- findMatchingRule (Some projectId) toolName toolInput "allow" ;;
  match projectAllow with
  | Some rule =>
      logDecision sessionId requestId toolName toolInput "allow" "auto_rule"
                  (Some (PermissionRule.id rule)) ;;;
      ret (mkDecision "allow" None)
  | None =>
  globalAllow <- findMatchingRule None toolName toolInput "allow" ;;
  match globalAllow with
  | Some rule =>
      logDecision sessionId requestId toolName toolInput "allow" "auto_rule"
                  (Some (PermissionRule.id rule)) ;;;
      ret (mkDecision "allow" None)
  | None =>
      logDecision sessionId requestId toolName toolInput "allow" "auto_default" None ;;;
      ret (mkDecision "allow" None)
  end end end end.

(** *** Rule update *)

Definition ALLOWED_COLUMNS : list string :=
  ["tool_name"; "rule_content"; "behavior"; "priority"].

(** The entries of [Object.entries(updates)] that pass the guard of the
    loop, [value !== undefined && ALLOWED_COLUMNS.includes(key)]. *)
Definition updateFields (updates : list (string * JsValue)) : list (string * JsValue) :=
  List.filter (fun kv => negb (JsVal.is_undefined kv.2)
                         && bool_decide (kv.1 ∈ ALLOWED_COLUMNS)) updates.

(** The name [`$${key}`] of the parameter of a column. *)
Definition param (key : string) : string := String "$" key.

(** [fields] after the loop: the columns of the SET clause, one
    assignment [key = $key] for each entry that passed the guard. *)
Definition updateColumns (updates : list (string * JsValue)) : list string :=
  (updateFields updates).*1.

(** [params] after the loop: [{ $id: ruleId }] with [params[`$${key}`]]
    set for each entry that passed the guard. *)
Definition updateParams (ruleId : string) (updates : list (string * JsValue))
    : list (string * JsValue) :=
  foldl (fun params kv => JsVal.set_prop (param kv.1) kv.2 params)
        [(param "id", JStr ruleId)] (updateFields updates).

(** What [permission_rules] cannot hold in this embedding: a NULL [id]
    and a [created_at] that is not the text of an instant. *)
Definition outside (what : string) : JsError :=
  Error ("outside the model: " +:+ what).

(** One assignment [col = $col] applied to a row of [permission_rules]:
    the bound value passes through the affinity of the column, and the
    constraints of the column are checked against the store. *)
Definition setColumn (d : Database) (col : string) (v : SqlValue)
    (r : PermissionRule.t) : Completion PermissionRule.t :=
  let '(PermissionRule.mk i p tn rc b pr ca) := r in
  if String.eqb col "id" then
    match Sql.text_affinity v with
    | Some s =>
        if String.eqb s i then Normal r
        else if bool_decide (s ∈ PermissionRule.id <$> permission_rules d)
        then Throw (SqliteError "SQLITE_CONSTRAINT_PRIMARYKEY")
        else if bool_decide (Some i ∈ PermissionLogEntry.rule_id <$> permission_log d)
        then Throw (SqliteError "SQLITE_CONSTRAINT_FOREIGNKEY")
        else Normal (PermissionRule.mk s p tn rc b pr ca)
    | None => Throw (outside "a NULL primary key")
    end
  else if String.eqb col "project_id" then
    match Sql.text_affinity v with
    | Some s =>
        if bool_decide (s ∈ projects d)
        then Normal (PermissionRule.mk i (Some s) tn rc b pr ca)
        else Throw (SqliteError "SQLITE_CONSTRAINT_FOREIGNKEY")
    | None => Normal (PermissionRule.mk i None tn rc b pr ca)
    end
  else if String.eqb col "tool_name" then
    match Sql.text_affinity v with
    | Some s => Normal (PermissionRule.mk i p s rc b pr ca)
    | None => Throw (SqliteError "SQLITE_CONSTRAINT_NOTNULL")
    end
  else if String.eqb col "rule_content" then
    Normal (PermissionRule.mk i p tn (Sql.text_affinity v) b pr ca)
  else if String.eqb col "behavior" then
    match Sql.text_affinity v with
    | Some s => Normal (PermissionRule.mk i p tn rc s pr ca)
    | None => Throw (SqliteError "SQLITE_CONSTRAINT_NOTNULL")
    end
  else if String.eqb col "priority" then
    Normal (PermissionRule.mk i p tn rc b (Sql.integer_affinity v) ca)
  else if String.eqb col "created_at" then
    match Sql.text_affinity v with
    | Some _ => Throw (outside "a creation time given as text")
    | None => Throw (SqliteError "SQLITE_CONSTRAINT_NOTNULL")
    end
  else Throw (SqliteError "SQLITE_ERROR: no such column").

(** The parameters of a statement, bound one by one. *)
Fixpoint bindAll (params : list (string * JsValue)) : Completion (list (string * SqlValue)) :=
  match params with
  | [] => Normal []
  | (k, v) :: params' =>
      match Sql.bind v with
      | Throw e => Throw e
      | Normal sv =>
          match bindAll params' with
          | Throw e => Throw e
          | Normal rest => Normal ((k, sv) :: rest)
          end
      end
  end.

(** The value bound to a named parameter. *)
Fixpoint bound (params : list (string * SqlValue)) (name : string) : Completion SqlValue :=
  match params with
  | [] => Throw (Error "Missing named parameter")
  | (k, v) :: params' => if String.eqb k name then Normal v else bound params' name
  end.

(** The SET clause applied to a row, assignment by assignment. *)
Fixpoint setColumns (d : Database) (params : list (string * SqlValue))
    (fields : list string) (r : PermissionRule.t) : Completion PermissionRule.t :=
  match fields with
  | [] => Normal r
  | col :: fields' =>
      match bound params (param col) with
      | Throw e => Throw e
      | Normal v =>
          match setColumn d col v r with
          | Throw e => Throw e
          | Normal r' => setColumns d params fields' r'
          end
      end
  end.

(** [WHERE id = $id]: the bound value is compared as text, the affinity
    of the column. *)
Definition isTarget (target : SqlValue) (r : PermissionRule.t) : bool :=
  match Sql.text_affinity target with
  | Some s => String.eqb (PermissionRule.id r) s
  | None => false
  end.

Fixpoint updateRows (d : Database) (target : SqlValue) (params : list (string * SqlValue))
    (fields : list string) (rows : list PermissionRule.t)
    : Completion (list PermissionRule.t) :=
  match rows with
  | [] => Normal []
  | r :: rows' =>
      match (if isTarget target r then setColumns d params fields r else Normal r) with
      | Throw e => Throw e
      | Normal r' =>
          match updateRows d target params fields rows' with
          | Throw e => Throw e
          | Normal rest => Normal (r' :: rest)
          end
      end
  end.

(** [UPDATE permission_rules SET ${fields.join(", ")} WHERE id = $id]
    run with [params]. *)
Definition updateRuleStmt (fields : list string) (params : list (string * JsValue))
    (d : Database) : Completion Database :=
  match bindAll params with
  | Throw e => Throw e
  | Normal sqlParams =>
      match bound sqlParams (param "id") with
      | Throw e => Throw e
      | Normal target =>
          match updateRows d target sqlParams fields (permission_rules d) with
          | Throw e => Throw e
          | Normal rows =>
              Normal (mkDatabase (projects d) rows (sessions d) (messages d)
                                 (permission_log d))
          end
      end
  end.

(** [SELECT * FROM permission_rules WHERE id = $id] *)
Definition selectRule (ruleId : string) (d : Database) : option PermissionRule.t :=
  List.find (fun r => String.eqb (PermissionRule.id r) ruleId) (permission_rules d).

Definition updateRule (ruleId : string) (updates : list (string * JsValue))
    : M (option PermissionRule.t) :=
  let fields := updateColumns updates in
  let params := updateParams ruleId updates in
  match fields with
  | [] => ret tt
  | _ :: _ => execute (updateRuleStmt fields params)
  end ;;;
  query (selectRule ruleId).

(** *** Rule CRUD *)

Definition with_rules (rows : list PermissionRule.t) (d : Database) : Database :=
  mkDatabase (projects d) rows (sessions d) (messages d) (permission_log d).

(** [INSERT INTO permission_rules]: the bound values pass through the
    affinities of their columns; [tool_name] and [behavior] are NOT NULL,
    [id] is the primary key and [project_id] references [projects]. *)
Definition insertRule (ident : string) (projectId : option string)
    (tool_name rule_content behavior priority : JsValue) (created_at : Z)
    (d : Database) : Completion Database :=
  match Sql.bind tool_name with
  | Throw e => Throw e
  | Normal tn =>
  match Sql.bind rule_content with
  | Throw e => Throw e
  | Normal rc =>
  match Sql.bind behavior with
  | Throw e => Throw e
  | Normal b =>
  match Sql.bind priority with
  | Throw e => Throw e
  | Normal pr =>
  match Sql.text_affinity tn, Sql.text_affinity b with
  | Some tn', Some b' =>
      if bool_decide (ident ∈ PermissionRule.id <$> permission_rules d)
      then Throw (SqliteError "SQLITE_CONSTRAINT_PRIMARYKEY")
      else if match projectId with
              | Some pid => bool_decide (pid ∈ projects d)
              | None => true
              end
      then Normal (with_rules
                     (permission_rules d ++
                      [PermissionRule.mk ident projectId tn' (Sql.text_affinity rc) b'
                                         (Sql.integer_affinity pr) created_at])%list d)
      else Throw (SqliteError "SQLITE_CONSTRAINT_FOREIGNKEY")
  | _, _ => Throw (SqliteError "SQLITE_CONSTRAINT_NOTNULL")
  end end end end end.

(** [createRule(projectId, input)]; [input] is the object the caller
    passes, the parsed body of the request. *)
Definition createRule (projectId : option string) (input : list (string * JsValue))
    : M (option PermissionRule.t) :=
  ident <- generateId ;;
  created_at <- now ;;
  execute (insertRule ident projectId
             (JsVal.get input "tool_name")
             (JsVal.coalesce (JsVal.get input "rule_content") (JStr ""))
             (JsVal.get input "behavior")
             (JsVal.coalesce (JsVal.get input "priority") (JNum (Number.of_Z 0)))
             created_at) ;;;
  query (selectRule ident).

Definition getRulesForProject (projectId : string) : M (list PermissionRule.t) :=
  query (fun d =>
    Sql.order_by_desc PermissionRule.priority
      (filter (fun r => PermissionRule.project_id r = Some projectId)
              (permission_rules d))).

Definition getGlobalRules : M (list PermissionRule.t) :=
  query (fun d =>
    Sql.order_by_desc PermissionRule.priority
      (filter (fun r => PermissionRule.project_id r = None) (permission_rules d))).

(** [DELETE FROM permission_rules WHERE id = $id]; [permission_log.rule_id]
    references the table without an ON DELETE action, so a rule that an
    audit row refers to cannot be deleted. *)
Definition deleteRuleStmt (ruleId : string) (d : Database) : Completion Database :=
  if bool_decide (ruleId ∈ PermissionRule.id <$> permission_rules d)
     && bool_decide (Some ruleId ∈ PermissionLogEntry.rule_id <$> permission_log d)
  then Throw (SqliteError "SQLITE_CONSTRAINT_FOREIGNKEY")
  else Normal (with_rules
                 (List.filter (fun r => negb (String.eqb (PermissionRule.id r) ruleId))
                              (permission_rules d)) d).

Definition deleteRule (ruleId : string) : M unit :=
  execute (deleteRuleStmt ruleId).

(** *** The audit log *)

(** The [filters] argument of [getAuditLog]. *)
Module AuditFilters.
Record t : Type := mk {
  session_id : option string;
  limit : option Z;
  offset : option Z
}.
End AuditFilters.

(** The statement [getAuditLog] assembles.  An OFFSET clause without a
    LIMIT clause is not SQL: preparing the statement fails. *)
Definition selectAuditLog (session : option string) (limit offset : option Z)
    (d : Database) : Completion (list PermissionLogEntry.t) :=
  let rows :=
    Sql.order_by_desc (fun e => SInt (PermissionLogEntry.decided_at e))
      (match session with
       | Some sid => List.filter (fun e => String.eqb (PermissionLogEntry.session_id e) sid)
                                 (permission_log d)
       | None => permission_log d
       end) in
  match limit, offset with
  | None, None => Normal rows
  | Some l, None => Normal (Sql.limit_offset l 0 rows)
  | Some l, Some o => Normal (Sql.limit_offset l o rows)
  | None, Some _ => Throw (SqliteError "SQLITE_ERROR: near OFFSET: syntax error")
  end.

Definition getAuditLog (filters : option AuditFilters.t)
    : M (list PermissionLogEntry.t) :=
  let session := match filters ≫= AuditFilters.session_id with
                 | Some EmptyString => None
                 | o => o
                 end in
  d <- getDb ;;
  lift (selectAuditLog session (filters ≫= AuditFilters.limit)
                       (filters ≫= AuditFilters.offset) d).

End PermissionEngine.

(** ** [JSON.parse]

    A recursive-descent reader of JSON text into [JsValue].  A [\u]
    escape above [00ff] has no counterpart in the strings of [JsValue]
    and is reported like malformed text. *)

Module JsonParse.

Definition is_json_ws (c : ascii) : bool :=
  let n := nat_of_ascii c in
  Nat.eqb n 32 || Nat.eqb n 9 || Nat.eqb n 10 || Nat.eqb n 13.

Fixpoint skip_ws (s : string) : string :=
  match s with
  | String c s' => if is_json_ws c then skip_ws s' else s
  | EmptyString => s
  end.

(** [expect lit s]: [s] without its prefix [lit]. *)
Fixpoint expect (lit s : string) : option string :=
  match lit, s with
  | EmptyString, _ => Some s
  | String a lit', String b s' => if Ascii.eqb a b then expect lit' s' else None
  | String _ _, EmptyString => None
  end.

(** The exponent part of a number, if there is one: [e] or [E], a sign
    or none, and digits. *)
Definition exponent (s : string) : option (Z * string) :=
  match s with
  | String c r =>
      if Ascii.eqb c "e" || Ascii.eqb c "E" then
        let '(neg, r1) :=
          match r with
          | String x r' =>
              if Ascii.eqb x "-" then (true, r')
              else if Ascii.eqb x "+" then (false, r')
              else (false, r)
          | EmptyString => (false, r)
          end in
        match Js.digit_run r1 with
        | (EmptyString, _) => None
        | (ed, r2) =>
            Some (if neg then (- (Js.digits 0 ed).1)%Z else (Js.digits 0 ed).1, r2)
        end
      else Some (0%Z, s)
  | EmptyString => Some (0%Z, s)
  end.

(** The fraction part of a number, if there is one: a point and digits. *)
Definition fraction (s : string) : option (string * string) :=
  match s with
  | String c r =>
      if Ascii.eqb c "." then
        match Js.digit_run r with
        | (EmptyString, _) => None
        | (f, r') => Some (f, r')
        end
      else Some (EmptyString, s)
  | EmptyString => Some (EmptyString, s)
  end.

(** A JSON number after its sign: [0], or a digit other than [0] and
    more digits; then a fraction or none; then an exponent or none. *)
Definition number (neg : bool) (s : string) : option (JsValue * string) :=
  match Js.digit_run s with
  | (EmptyString, _) => None
  | (String c int', s1) =>
      if Ascii.eqb c "0" && negb (String.eqb int' "") then None
      else
        match fraction s1 with
        | None => None
        | Some (frac, s2) =>
            match exponent s2 with
            | None => None
            | Some (e, s3) =>
                Some (JNum (Number.make neg (String c int' +:+ frac)
                                        (Z.of_nat (String.length (String c int')) + e)),
                      s3)
            end
        end
  end.

Definition hex_value (c : ascii) : option nat :=
  let n := nat_of_ascii c in
  if Nat.leb 48 n && Nat.leb n 57 then Some (n - 48)
  else if Nat.leb 97 n && Nat.leb n 102 then Some (n - 87)
  else if Nat.leb 65 n && Nat.leb n 70 then Some (n - 55)
  else None.

(** The characters of a string literal after its opening quote, up to
    and including the closing quote. *)
Fixpoint chars (s : string) : option (string * string) :=
  match s with
  | EmptyString => None
  | String c r =>
      if Ascii.eqb c Js.dquote then Some (EmptyString, r)
      else if Ascii.eqb c Js.backslash then
        match r with
        | String e r' =>
            let simple (x : ascii) :=
              match chars r' with
              | Some (t, rest) => Some (String x t, rest)
              | None => None
              end in
            if Ascii.eqb e Js.dquote then simple Js.dquote
            else if Ascii.eqb e Js.backslash then simple Js.backslash
            else if Ascii.eqb e "/" then simple "/"%char
            else if Ascii.eqb e "b" then simple "008"%char
            else if Ascii.eqb e "f" then simple "012"%char
            else if Ascii.eqb e "n" then simple "010"%char
            else if Ascii.eqb e "r" then simple "013"%char
            else if Ascii.eqb e "t" then simple "009"%char
            else if Ascii.eqb e "u" then
              match r' with
              | String h1 (String h2 (String h3 (String h4 r''))) =>
                  match hex_value h1, hex_value h2, hex_value h3, hex_value h4 with
                  | Some 0, Some 0, Some a, Some b =>
                      match chars r'' with
                      | Some (t, rest) => Some (String (ascii_of_nat (16 * a + b)) t, rest)
                      | None => None
                      end
                  | _, _, _, _ => None
                  end
              | _ => None
              end
            else None
        | EmptyString => None
        end
      else if Nat.ltb (nat_of_ascii c) 32 then None
      else
        match chars r with
        | Some (t, rest) => Some (String c t, rest)
        | None => None
        end
  end.

(** The character a text starts with, if any. *)
Definition starts (c : ascii) (s : string) : bool :=
  match s with
  | String a _ => Ascii.eqb a c
  | EmptyString => false
  end.

Definition tail (s : string) : string :=
  match s with
  | String _ r => r
  | EmptyString => EmptyString
  end.

(** [value] reads one value; [elements] reads the elements of an array
    after its opening bracket and [members] the members of an object
    after its opening brace, both up to and including the closing
    character.  A member is set on the object read so far: a later member
    with the same key replaces the value of the earlier one.  [fuel]
    bounds the number of nested calls; the length of the text is
    enough. *)
Fixpoint value (fuel : nat) (s : string) : option (JsValue * string) :=
  match fuel with
  | O => None
  | S fuel' =>
      match skip_ws s with
      | EmptyString => None
      | String c r =>
          if Ascii.eqb c "n" then (fun rest => (JNull, rest)) <$> expect "ull" r
          else if Ascii.eqb c "t" then (fun rest => (JBool true, rest)) <$> expect "rue" r
          else if Ascii.eqb c "f" then (fun rest => (JBool false, rest)) <$> expect "alse" r
          else if Ascii.eqb c Js.dquote then
            match chars r with
            | Some (t, rest) => Some (JStr t, rest)
            | None => None
            end
          else if Ascii.eqb c "-" then number true r
          else if Js.is_digit c then number false (String c r)
          else if Ascii.eqb c "[" then
            if starts "]" (skip_ws r) then Some (JArr [], tail (skip_ws r))
            else elements fuel' [] r
          else if Ascii.eqb c "{" then
            if starts "}" (skip_ws r) then Some (JObj [], tail (skip_ws r))
            else members fuel' [] r
          else None
      end
  end
with elements (fuel : nat) (acc : list JsValue) (s : string)
    : option (JsValue * string) :=
  match fuel with
  | O => None
  | S fuel' =>
      match value fuel' s with
      | None => None
      | Some (v, rest) =>
          if starts "," (skip_ws rest)
          then elements fuel' (acc ++ [v])%list (tail (skip_ws rest))
          else if starts "]" (skip_ws rest)
          then Some (JArr (acc ++ [v])%list, tail (skip_ws rest))
          else None
      end
  end
with members (fuel : nat) (acc : list (string * JsValue)) (s : string)
    : option (JsValue * string) :=
  match fuel with
  | O => None
  | S fuel' =>
      if starts Js.dquote (skip_ws s) then
        match chars (tail (skip_ws s)) with
        | Some (key, s2) =>
            if starts ":" (skip_ws s2) then
              match value fuel' (tail (skip_ws s2)) with
              | None => None
              | Some (v, rest) =>
                  if starts "," (skip_ws rest)
                  then members fuel' (JsVal.set_prop key v acc) (tail (skip_ws rest))
                  else if starts "}" (skip_ws rest)
                  then Some (JObj (JsVal.set_prop key v acc), tail (skip_ws rest))
                  else None
              end
            else None
        | None => None
        end
      else None
  end.

(** [JSON.parse(text)]: one value and nothing but white space after it;
    [None] stands for the [SyntaxError]. *)
Definition parse (text : string) : option JsValue :=
  match value (S (String.length text)) text with
  | Some (v, rest) =>
      match skip_ws rest with
      | EmptyString => Some v
      | String _ _ => None
      end
  | None => None
  end.

End JsonParse.

(** ** The NDJSON framer ([src/bridge/ndjson.ts]) *)

Module Ndjson.

(** [JSON.stringify(obj) + "\n"] *)
Definition serializeNdjson (obj : JsValue) : string :=
  default "undefined" (JsVal.stringify obj) +:+ Js.str Js.LF.

(** The body of the [try] in [feed] and in [flush]: [JSON.parse(text)],
    the read of [parsed.type] for the log, which throws on [null], and
    the call of [onMessage]; whatever is thrown is caught.  The value
    handed to [onMessage], if any. *)
Definition tryDeliver (text : string) : option JsValue :=
  match JsonParse.parse text with
  | Some parsed =>
      match JsVal.field parsed "type" with
      | Normal _ => Some parsed
      | Throw _ => None
      end
  | None => None
  end.

(** The body of the loop of [feed] for one line: the value handed to
    [onMessage], if any. *)
Definition parseLine (line : string) : option JsValue :=
  let trimmed := Js.trim line in
  if String.eqb trimmed "" then None else tryDeliver trimmed.

(** The parser object is its [buffer]; the calls of [onMessage] are
    returned in order. *)
Definition feed (buffer chunk : string) : list JsValue * string :=
  let lines := Js.split (buffer +:+ chunk) Js.LF in
  let '(complete, last) := Js.pop lines in
  (omap parseLine complete, default "" last).

Definition flush (buffer : string) : list JsValue * string :=
  if String.eqb (Js.trim buffer) "" then ([], buffer)
  else (match tryDeliver (Js.trim buffer) with
        | Some v => [v]
        | None => []
        end, "").

(** A sequence of [feed] calls on one parser. *)
Fixpoint feedAll (buffer : string) (chunks : list string) : list JsValue * string :=
  match chunks with
  | [] => ([], buffer)
  | chunk :: chunks' =>
      let '(out, buffer') := feed buffer chunk in
      let '(out', buffer'') := feedAll buffer' chunks' in
      ((out ++ out')%list, buffer'')
  end.

End Ndjson.

(** ** The session manager ([src/core/session-manager.ts]) *)

Module SessionManager.

(** *** Statements on [sessions] and [messages] *)

Definition with_sessions (rows : list Session.t) (d : Database) : Database :=
  mkDatabase (projects d) (permission_rules d) rows (messages d) (permission_log d).

(** The rows of [sessions] after the assignments [f] were applied to the
    rows whose id is [ident]. *)
Definition updated (ident : string) (f : Session.t → Session.t)
    (rows : list Session.t) : list Session.t :=
  map (fun s => if String.eqb (Session.id s) ident then f s else s) rows.

(** [UPDATE sessions SET ... WHERE id = $id] with the assignments [f] *)
Definition updateSession (ident : string) (f : Session.t → Session.t)
    (d : Database) : Completion Database :=
  Normal (with_sessions (updated ident f (sessions d)) d).

(** [INSERT INTO sessions]; [project_id] references [projects]. *)
Definition insertSession (s : Session.t) (d : Database) : Completion Database :=
  if bool_decide (Session.project_id s ∈ projects d)
  then Normal (with_sessions (sessions d ++ [s])%list d)
  else Throw (SqliteError "SQLITE_CONSTRAINT_FOREIGNKEY").

(** [INSERT INTO messages]; [session_id] references [sessions]. *)
Definition insertMessage (m : Message.t) (d : Database) : Completion Database :=
  if bool_decide (Message.session_id m ∈ Session.id <$> sessions d)
  then Normal (mkDatabase (projects d) (permission_rules d) (sessions d)
                          (messages d ++ [m])%list (permission_log d))
  else Throw (SqliteError "SQLITE_CONSTRAINT_FOREIGNKEY").

(** [SELECT * FROM sessions WHERE id = $id] *)
Definition selectSession (ident : string) (d : Database) : option Session.t :=
  List.find (fun s => String.eqb (Session.id s) ident) (sessions d).

(** [SELECT COUNT( * ) FROM sessions WHERE project_id = $pid] *)
Definition countSessions (pid : string) (d : Database) : nat :=
  length (List.filter (fun s => String.eqb (Session.project_id s) pid) (sessions d)).

(** The assignments of the UPDATE statements. *)
Definition setStatus (st : SessionStatus.t) (s : Session.t) : Session.t :=
  let '(Session.mk i p sid n _ m pid port c ti to nt em ca la cl) := s in
  Session.mk i p sid n st m pid port c ti to nt em ca la cl.

Definition setSessionId (sid : string) (s : Session.t) : Session.t :=
  let '(Session.mk i p _ n st m pid port c ti to nt em ca la cl) := s in
  Session.mk i p sid n st m pid port c ti to nt em ca la cl.

Definition setCliPid (pid : Z) (s : Session.t) : Session.t :=
  let '(Session.mk i p sid n st m _ port c ti to nt em ca la cl) := s in
  Session.mk i p sid n st m (Some pid) port c ti to nt em ca la cl.

Definition setLastActive (t : Z) (s : Session.t) : Session.t :=
  let '(Session.mk i p sid n st m pid port c ti to nt em ca _ cl) := s in
  Session.mk i p sid n st m pid port c ti to nt em ca t cl.

(** [SET status = $status, error_message = $error_message, closed_at = $now] *)
Definition setEnded (st : SessionStatus.t) (msg : string) (t : Z) (s : Session.t)
    : Session.t :=
  let '(Session.mk i p sid n _ m pid port c ti to nt _ ca la _) := s in
  Session.mk i p sid n st m pid port c ti to nt msg ca la (Some t).

(** [SET status = 'closed', closed_at = $now] *)
Definition setClosed (t : Z) (s : Session.t) : Session.t :=
  let '(Session.mk i p sid n _ m pid port c ti to nt em ca la _) := s in
  Session.mk i p sid n SessionStatus.closed m pid port c ti to nt em ca la (Some t).

(** The SET clause of the [result] handler. *)
Definition setResult (cost : Q) (input_tokens output_tokens : Z) (t : Z)
    (s : Session.t) : Session.t :=
  let '(Session.mk i p sid n _ m pid port _ _ _ nt em ca _ cl) := s in
  Session.mk i p sid n SessionStatus.idle m pid port cost input_tokens output_tokens
             (nt + 1) em ca t cl.

(** *** Session naming *)

Definition SESSION_ADJECTIVES : list string :=
  ["Swift"; "Bright"; "Calm"; "Sharp"; "Bold";
   "Quick"; "Keen"; "Warm"; "Clear"; "Deep";
   "Fast"; "Steady"; "Fresh"; "Vivid"; "Agile";
   "Quiet"; "Crisp"; "Smooth"; "Prime"; "Core"].

Definition SESSION_NOUNS : list string :=
  ["Spark"; "Pulse"; "Wave"; "Thread"; "Stream";
   "Nexus"; "Forge"; "Relay"; "Signal"; "Bridge";
   "Orbit"; "Prism"; "Scope"; "Helix"; "Arc";
   "Drift"; "Flare"; "Lattice"; "Cipher"; "Vector"].

Definition generateSessionName (projectId : string) : M string :=
  index <- query (countSessions projectId) ;;
  let adj := default "undefined"
               (SESSION_ADJECTIVES !! (index mod length SESSION_ADJECTIVES)) in
  let noun := default "undefined"
                (SESSION_NOUNS !! ((index / length SESSION_ADJECTIVES)
                                   mod length SESSION_NOUNS)) in
  ret (adj +:+ " " +:+ noun).

(** *** The port pool *)

(** The loop of [allocatePort], started at [port] with [n] ports left. *)
Fixpoint firstFree (used : gset Z) (port : Z) (n : nat) : option Z :=
  match n with
  | O => None
  | S n' => if bool_decide (port ∈ used) then firstFree used (port + 1) n'
            else Some port
  end.

Definition allocatePort : M Z :=
  fun w =>
    let c := config w in
    match firstFree (usedPorts w) (wsPortRangeStart c)
                    (Z.to_nat (wsPortRangeEnd c - wsPortRangeStart c + 1)) with
    | Some port => (Normal port, set_usedPorts ({[port]} ∪ usedPorts w) w)
    | None => (Throw (ConflictError "No available ports for new session"), w)
    end.

Definition releasePort (port : Z) : M unit :=
  modify (fun w => set_usedPorts (usedPorts w ∖ {[port]}) w).

(** *** The bridge and the subprocess, as the manager uses them *)

(** [bridge.close()] *)
Definition bridgeClose (ident : string) : M unit :=
  modify (fun w =>
    set_bridges (alter (fun b => BridgeServer.mk (BridgeServer.port b) true
                                   (BridgeServer.connected b) (BridgeServer.sent b))
                       ident (bridges w)) w).

(** [cli.kill()]: SIGTERM is sent; failures are caught inside. *)
Definition cliKill (ident : string) : M unit :=
  modify (fun w =>
    set_clis (alter (fun c => LaunchedCli.mk (LaunchedCli.pid c)
                                (LaunchedCli.stderrBuf c) true)
                    ident (clis w)) w).

Definition STDERR_MAX_BYTES : nat := 4096.

(** The [data] handler of the subprocess's standard error. *)
Definition onStderrData (buf chunk : string) : string :=
  if Nat.ltb (String.length buf) STDERR_MAX_BYTES
  then Js.slice0 (buf +:+ chunk) STDERR_MAX_BYTES
  else buf.

(** [cli.getStderr()] *)
Definition getStderr (ident : string) : M string :=
  gets (fun w => match clis w !! ident with
                 | Some c => Js.trim (LaunchedCli.stderrBuf c)
                 | None => ""
                 end).

(** *** Internal helpers *)

Definition getById (ident : string) : M (option Session.t) :=
  query (selectSession ident).

Definition statusEvent (sessionId : string) (st : SessionStatus.t) (t : Z)
    : ConduitEvent.t :=
  ConduitEvent.mk session_status sessionId
    (JObj [("status", JStr (SessionStatus.to_string st))]) t.

Definition updateStatus (sessionId : string) (st : SessionStatus.t) : M unit :=
  execute (updateSession sessionId (setStatus st)) ;;;
  t <- now ;;
  emit (statusEvent sessionId st t).

Definition storeMessage (sessionId direction messageType subtype content : string)
    : M unit :=
  ident <- generateId ;;
  t <- now ;;
  execute (insertMessage
             (Message.mk ident sessionId direction messageType subtype content t)).

Definition errorEvent (sessionId reason errorMessage : string) (t : Z)
    : ConduitEvent.t :=
  ConduitEvent.mk session_error sessionId
    (JObj [("reason", JStr reason); ("error_message", JStr errorMessage)]) t.

(** [a || b] on strings *)
Definition or_else (a b : string) : string :=
  match a with EmptyString => b | _ => a end.

Definition handleProcessExit (sessionId : string) (port : Z) : M unit :=
  releasePort port ;;;
  active <- gets (fun w => activeSessions w !! sessionId) ;;
  stderr <- match active with
            | Some _ => getStderr sessionId
            | None => ret ""
            end ;;
  match active with
  | Some _ =>
      bridgeClose sessionId ;;;
      modify (fun w => set_activeSessions (delete sessionId (activeSessions w)) w)
  | None => ret tt
  end ;;;
  session <- getById sessionId ;;
  match session with
  | None => ret tt
  | Some s =>
      if SessionStatus.eqb (Session.status s) SessionStatus.closed then ret tt
      else
        let neverBecameActive :=
          SessionStatus.eqb (Session.status s) SessionStatus.starting
          || SessionStatus.eqb (Session.status s) SessionStatus.idle in
        let wasActive := SessionStatus.eqb (Session.status s) SessionStatus.active in
        let finalStatus :=
          if wasActive || (neverBecameActive && negb (String.eqb stderr ""))
          then SessionStatus.error else SessionStatus.closed in
        let errorMessage :=
          or_else stderr
            (if wasActive then "CLI process exited unexpectedly during active turn"
             else "") in
        t <- now ;;
        execute (updateSession sessionId (setEnded finalStatus errorMessage t)) ;;;
        if SessionStatus.eqb finalStatus SessionStatus.error then
          let reason := if neverBecameActive then "cli_exited_before_connect"
                        else "unexpected_exit" in
          t' <- now ;;
          emit (errorEvent sessionId reason errorMessage t')
        else ret tt
  end.

(** *** The [result] handler installed by [create] *)

Record Usage : Type := mkUsage {
  input_tokens : option Z;
  output_tokens : option Z
}.

(** [CliResultMessage]: the fields the handler reads, and [text], the
    JSON text of the whole message. *)
Record CliResultMessage : Type := mkResult {
  total_cost_usd : option Q;
  usage : option Usage;
  text : string
}.

Definition onResult (ident : string) (data : CliResultMessage) : M unit :=
  let inputTokens := default 0%Z (usage data ≫= input_tokens) in
  let outputTokens := default 0%Z (usage data ≫= output_tokens) in
  let costUsd := default 0%Q (total_cost_usd data) in
  t <- now ;;
  execute (updateSession ident (setResult costUsd inputTokens outputTokens t)) ;;;
  storeMessage ident "inbound" "result" "" (text data) ;;;
  updateStatus ident SessionStatus.idle.

(** *** Session creation *)

(** The [project] argument of [create]. *)
Record Project : Type := mkProject {
  folder_path : string;
  default_model : option string;
  default_permission_mode : option string;
  system_prompt : string;
  append_system_prompt : string
}.

(** [CreateSessionInput] *)
Record CreateSessionInput : Type := mkInput {
  name : option string;
  model : option string;
  permission_mode : option string;
  resume_session_id : option string
}.

(** How the wait for the bridge connection ends. *)
Inductive ConnectOutcome : Type :=
| Connected
| TimedOut
| ExitedBeforeConnect (code : option Z).

(** What the surroundings of one [create] call do: whether the bridge
    server comes up ([None]) or reports an error, the pid [spawn] gives
    (none when the process could not be started), what the process writes
    to its standard error while the manager waits, and how the wait
    ends. *)
Record CreateEnv : Type := mkEnv {
  bridge_error : option JsError;
  spawn_pid : option Z;
  stderr_chunks : list string;
  outcome : ConnectOutcome
}.

Definition VALID_PERMISSION_MODES : list string :=
  ["acceptEdits"; "bypassPermissions"; "default"; "delegate"; "dontAsk"; "plan"].

(** [err instanceof Error ? err.message : String(err)] *)
Definition message_of (e : JsError) : string :=
  match e with
  | Error m | TypeError m | SyntaxError m | ConflictError m | ValidationError m => m
  | NotFoundError resource ident => resource +:+ " not found: " +:+ ident
  | SqliteError code => code
  end.

(** [createBridgeServer(port, id, callbacks)]: the promise resolves with
    the bridge once the server listens and rejects on a server error. *)
Definition createBridgeServer (port : Z) (ident : string) (env : CreateEnv) : M unit :=
  match bridge_error env with
  | Some e => throw e
  | None =>
      modify (fun w => set_bridges
                (<[ident := BridgeServer.mk port false false []]> (bridges w)) w)
  end.

(** [launchCli(options)]: throws when [spawn] yields no pid.  The argument
    vector built from the options does not influence the outcome. *)
Definition launchCli (ident : string) (env : CreateEnv) : M Z :=
  match spawn_pid env with
  | None =>
      path <- gets (fun w => cliPath (config w)) ;;
      throw (Error ("Failed to start CLI process. Is '" +:+ path
                    +:+ "' installed and in PATH?"))
  | Some pid =>
      modify (fun w => set_clis (<[ident := LaunchedCli.mk pid "" false]> (clis w)) w) ;;;
      ret pid
  end.

Definition show_code (code : option Z) : string :=
  match code with
  | Some n => pretty n
  | None => "null"
  end.

(** The promise [create] awaits after the launch.  The exit listener
    registered through [cli.onExit] runs before the one that rejects the
    promise, so [handleProcessExit] has completed when the rejection is
    caught. *)
Definition awaitConnect (ident : string) (port : Z) (env : CreateEnv) : M unit :=
  modify (fun w =>
    set_clis (alter (fun c => LaunchedCli.mk (LaunchedCli.pid c)
                                (foldl onStderrData (LaunchedCli.stderrBuf c)
                                       (stderr_chunks env))
                                (LaunchedCli.killed c))
                    ident (clis w)) w) ;;;
  match outcome env with
  | Connected =>
      modify (fun w =>
        set_bridges (alter (fun b => BridgeServer.mk (BridgeServer.port b)
                                       (BridgeServer.closed b) true (BridgeServer.sent b))
                           ident (bridges w)) w)
  | TimedOut => throw (Error "CLI failed to connect to bridge within 15s")
  | ExitedBeforeConnect code =>
      handleProcessExit ident port ;;;
      throw (Error ("CLI process exited with code " +:+ show_code code
                    +:+ " before connecting to bridge"))
  end.

(** The [catch] block around [launchCli]. *)
Definition launchFailureCleanup (ident : string) (port : Z) (err : JsError) : M Z :=
  let errorMessage := message_of err in
  bridgeClose ident ;;;
  releasePort port ;;;
  t <- now ;;
  execute (updateSession ident (setEnded SessionStatus.error errorMessage t)) ;;;
  throw err.

(** The [catch] block around the wait for the connection. *)
Definition connectFailureCleanup (ident : string) (port : Z) (err : JsError) : M unit :=
  stderr <- getStderr ident ;;
  let errorMessage := or_else stderr (message_of err) in
  modify (fun w => set_activeSessions (delete ident (activeSessions w)) w) ;;;
  bridgeClose ident ;;;
  releasePort port ;;;
  cliKill ident ;;;
  t <- now ;;
  execute (updateSession ident (setEnded SessionStatus.error errorMessage t)) ;;;
  t' <- now ;;
  emit (errorEvent ident "cli_failed_to_connect" errorMessage t') ;;;
  throw err.

(** The wait for the connection with its [catch] block. *)
Definition waitForConnect (ident : string) (port : Z) (env : CreateEnv) : M unit :=
  try_catch (awaitConnect ident port env) (connectFailureCleanup ident port).

Definition create (projectId : string) (project : Project)
    (input : CreateSessionInput) (env : CreateEnv) : M (option Session.t) :=
  activeCount <- gets (fun w => size (activeSessions w)) ;;
  limit <- gets (fun w => maxSessionsGlobal (config w)) ;;
  if Nat.leb limit activeCount
  then throw (ConflictError ("Maximum global sessions (" +:+ pretty limit +:+ ") reached"))
  else
  ident <- generateId ;;
  port <- allocatePort ;;
  let model := default (default "" (default_model project)) (model input) in
  let rawMode := default (default "default" (default_permission_mode project))
                         (permission_mode input) in
  if negb (String.eqb rawMode "") && negb (bool_decide (rawMode ∈ VALID_PERMISSION_MODES))
  then throw (ValidationError ("Invalid permission mode '" +:+ rawMode
                +:+ "'. Must be one of: " +:+ JsVal.join ", " VALID_PERMISSION_MODES))
  else
  t <- now ;;
  sessionName <- match name input with
                 | Some n => ret n
                 | None => generateSessionName projectId
                 end ;;
  execute (insertSession
             (Session.mk ident projectId "" sessionName SessionStatus.starting model
                         None (Some port) 0 0 0 0 "" t t None)) ;;;
  createBridgeServer port ident env ;;;
  pid <- try_catch (launchCli ident env) (launchFailureCleanup ident port) ;;
  execute (updateSession ident (setCliPid pid)) ;;;
  modify (fun w => set_activeSessions
            (<[ident := ActiveSession.mk projectId None]> (activeSessions w)) w) ;;;
  waitForConnect ident port env ;;;
  updateStatus ident SessionStatus.idle ;;;
  getById ident.

(** [kill(sessionId)] *)
Definition kill (sessionId : string) : M unit :=
  active <- gets (fun w => activeSessions w !! sessionId) ;;
  match active with
  | Some _ =>
      cliKill sessionId ;;;
      bridgeClose sessionId ;;;
      port <- gets (fun w => BridgeServer.port <$> bridges w !! sessionId) ;;
      match port with
      | Some p => releasePort p
      | None => ret tt
      end ;;;
      modify (fun w => set_activeSessions (delete sessionId (activeSessions w)) w)
  | None => ret tt
  end ;;;
  t <- now ;;
  execute (updateSession sessionId (setClosed t)) ;;;
  t' <- now ;;
  emit (ConduitEvent.mk session_closed sessionId (JObj []) t').

(** *** The port pool and the session table *)

(** The [ws_port] values of the sessions whose status is not terminal. *)
Definition livePorts (d : Database) : list Z :=
  omap (fun s => if SessionStatus.terminal (Session.status s) then None
                 else Session.ws_port s) (sessions d).

(** *** Messages to the subprocess *)

(** [bridge.send(message)] of [src/bridge/ws-server.ts]: the frame goes out
    when a client socket is attached and open, and is dropped (with a
    warning in the log) otherwise. *)
Definition bridgeSend (ident : string) (message : JsValue) : M unit :=
  modify (fun w =>
    set_bridges
      (alter (fun b =>
                if BridgeServer.connected b
                then BridgeServer.mk (BridgeServer.port b) (BridgeServer.closed b)
                       (BridgeServer.connected b)
                       (BridgeServer.sent b ++ [Ndjson.serializeNdjson message])%list
                else b)
             ident (bridges w)) w).

(** [bridge.isConnected()] *)
Definition isConnected (ident : string) : M bool :=
  gets (fun w => match bridges w !! ident with
                 | Some b => BridgeServer.connected b
                 | None => false
                 end).

(** [JSON.stringify] of an object literal *)
Definition stringifyObject (props : list (string * JsValue)) : string :=
  default "{}" (JsVal.stringify (JObj props)).

Definition userMessage (content : string) : list (string * JsValue) :=
  [("type", JStr "user");
   ("message", JObj [("role", JStr "user"); ("content", JStr content)])].

Definition sendMessage (sessionId content : string) : M unit :=
  active <- gets (fun w => activeSessions w !! sessionId) ;;
  match active with
  | None => throw (NotFoundError "Active session" sessionId)
  | Some _ =>
      connected <- isConnected sessionId ;;
      if negb connected
      then throw (ConflictError "Cannot send message: CLI is not connected to bridge")
      else
        bridgeSend sessionId (JObj (userMessage content)) ;;;
        updateStatus sessionId SessionStatus.active ;;;
        t <- now ;;
        execute (updateSession sessionId (setLastActive t)) ;;;
        storeMessage sessionId "outbound" "user" "" (stringifyObject (userMessage content))
  end.

Definition interrupt (sessionId : string) : M unit :=
  active <- gets (fun w => activeSessions w !! sessionId) ;;
  match active with
  | None => throw (NotFoundError "Active session" sessionId)
  | Some _ => bridgeSend sessionId (JObj [("type", JStr "interrupt")])
  end.

(** *** The other handlers installed by [create] *)

(** [!active.cliSessionId] *)
Definition noCliSessionId (a : ActiveSession.t) : bool :=
  match ActiveSession.cliSessionId a with
  | None | Some EmptyString => true
  | Some _ => false
  end.

(** The [system]/[init] handler; [session_id] is the field of the message,
    when it has one. *)
Definition onSystemInit (ident : string) (session_id : option string) : M unit :=
  let cliSessionId := default "" session_id in
  active <- gets (fun w => activeSessions w !! ident) ;;
  match active with
  | Some a =>
      if noCliSessionId a then
        execute (updateSession ident (setSessionId cliSessionId)) ;;;
        modify (fun w => set_activeSessions
                  (<[ident := ActiveSession.mk (ActiveSession.projectId a)
                                               (Some cliSessionId)]> (activeSessions w)) w)
      else ret tt
  | None => ret tt
  end ;;;
  updateStatus ident SessionStatus.active.

(** The [assistant] handler; the message is an object. *)
Definition onAssistant (ident : string) (data : list (string * JsValue)) : M unit :=
  storeMessage ident "inbound" "assistant" "" (stringifyObject data).

(** The [control_response] that answers a permission request. *)
Definition controlResponse (requestId : string)
    (decision : PermissionEngine.PermissionDecision) : JsValue :=
  JObj [("type", JStr "control_response");
        ("response",
         JObj [("subtype", JStr "can_use_tool_result");
               ("request_id", JStr requestId);
               ("result",
                JObj [("behavior", JStr (PermissionEngine.behavior decision));
                      ("updated_input",
                       default JUndefined (PermissionEngine.updated_input decision))])])].

(** The permission handler: the body of the async function; a [Throw] is
    the rejection of its promise. *)
Definition onPermissionRequest (ident projectId requestId toolName : string)
    (toolInput : PermissionEngine.ToolInput) : M unit :=
  decision <- PermissionEngine.evaluate ident projectId requestId toolName toolInput ;;
  bridgeSend ident (controlResponse requestId decision).

(** *** Queries *)

Definition getByIdOrThrow (ident : string) : M Session.t :=
  session <- getById ident ;;
  match session with
  | Some s => ret s
  | None => throw (NotFoundError "Session" ident)
  end.

Definition listByProject (projectId : string) : M (list Session.t) :=
  query (fun d =>
    Sql.order_by_desc (fun s => SInt (Session.created_at s))
      (List.filter (fun s => String.eqb (Session.project_id s) projectId) (sessions d))).

Definition listActive : M (list Session.t) :=
  query (fun d =>
    Sql.order_by_desc (fun s => SInt (Session.last_active_at s))
      (List.filter (fun s => negb (SessionStatus.terminal (Session.status s)))
                   (sessions d))).

(** [getMessages(sessionId, limit = 100, offset = 0)] *)
Definition getMessages (sessionId : string) (limit offset : option Z)
    : M (list Message.t) :=
  query (fun d =>
    Sql.limit_offset (default 100%Z limit) (default 0%Z offset)
      (Sql.order_by_asc (fun m => SInt (Message.timestamp m))
         (List.filter (fun m => String.eqb (Message.session_id m) sessionId)
                      (messages d)))).

Definition isActive (sessionId : string) : M bool :=
  gets (fun w => bool_decide (is_Some (activeSessions w !! sessionId))).

Definition activeCount : M nat :=
  gets (fun w => size (activeSessions w)).

(** *** Start-up and shutdown *)

(** [SET status = 'error', closed_at = $now] *)
Definition setOrphaned (t : Z) (s : Session.t) : Session.t :=
  let '(Session.mk i p sid n _ m pid port c ti to nt em ca la _) := s in
  Session.mk i p sid n SessionStatus.error m pid port c ti to nt em ca la (Some t).

(** [SELECT * FROM sessions WHERE status != 'closed'] *)
Definition selectOrphaned (d : Database) : list Session.t :=
  List.filter (fun s => negb (SessionStatus.eqb (Session.status s) SessionStatus.closed))
              (sessions d).

(** The loop of [cleanupOrphanedSessions].  The signals sent with
    [process.kill] leave the process; the pids they went to are returned
    in order. *)
Fixpoint cleanupLoop (orphaned : list Session.t) : M (list Z) :=
  match orphaned with
  | [] => ret []
  | session :: rest =>
      let signalled := match Session.cli_pid session with
                       | Some pid => if Z.eqb pid 0 then [] else [pid]
                       | None => []
                       end in
      t <- now ;;
      execute (updateSession (Session.id session) (setOrphaned t)) ;;;
      more <- cleanupLoop rest ;;
      ret (signalled ++ more)%list
  end.

Definition cleanupOrphanedSessions : M (list Z) :=
  orphaned <- query selectOrphaned ;;
  cleanupLoop orphaned.

(** The loop of [shutdownAll] over [ids], the array
    [Array.from(activeSessions.keys())]: the tracked ids in the order they
    were inserted, which the map of the world does not record. *)
Fixpoint killEach (ids : list string) : M unit :=
  match ids with
  | [] => ret tt
  | ident :: rest => kill ident ;;; killEach rest
  end.

End SessionManager.

(** ** The bridge's message handler ([src/bridge/ws-server.ts]) *)

Module WsServer.

(** The [message] handler of a connection, on the parser's buffer:
    [parser.feed(text.endsWith("\n") ? text : text + "\n")]. *)
Definition onMessage (buffer text : string) : list JsValue * string :=
  Ndjson.feed buffer (if Js.endsWith text Js.LF then text else text +:+ Js.str Js.LF).

(** The frames of one connection, in order, on its fresh parser. *)
Fixpoint onMessages (buffer : string) (frames : list string)
    : list JsValue * string :=
  match frames with
  | [] => ([], buffer)
  | text :: frames' =>
      let '(out, buffer') := onMessage buffer text in
      let '(out', buffer'') := onMessages buffer' frames' in
      ((out ++ out')%list, buffer'')
  end.

End WsServer.

(** ** The message router ([src/bridge/message-router.ts]) *)

Module MessageRouter.

(** [MessageRouterCallbacks]: every handler is optional. *)
Record MessageRouterCallbacks : Type := mkCallbacks {
  onSystemInit : option (string → JsValue → M unit);
  onAssistant : option (string → JsValue → M unit);
  onStreamEvent : option (string → JsValue → M unit);
  onResult : option (string → JsValue → M unit);
  onPermissionRequest : option (string → JsValue → JsValue → JsValue → M unit)
}.

(** [callbacks.handler?.(sessionId, data)] *)
Definition call (handler : option (string → JsValue → M unit))
    (sessionId : string) (data : JsValue) : M unit :=
  match handler with
  | Some f => f sessionId data
  | None => ret tt
  end.

Definition emitEvent (type : EventType) (sessionId : string) (data : JsValue) : M unit :=
  t <- now ;;
  emit (ConduitEvent.mk type sessionId data t).

Definition routeMessage (conduitSessionId : string) (message : JsValue)
    (callbacks : MessageRouterCallbacks) : M unit :=
  type <- lift (JsVal.field message "type") ;;
  if JsVal.is_str type "system" then
    (if JsVal.is_str (JsVal.field_opt message "subtype") "init"
     then call (onSystemInit callbacks) conduitSessionId message
     else ret tt) ;;;
    emitEvent session_message conduitSessionId message
  else if JsVal.is_str type "assistant" then
    call (onAssistant callbacks) conduitSessionId message ;;;
    emitEvent session_message conduitSessionId message
  else if JsVal.is_str type "stream_event" then
    call (onStreamEvent callbacks) conduitSessionId message ;;;
    emitEvent stream_event conduitSessionId message
  else if JsVal.is_str type "result" then
    call (onResult callbacks) conduitSessionId message ;;;
    emitEvent session_result conduitSessionId message
  else if JsVal.is_str type "control_request" then
    let request := JsVal.field_opt message "request" in
    if JsVal.is_str (JsVal.field_opt request "subtype") "can_use_tool" then
      let toolName := JsVal.coalesce (JsVal.field_opt request "tool_name") (JStr "unknown") in
      let toolInput := JsVal.coalesce (JsVal.field_opt request "tool_input") (JObj []) in
      match onPermissionRequest callbacks with
      | Some f => f conduitSessionId (JsVal.field_opt message "request_id") toolName toolInput
      | None => ret tt
      end
    else if JsVal.is_str (JsVal.field_opt request "subtype") "init" then
      call (onSystemInit callbacks) conduitSessionId message ;;;
      emitEvent session_message conduitSessionId message
    else emitEvent session_message conduitSessionId message
  else if JsVal.is_str type "tool_progress" then
    emitEvent stream_event conduitSessionId message
  else if JsVal.is_str type "keep_alive" then ret tt
  else emitEvent session_message conduitSessionId message.

End MessageRouter.

(** ** The external WebSocket endpoint ([handleExternalWebSocket]) *)

Module ExternalWs.

(** [mapToServerEvent(event)]; [None] is [null]. *)
Definition mapToServerEvent (event : ConduitEvent.t) : Completion (option JsValue) :=
  let data := ConduitEvent.data event in
  match ConduitEvent.type event with
  | session_message =>
      if JsVal.is_str (JsVal.field_opt data "type") "system"
         && JsVal.is_str (JsVal.field_opt data "subtype") "init"
      then Normal (Some (JObj [("event", JStr "system_init"); ("data", data)]))
      else if JsVal.is_str (JsVal.field_opt data "type") "assistant"
      then Normal (Some (JObj [("event", JStr "assistant"); ("data", data)]))
      else Normal None
  | stream_event => Normal (Some (JObj [("event", JStr "stream_event"); ("data", data)]))
  | session_result => Normal (Some (JObj [("event", JStr "result"); ("data", data)]))
  | session_status =>
      match JsVal.field data "status" with
      | Throw e => Throw e
      | Normal status =>
          Normal (Some (JObj [("event", JStr "session_status"); ("status", status)]))
      end
  | session_error =>
      match JsVal.field data "message" with
      | Throw e => Throw e
      | Normal m =>
          Normal (Some (JObj [("event", JStr "error");
                              ("message", JsVal.coalesce m (JStr "Session error"))]))
      end
  | session_created | session_closed => Normal None
  end.

(** The subscriber of [handleExternalWebSocket]: the text handed to
    [ws.send] for an event, if any; a failure is caught and dropped. *)
Definition forwarded (event : ConduitEvent.t) : option string :=
  match mapToServerEvent event with
  | Normal (Some serverEvent) => JsVal.stringify serverEvent
  | Normal None | Throw _ => None
  end.

End ExternalWs.

(** ** The event bus ([src/core/event-bus.ts]) *)

Module EventBus.

(** A subscription; the handler is a closure of the subscriber, known
    here by the subscription it belongs to. *)
Record Subscription : Type := mkSubscription {
  id : string;
  sessionId : option string
}.

(** [subCounter] and [subscriptions], a Map in insertion order. *)
Record t : Type := mk {
  subCounter : nat;
  subscriptions : list Subscription
}.

Definition initial : t := mk 0 [].

(** [subscriptions.set(id, sub)] *)
Fixpoint map_set (sub : Subscription) (l : list Subscription) : list Subscription :=
  match l with
  | [] => [sub]
  | x :: l' => if String.eqb (id x) (id sub) then sub :: l' else x :: map_set sub l'
  end.

(** [subscribe(handler, sessionId)]: the id of the new subscription, which
    the returned closure keeps, and the bus afterwards. *)
Definition subscribe (session : option string) (bus : t) : string * t :=
  let n := S (subCounter bus) in
  let ident := "sub_" +:+ pretty n in
  (ident, mk n (map_set (mkSubscription ident session) (subscriptions bus))).

(** The closure [subscribe] returns: [subscriptions.delete(id)]. *)
Definition unsubscribe (ident : string) (bus : t) : t :=
  mk (subCounter bus)
     (List.filter (fun sub => negb (String.eqb (id sub) ident)) (subscriptions bus)).

Definition clear (bus : t) : t := mk (subCounter bus) [].

Definition subscriberCount (bus : t) : nat := length (subscriptions bus).

(** The test at the head of the loop of [emit]:
    [sub.sessionId && sub.sessionId !== event.session_id] skips. *)
Definition receives (event : ConduitEvent.t) (sub : Subscription) : bool :=
  match sessionId sub with
  | None | Some EmptyString => true
  | Some s => String.eqb s (ConduitEvent.session_id event)
  end.

(** [emit(event)]: the subscriptions whose handler is called, in order.
    Each call sits in its own [try]/[catch], so a handler that throws has
    no influence on the calls that follow.  A handler that subscribes or
    unsubscribes during the delivery is outside this model. *)
Definition emit (event : ConduitEvent.t) (bus : t) : list string :=
  id <$> List.filter (receives event) (subscriptions bus).

End EventBus.

(** * Properties *)

(** A decidable statement settled by evaluating its decision procedure. *)
Ltac by_evaluation :=
  match goal with |- ?P => refine (bool_decide_unpack P _); vm_compute; exact I end.

(** ** The glob matcher *)

Section MatchGlob.
Import Js PermissionEngine.

(** The regular expression a literal pattern compiles to. *)
Definition lits (p : string) : list term :=
  map (fun c => TAtom (Lit c) One true) (list_ascii_of_string p).

Lemma parse_unescaped (c : ascii) acc st r :
  is_escaped c = false → c ≠ "*"%char → c ≠ "?"%char →
  parse acc st (String c r) = parse (TAtom (Lit c) One true :: acc) PAtom r.
Proof.
  intros He Hs Hq.
  destruct c as [[|] [|] [|] [|] [|] [|] [|] [|]];
    first [ reflexivity | discriminate He | congruence ].
Qed.

Lemma parse_escaped (c : ascii) acc st r :
  is_escaped c = true →
  parse acc st (String backslash (String c r))
  = parse (TAtom (Lit c) One true :: acc) PAtom r.
Proof.
  intros He.
  destruct c as [[|] [|] [|] [|] [|] [|] [|] [|]];
    first [ reflexivity | discriminate He ].
Qed.

Lemma escaped_not_star (c : ascii) : is_escaped c = true → Ascii.eqb c "*" = false.
Proof.
  destruct c as [[|] [|] [|] [|] [|] [|] [|] [|]]; first [ reflexivity | discriminate ].
Qed.

Lemma append_String (c : ascii) (s t : string) :
  String c s +:+ t = String c (s +:+ t).
Proof. reflexivity. Qed.

Lemma append_Empty (t : string) : EmptyString +:+ t = t.
Proof. reflexivity. Qed.

Lemma parse_literal p : ∀ acc st,
  (∀ c, c ∈ list_ascii_of_string p → c ≠ "*"%char ∧ c ≠ "?"%char) →
  parse acc st (stars (escape p) +:+ "$") = Compiled (rev acc ++ lits p ++ [TEnd]).
Proof.
  induction p as [|c p IH]; intros acc st Hp.
  - reflexivity.
  - assert (Hc : c ≠ "*"%char ∧ c ≠ "?"%char) by (apply Hp; cbn; left).
    assert (Hp' : ∀ x, x ∈ list_ascii_of_string p → x ≠ "*"%char ∧ x ≠ "?"%char)
      by (intros x Hx; apply Hp; cbn; by right).
    destruct Hc as [Hs Hq].
    cbn [escape]. destruct (is_escaped c) eqn:He.
    + cbn [stars]. replace (Ascii.eqb backslash "*") with false by reflexivity.
      rewrite (escaped_not_star c He). rewrite !append_String.
      rewrite parse_escaped by done. rewrite IH by done.
      cbn. by rewrite <- app_assoc.
    + cbn [stars]. replace (Ascii.eqb c "*") with false
        by (symmetry; by apply Ascii.eqb_neq).
      rewrite append_String. rewrite parse_unescaped by done. rewrite IH by done.
      cbn. by rewrite <- app_assoc.
Qed.

Lemma match_here_literal p : ∀ bos v,
  match_here (lits p ++ [TEnd]) bos v = String.eqb p v.
Proof.
  induction p as [|c p IH]; intros bos v.
  - destruct v; reflexivity.
  - destruct v as [|c' v]; [reflexivity|].
    cbn. by rewrite IH.
Qed.

Lemma match_from_begin ts s : match_from (TBegin :: ts) false s = false.
Proof. induction s as [|c s IH]; cbn; [done|]. exact IH. Qed.

Lemma test_anchored ts v :
  test (TBegin :: ts) v = match_here ts true v.
Proof.
  unfold test. destruct v as [|c v]; cbn.
  - by rewrite orb_false_r.
  - by rewrite match_from_begin, orb_false_r.
Qed.

(** A pattern without [*] and [?] that is not a prefix pattern matches
    exactly the value equal to it. *)
Lemma matchGlob_literal (pattern value : string) :
  prefixPattern pattern = None →
  (∀ c, c ∈ list_ascii_of_string pattern → c ≠ "*"%char ∧ c ≠ "?"%char) →
  matchGlob pattern value = Normal (String.eqb pattern value).
Proof.
  intros Hpre Hp. unfold matchGlob, globTest, globSource, RegExp. rewrite Hpre.
  rewrite append_String, append_Empty. cbn [parse].
  replace (Ascii.eqb "^" "^") with true by reflexivity.
  rewrite parse_literal by done. cbn [rev app].
  by rewrite test_anchored, match_here_literal.
Qed.

End MatchGlob.

Section PrefixPattern.
Import Js PermissionEngine.

(** The suffix of a pattern after its first colon, and the portion before
    it, in the words of the specification. *)
Fixpoint afterFirstColon (s : string) : option string :=
  match s with
  | EmptyString => None
  | String c s' => if Ascii.eqb c ":" then Some s' else afterFirstColon s'
  end.

Fixpoint beforeFirstColon (s : string) : string :=
  match s with
  | EmptyString => EmptyString
  | String c s' => if Ascii.eqb c ":" then EmptyString
                   else String c (beforeFirstColon s')
  end.

Lemma split_first_colon s :
  split s ":" = beforeFirstColon s ::
                match afterFirstColon s with
                | Some r => split r ":"
                | None => []
                end.
Proof.
  induction s as [|c s IH]; [reflexivity|].
  cbn. destruct (Ascii.eqb c ":"); [reflexivity|].
  by rewrite IH.
Qed.

Lemma includes_colon s :
  includes s ":" = bool_decide (is_Some (afterFirstColon s)).
Proof.
  induction s as [|c s IH]; [reflexivity|].
  change (includes (String c s) ":")
    with ((if ascii_dec ":" c then String.prefix "" s else false) || includes s ":").
  cbn [afterFirstColon].
  destruct (ascii_dec ":" c) as [<-|Hne].
  - replace (String.prefix "" s) with true by (by destruct s).
    symmetry. apply bool_decide_eq_true_2. cbn. eauto.
  - replace (Ascii.eqb c ":") with false
      by (symmetry; apply Ascii.eqb_neq; congruence).
    exact IH.
Qed.

(** What the code does: the special case applies exactly when the text
    between the first colon and the second colon (or the end of the
    pattern) is [*]. *)
Lemma prefixPattern_spec pattern :
  prefixPattern pattern =
  match afterFirstColon pattern with
  | Some r => if String.eqb (beforeFirstColon r) "*"
              then Some (beforeFirstColon pattern) else None
  | None => None
  end.
Proof.
  unfold prefixPattern, split_limit. rewrite includes_colon, split_first_colon.
  destruct (afterFirstColon pattern) as [r|]; [|reflexivity].
  rewrite bool_decide_eq_true_2 by eauto.
  rewrite (split_first_colon r). reflexivity.
Qed.

(** The part of C5 that the code satisfies: when the suffix after the
    first colon is exactly [*], the matcher tests whether the value
    starts with the portion before that colon. *)
Lemma matchGlob_prefix (pattern value : string) :
  afterFirstColon pattern = Some "*" →
  matchGlob pattern value = Normal (startsWith value (beforeFirstColon pattern)).
Proof.
  intros H. unfold matchGlob. rewrite prefixPattern_spec, H. reflexivity.
Qed.

Lemma matchGlob_prefix_witness :
  matchGlob "git:*" "git commit -m x" = Normal true
  ∧ matchGlob "git:*" "digits are fun" = Normal false.
Proof.
  split; rewrite matchGlob_prefix by reflexivity; reflexivity.
Defined.

(** C5, evaluated where the code departs from it.  The suffix of
    [a:*:b] after its first colon is [*:b], not [*], so the claim sends the
    pattern to ordinary anchored glob matching, under which the value
    [a] does not match; [split(":", 2)] drops the text after the second
    colon, the code takes the pattern for a prefix pattern, and the value
    [a] matches. *)
Theorem matchGlob_second_colon_is_dropped :
  afterFirstColon "a:*:b" = Some "*:b"
  ∧ prefixPattern "a:*:b" = Some "a"
  ∧ matchGlob "a:*:b" "a" = Normal true
  ∧ globTest "a:*:b" "a" = Normal false
  ∧ globTest "a:*:b" "a:x:b" = Normal true
  ∧ matchGlob "a:*:b" "a:x:b" = Normal true
  ∧ matchGlob "a:*:b" "abc" = Normal true.
Proof. repeat split; reflexivity. Qed.

(** C6, evaluated where the code departs from it.  The character class
    of the escaping step has no [?], so in the pattern [file?] the [?] is
    a quantifier: the pattern matches [fil] and [file] and does not match
    the value [file?].  A leading [?] makes the regular expression
    invalid.  The wildcard [.] of [.*] does not match a line terminator,
    so [*] does not match a run that contains one. *)
Theorem matchGlob_question_mark_not_escaped :
  prefixPattern "file?" = None
  ∧ escape "file?" = "file?"
  ∧ matchGlob "file?" "file?" = Normal false
  ∧ matchGlob "file?" "fil" = Normal true
  ∧ matchGlob "file?" "file" = Normal true
  ∧ matchGlob "?x" "?x"
    = Throw (SyntaxError "Invalid regular expression: Nothing to repeat")
  ∧ matchGlob "rm -rf *" ("rm -rf /" +:+ str LF +:+ "ls") = Normal false.
Proof. repeat split; reflexivity. Qed.

End PrefixPattern.

(** ** Rule update *)

Section UpdateRule.
Import PermissionEngine.


























End UpdateRule.

(** ** Steps of the monad on the store *)

Section StoreSteps.

Definition uninitialized : JsError :=
  Error "Database not initialized. Call initDatabase() first.".


Lemma query_ok {A} (q : Database → A) w d :
  db w = Some d → query q w = (Normal (q d), w).
Proof. intros H. unfold query, bind, getDb, ret. by rewrite H. Qed.


Lemma execute_ok stmt w d d' :
  db w = Some d → stmt d = Normal d' →
  execute stmt w = (Normal tt, set_db (Some d') w).
Proof.
  intros H Hs. unfold execute, bind, getDb, lift, modify. by rewrite H, Hs.
Qed.

Lemma execute_throw stmt w d e :
  db w = Some d → stmt d = Throw e → execute stmt w = (Throw e, w).
Proof.
  intros H Hs. unfold execute, bind, getDb, lift. by rewrite H, Hs.
Qed.

Lemma execute_uninit stmt w :
  db w = None → execute stmt w = (Throw uninitialized, w).
Proof. intros H. unfold execute, bind, getDb. by rewrite H. Qed.

End StoreSteps.

Section UpdateRuleFrame.
Import PermissionEngine.



End UpdateRuleFrame.

(** ** Sample data: the scenarios of the specification *)

Section Samples.

Definition sampleConfig : Config := mkConfig "claude" 9000 9100 20.

Definition sampleSession : Session.t :=
  Session.mk "S" "P" "" "Swift Spark" SessionStatus.idle "" None (Some 9000%Z)
             0 0 0 0 "" 0 0 None.

(** The rules of scenario S1. *)
Definition globalAllowBash : PermissionRule.t :=
  PermissionRule.mk "rule-global" None "Bash" (Some "") "allow" (SInt 0) 0.

Definition projectDenyRm : PermissionRule.t :=
  PermissionRule.mk "rule-project" (Some "P") "Bash" (Some "rm -rf *") "deny" (SInt 10) 0.

Definition sampleDatabase : Database :=
  mkDatabase ["P"] [globalAllowBash; projectDenyRm] [sampleSession] [] [].

Definition sampleWorld : World :=
  mkWorld sampleConfig (Some sampleDatabase) 0 1000 ∅ ∅ ∅ ∅ [].

(** The world before [initDatabase()]. *)
Definition coldWorld : World :=
  mkWorld sampleConfig None 0 1000 ∅ ∅ ∅ ∅ [].

End Samples.

Section UpdateRuleExamples.
Import PermissionEngine.

(** The payload of the unit test: an injected [id] beside two columns. *)
Definition samplePayload : list (string * JsValue) :=
  [("tool_name", JStr "Read"); ("id", JStr "hacked-id");
   ("priority", JNum (Number.of_Z 99))].


(** The update of the unit test: the injected [id] is ignored, and the
    number bound for [priority] is stored as an integer. *)
Example updateRule_ignores_injected_id :
  updateRule "rule-project" samplePayload sampleWorld
  = (Normal (Some (PermissionRule.mk "rule-project" (Some "P") "Read"
                     (Some "rm -rf *") "deny" (SInt 99) 0)),
     set_db (Some (mkDatabase ["P"]
                     [globalAllowBash;
                      PermissionRule.mk "rule-project" (Some "P") "Read"
                        (Some "rm -rf *") "deny" (SInt 99) 0]
                     [sampleSession] [] []))
            sampleWorld).
Proof. reflexivity. Qed.

(** Without the test against [ALLOWED_COLUMNS] the statement would assign
    whatever column the payload names: run on [project_id], it moves a
    global rule into a project; and a payload key [id] would take the
    place of the rule id in [params], so that the statement looks for the
    rule under the injected id. *)
Example statement_assigns_any_column :
  updateRuleStmt ["project_id"]
    [(param "id", JStr "rule-global"); (param "project_id", JStr "P")] sampleDatabase
  = Normal (mkDatabase ["P"]
              [PermissionRule.mk "rule-global" (Some "P") "Bash" (Some "") "allow"
                                 (SInt 0) 0;
               projectDenyRm]
              [sampleSession] [] [])
  ∧ JsVal.set_prop (param "id") (JStr "hacked-id") [(param "id", JStr "rule-project")]
    = [(param "id", JStr "hacked-id")].
Proof. split; reflexivity. Qed.

(** Stored forms.  A number assigned to a TEXT column is stored as the
    text of a REAL; [priority] keeps a number with a fraction as a REAL
    and converts text that is a number. *)
Example updateRule_stored_forms :
  (updateRule "rule-project"
     [("tool_name", JNum (Number.of_Z 5)); ("priority", JNum (Number.mk false "15" 1))]
     sampleWorld).1
  = Normal (Some (PermissionRule.mk "rule-project" (Some "P") "5.0"
                    (Some "rm -rf *") "deny" (SReal (Number.mk false "15" 1)) 0))
  ∧ (updateRule "rule-project" [("priority", JStr " 7 "); ("rule_content", JNull)]
                sampleWorld).1
    = Normal (Some (PermissionRule.mk "rule-project" (Some "P") "Bash"
                      None "deny" (SInt 7) 0))
  ∧ (updateRule "rule-project" [("behavior", JNull)] sampleWorld)
    = (Throw (SqliteError "SQLITE_CONSTRAINT_NOTNULL"), sampleWorld)
  ∧ (updateRule "no-such-rule" [("behavior", JNull)] sampleWorld)
    = (Normal None, sampleWorld)
  ∧ (updateRule "rule-project" [("behavior", JBool true)] sampleWorld).1
    = Throw (TypeError "SQLite3 can only bind numbers, strings, bigints, buffers, and null").
Proof. repeat split; reflexivity. Qed.


End UpdateRuleExamples.

(** ** ORDER BY *)

Section OrderBy.

Lemma Qle_bool_total x y : Qle_bool x y = true ∨ Qle_bool y x = true.
Proof.
  rewrite !Qle_bool_iff. destruct (Qlt_le_dec x y) as [H|H]; [left|by right].
  by apply Qlt_le_weak.
Qed.

Lemma sql_leb_total a b : Sql.leb a b = true ∨ Sql.leb b a = true.
Proof.
  destruct a as [|x|x|s], b as [|y|y|u]; cbn; auto using Qle_bool_total.
  apply String.leb_total.
Qed.

Lemma sql_leb_refl a : Sql.leb a a = true.
Proof. by destruct (sql_leb_total a a). Qed.

Lemma sql_leb_trans a b c :
  Sql.leb a b = true → Sql.leb b c = true → Sql.leb a c = true.
Proof.
  destruct a as [|x|x|s], b as [|y|y|u], c as [|z|z|v]; cbn; try done;
    try (rewrite !Qle_bool_iff; apply Qle_trans).
  intros H1 H2. apply Is_true_true.
  apply Is_true_true in H1, H2.
  exact (transitivity (R := String.le) H1 H2).
Qed.

Context {A : Type} (key : A → SqlValue).

(** [a] may come before [b] in descending order. *)
Definition desc (a b : A) : Prop := Sql.leb (key b) (key a) = true.

Lemma elem_of_insert_desc r l x :
  x ∈ Sql.insert_desc key r l ↔ x = r ∨ x ∈ l.
Proof.
  induction l as [|y l IH]; cbn.
  - rewrite list_elem_of_singleton, elem_of_nil. tauto.
  - destruct (Sql.leb (key y) (key r)).
    + rewrite !elem_of_cons. tauto.
    + rewrite !elem_of_cons, IH. tauto.
Qed.

Lemma elem_of_order_by_desc l x : x ∈ Sql.order_by_desc key l ↔ x ∈ l.
Proof.
  induction l as [|y l IH]; cbn; [done|].
  rewrite elem_of_insert_desc, elem_of_cons, IH. tauto.
Qed.

Lemma insert_desc_sorted r l :
  StronglySorted desc l → StronglySorted desc (Sql.insert_desc key r l).
Proof.
  induction l as [|y l IH]; intros Hs; cbn.
  - repeat constructor.
  - apply StronglySorted_cons in Hs as [Hy Hl].
    destruct (Sql.leb (key y) (key r)) eqn:Hle.
    + apply StronglySorted_cons. split; [|by apply StronglySorted_cons].
      constructor; [done|].
      eapply Forall_impl; [exact Hy|]. intros z Hz. unfold desc in *.
      by eapply sql_leb_trans.
    + apply StronglySorted_cons. split; [|by apply IH].
      apply Forall_forall. intros z Hz. apply elem_of_insert_desc in Hz as [->|Hz].
      * unfold desc. destruct (sql_leb_total (key r) (key y)); congruence.
      * by eapply Forall_forall in Hy.
Qed.

(** The result of [ORDER BY key DESC] is in descending order of [key]. *)
Lemma order_by_desc_sorted l : StronglySorted desc (Sql.order_by_desc key l).
Proof.
  induction l as [|y l IH]; cbn; [constructor|]. by apply insert_desc_sorted.
Qed.

End OrderBy.

(** ** Permission evaluation *)

Section Evaluate.
Import PermissionEngine.

Context (toolName : string) (toolInput : ToolInput).

(** A rule matches the request. *)
Definition matching (r : PermissionRule.t) : Prop :=
  matchesRule r toolName toolInput = Normal true.

(** The rules of one scope (a project, or global) and one behavior. *)
Definition inGroup (d : Database) (scope : option string) (behavior : string)
    (r : PermissionRule.t) : Prop :=
  r ∈ permission_rules d
  ∧ PermissionRule.project_id r = scope
  ∧ PermissionRule.behavior r = behavior.


Definition noMatch (d : Database) (scope : option string) (behavior : string) : Prop :=
  ∀ r, inGroup d scope behavior r → ¬ matching r.

(** [r] is a matching rule of the group and no matching rule of the group
    has a higher priority. *)
Definition bestMatch (d : Database) (scope : option string) (behavior : string)
    (r : PermissionRule.t) : Prop :=
  inGroup d scope behavior r ∧ matching r
  ∧ ∀ r', inGroup d scope behavior r' → matching r' →
          Sql.leb (PermissionRule.priority r') (PermissionRule.priority r) = true.

(** The decision prescribed by trying the groups of [order] one after the
    other: behavior, source and rule id. *)
Inductive DecidedIn (d : Database) (order : list (option string * string))
    : string → string → option string → Prop :=
| decided_by_rule k scope behavior r :
    order !! k = Some (scope, behavior) →
    bestMatch d scope behavior r →
    (∀ j scope' behavior', j < k →
       order !! j = Some (scope', behavior') →
       noMatch d scope' behavior') →
    DecidedIn d order behavior "auto_rule" (Some (PermissionRule.id r))
| decided_by_default :
    (∀ scope behavior, (scope, behavior) ∈ order → noMatch d scope behavior) →
    DecidedIn d order "allow" "auto_default" None.

(** The scope a call of [findMatchingRule] selects. *)
Definition effective (scope : option string) : option string :=
  match scope with
  | Some EmptyString => None
  | _ => scope
  end.

Definition allNormal (d : Database) : Prop :=
  ∀ r, r ∈ permission_rules d → is_normal (matchesRule r toolName toolInput) = true.

Lemma firstMatch_prefix rules : ∀ r,
  firstMatch rules toolName toolInput = Normal (Some r) →
  ∃ l1 l2, rules = l1 ++ r :: l2 ∧ matching r ∧ ∀ x, x ∈ l1 → ¬ matching x.
Proof.
  induction rules as [|x rules IH]; intros r H; simplify_eq/=.
  destruct (matchesRule x toolName toolInput) as [[|]|] eqn:Hx; simplify_eq/=.
  - exists [], rules. split; [done|]. split; [done|]. intros y Hy. by apply elem_of_nil in Hy.
  - destruct (IH r H) as (l1 & l2 & -> & Hr & Hl1).
    exists (x :: l1), l2. split; [done|]. split; [done|].
    intros y Hy. apply elem_of_cons in Hy as [->|Hy]; [|by apply Hl1].
    unfold matching. by rewrite Hx.
Qed.

Lemma firstMatch_none rules :
  firstMatch rules toolName toolInput = Normal None →
  ∀ x, x ∈ rules → ¬ matching x.
Proof.
  induction rules as [|x rules IH]; intros H y Hy; [by apply elem_of_nil in Hy|].
  simplify_eq/=.
  destruct (matchesRule x toolName toolInput) as [[|]|] eqn:Hx; simplify_eq/=.
  apply elem_of_cons in Hy as [->|Hy]; [|by apply IH].
  unfold matching. by rewrite Hx.
Qed.

Lemma firstMatch_normal rules :
  (∀ r, r ∈ rules → is_normal (matchesRule r toolName toolInput) = true) →
  ∃ o, firstMatch rules toolName toolInput = Normal o.
Proof.
  induction rules as [|x rules IH]; intros H; cbn; [eauto|].
  pose proof (H x (list_elem_of_here _ _)) as Hx.
  destruct (matchesRule x toolName toolInput) as [[|]|]; [eauto| |done].
  apply IH. intros r Hr. apply H. by right.
Qed.

(** The rows a call of [findMatchingRule] reads, in the order it tries
    them. *)
Definition selected (scope : option string) (behavior : string) (d : Database)
    : list PermissionRule.t :=
  match scope with
  | None | Some EmptyString => selectGlobalRules behavior d
  | Some pid => selectProjectRules pid behavior d
  end.

Lemma elem_of_selected scope behavior d r :
  r ∈ selected scope behavior d ↔ inGroup d (effective scope) behavior r.
Proof.
  unfold inGroup, selected, selectGlobalRules, selectProjectRules.
  destruct scope as [[|c s]|]; cbn;
    rewrite elem_of_order_by_desc, list_elem_of_filter; tauto.
Qed.

Lemma selected_sorted scope behavior d :
  StronglySorted (desc PermissionRule.priority) (selected scope behavior d).
Proof.
  unfold selected, selectGlobalRules, selectProjectRules.
  destruct scope as [[|c s]|]; apply order_by_desc_sorted.
Qed.

Lemma findMatchingRule_run scope behavior w d :
  db w = Some d →
  findMatchingRule scope toolName toolInput behavior w
  = (firstMatch (selected scope behavior d) toolName toolInput, w).
Proof.
  intros Hdb. unfold findMatchingRule, selected, bind, lift.
  destruct scope as [[|c s]|]; by rewrite (query_ok _ w d Hdb).
Qed.

(** One step of the evaluation: the first rule of the group in priority
    order that matches, or none when no rule of the group matches. *)
Lemma findMatchingRule_best scope behavior w d :
  db w = Some d → allNormal d →
  ∃ o, findMatchingRule scope toolName toolInput behavior w = (Normal o, w)
       ∧ match o with
         | Some r => bestMatch d (effective scope) behavior r
         | None => noMatch d (effective scope) behavior
         end.
Proof.
  intros Hdb Hn. rewrite (findMatchingRule_run _ _ w d Hdb).
  destruct (firstMatch_normal (selected scope behavior d)) as [o Ho].
  { intros r Hr. apply Hn. by apply elem_of_selected in Hr as [? _]. }
  exists o. split; [by rewrite Ho|].
  destruct o as [r|].
  - apply firstMatch_prefix in Ho as (l1 & l2 & Hl & Hr & Hl1).
    pose proof (selected_sorted scope behavior d) as Hs. rewrite Hl in Hs.
    assert (Hin : r ∈ selected scope behavior d) by (rewrite Hl; set_solver).
    split; [by apply elem_of_selected|]. split; [done|].
    intros r' Hr' Hm. apply elem_of_selected in Hr'. rewrite Hl in Hr'.
    apply elem_of_app in Hr' as [Hr'|Hr']; [by destruct (Hl1 r' Hr')|].
    apply elem_of_cons in Hr' as [->|Hr']; [apply sql_leb_refl|].
    apply StronglySorted_app in Hs as (_ & _ & Hs).
    apply StronglySorted_cons in Hs as [Hs _].
    by eapply Forall_forall in Hs.
  - intros r Hr. apply elem_of_selected in Hr. by eapply firstMatch_none.
Qed.

(** The audit row of a decision. *)
Definition auditRow (w : World) (sessionId requestId : string)
    (decision source : string) (ruleId : option string) : PermissionLogEntry.t :=
  PermissionLogEntry.mk (uuid_of (uuid_counter w)) sessionId requestId toolName
    (stringifyInput toolInput) decision source ruleId "system" (clock w).

(** The world after exactly one audit row was appended. *)
Definition logged (w : World) (d : Database) (e : PermissionLogEntry.t) : World :=
  set_uuid_counter (S (uuid_counter w))
    (set_db (Some (mkDatabase (projects d) (permission_rules d) (sessions d)
                              (messages d) (permission_log d ++ [e])%list)) w).

Lemma logDecision_run w d sessionId requestId decision source ruleId :
  db w = Some d →
  sessionId ∈ Session.id <$> sessions d →
  (source = "auto_rule" ∨ source = "auto_default") →
  match ruleId with
  | Some rid => rid ∈ PermissionRule.id <$> permission_rules d
  | None => True
  end →
  logDecision sessionId requestId toolName toolInput decision source ruleId w
  = (Normal tt, logged w d (auditRow w sessionId requestId decision source ruleId)).
Proof.
  intros Hdb Hs Hsrc Hr. unfold logDecision, bind at 1, generateId.
  unfold bind at 1, now, gets.
  erewrite execute_ok; [reflexivity|by destruct w|].
  unfold insertLog. cbn [PermissionLogEntry.session_id PermissionLogEntry.rule_id].
  rewrite bool_decide_eq_true_2 by done.
  assert (Hby : (if String.eqb source "auto_rule" || String.eqb source "auto_default"
                 then "system" else source) = "system") by (by destruct Hsrc as [-> | ->]).
  rewrite Hby. unfold auditRow.
  destruct ruleId as [rid|]; [|done].
  by rewrite bool_decide_eq_true_2 by done.
Qed.

Lemma bestMatch_id d scope behavior r :
  bestMatch d scope behavior r →
  PermissionRule.id r ∈ PermissionRule.id <$> permission_rules d.
Proof. intros ((Hin & _) & _). by apply list_elem_of_fmap_2. Qed.

End Evaluate.

Section EvaluateOrder.
Import PermissionEngine.

Context (toolName : string) (toolInput : ToolInput).

(** The groups in the order the code reads them. *)
Definition codeOrder (projectId : string) : list (option string * string) :=
  [(effective (Some projectId), "deny"); (None, "deny");
   (effective (Some projectId), "allow"); (None, "allow")].

Ltac earlier_groups :=
  let j := fresh "j" in
  let Hj := fresh "Hj" in
  intros j ? ? Hj ?;
  do 4 (try (destruct j as [|j]; [simplify_eq/=; try lia; try done|]));
  simplify_eq/=; try lia.

(** [evaluate] run on an initialised store: four reads, one audit row. *)
Lemma evaluate_run w d sessionId projectId requestId :
  db w = Some d →
  sessionId ∈ Session.id <$> sessions d →
  allNormal toolName toolInput d →
  ∃ beh src rid,
    DecidedIn toolName toolInput d (codeOrder projectId) beh src rid
    ∧ evaluate sessionId projectId requestId toolName toolInput w
      = (Normal (mkDecision beh None),
         logged w d (auditRow toolName toolInput w sessionId requestId beh src rid)).
Proof.
  intros Hdb Hs Hn.
  destruct (findMatchingRule_best toolName toolInput (Some projectId) "deny" w d Hdb Hn)
    as (o1 & H1 & B1).
  destruct (findMatchingRule_best toolName toolInput None "deny" w d Hdb Hn)
    as (o2 & H2 & B2).
  destruct (findMatchingRule_best toolName toolInput (Some projectId) "allow" w d Hdb Hn)
    as (o3 & H3 & B3).
  destruct (findMatchingRule_best toolName toolInput None "allow" w d Hdb Hn)
    as (o4 & H4 & B4).
  unfold evaluate. unfold bind at 1. rewrite H1.
  destruct o1 as [r|].
  { exists "deny", "auto_rule", (Some (PermissionRule.id r)). split.
    - eapply (decided_by_rule _ _ _ _ 0); [reflexivity|exact B1|earlier_groups].
    - unfold bind at 1. erewrite logDecision_run; eauto using bestMatch_id. }
  unfold bind at 1. rewrite H2.
  destruct o2 as [r|].
  { exists "deny", "auto_rule", (Some (PermissionRule.id r)). split.
    - eapply (decided_by_rule _ _ _ _ 1); [reflexivity|exact B2|earlier_groups].
    - unfold bind at 1. erewrite logDecision_run; eauto using bestMatch_id. }
  unfold bind at 1. rewrite H3.
  destruct o3 as [r|].
  { exists "allow", "auto_rule", (Some (PermissionRule.id r)). split.
    - eapply (decided_by_rule _ _ _ _ 2); [reflexivity|exact B3|earlier_groups].
    - unfold bind at 1. erewrite logDecision_run; eauto using bestMatch_id. }
  unfold bind at 1. rewrite H4.
  destruct o4 as [r|].
  { exists "allow", "auto_rule", (Some (PermissionRule.id r)). split.
    - eapply (decided_by_rule _ _ _ _ 3); [reflexivity|exact B4|earlier_groups].
    - unfold bind at 1. erewrite logDecision_run; eauto using bestMatch_id. }
  exists "allow", "auto_default", None. split.
  - apply decided_by_default. intros scope beh Hin.
    unfold codeOrder in Hin. rewrite !elem_of_cons, elem_of_nil in Hin.
    destruct Hin as [?|[?|[?|[?|[]]]]]; by simplify_eq.
  - unfold bind at 1. erewrite logDecision_run; eauto.
Qed.


End EvaluateOrder.

Section EvaluateOutcome.
Import PermissionEngine.

Context (toolName : string) (toolInput : ToolInput).






Ltac earlier_groups :=
  let j := fresh "j" in
  let Hj := fresh "Hj" in
  intros j ? ? Hj ?;
  do 4 (try (destruct j as [|j]; [simplify_eq/=; try lia; try done|]));
  simplify_eq/=; try lia.


End EvaluateOutcome.

Section EvaluateClaims.
Import PermissionEngine.


(** Whether [matchGlob] throws depends on the pattern alone. *)
Lemma matchGlob_normal (pattern value value' : string) :
  is_normal (matchGlob pattern value) = is_normal (matchGlob pattern value').
Proof.
  unfold matchGlob, globTest. destruct (prefixPattern pattern); [done|].
  by destruct (Js.RegExp (globSource pattern)).
Qed.

(** A rule whose pattern compiles never makes [matchesRule] throw. *)
Lemma matchesRule_normal (r : PermissionRule.t) toolName toolInput :
  (∀ p, PermissionRule.rule_content r = Some p → is_normal (matchGlob p "") = true) →
  is_normal (matchesRule r toolName toolInput) = true.
Proof.
  intros Hp. unfold matchesRule.
  destruct (_ && _); [done|].
  destruct (PermissionRule.rule_content r) as [[|c p]|]; [done| |done].
  specialize (Hp _ eq_refl).
  repeat (destruct (_ && _)); by rewrite (matchGlob_normal _ _ "").
Qed.

Lemma sampleDatabase_allNormal toolName toolInput :
  allNormal toolName toolInput sampleDatabase.
Proof.
  intros r Hr. cbn in Hr. rewrite !elem_of_cons, elem_of_nil in Hr.
  apply matchesRule_normal. intros p Hp.
  destruct Hr as [->|[->|[]]]; by simplify_eq/=.
Qed.


(** Scenario S1: project deny beats global allow; one new audit row. *)
Example evaluate_S1 :
  evaluate "S" "P" "req-1" "Bash" [("command", JStr "rm -rf /tmp/x")] sampleWorld
  = (Normal (mkDecision "deny" None),
     logged sampleWorld sampleDatabase
       (PermissionLogEntry.mk "uuid-0" "S" "req-1" "Bash"
          ("{" +:+ JsVal.quote "command" +:+ ":"
           +:+ JsVal.quote "rm -rf /tmp/x" +:+ "}")
          "deny" "auto_rule" (Some "rule-project") "system" 1000)).
Proof. reflexivity. Qed.

(** Scenario S2: a prefix pattern that does not match falls through to
    the default, which the audit row tells apart. *)
Example evaluate_S2 :
  let rule := PermissionRule.mk "rule-git" (Some "P") "Bash" (Some "git:*") "allow"
                                (SInt 0) 0 in
  let d := mkDatabase ["P"] [rule] [sampleSession] [] [] in
  let w := set_db (Some d) sampleWorld in
  (∃ row, evaluate "S" "P" "req-1" "Bash" [("command", JStr "git commit -m hi")] w
          = (Normal (mkDecision "allow" None), logged w d row)
          ∧ PermissionLogEntry.decision_source row = "auto_rule"
          ∧ PermissionLogEntry.rule_id row = Some "rule-git")
  ∧ (∃ row, evaluate "S" "P" "req-2" "Bash" [("command", JStr "digits are fun")] w
            = (Normal (mkDecision "allow" None), logged w d row)
            ∧ PermissionLogEntry.decision_source row = "auto_default"
            ∧ PermissionLogEntry.rule_id row = None).
Proof. split; eexists; (split; [reflexivity|split; reflexivity]). Qed.

(** A rule of lower priority whose pattern is not a regular expression is
    not reached when a rule before it matches: the call returns. *)
Example evaluate_unreached_pattern :
  let rule := PermissionRule.mk "rule-q" (Some "P") "Bash" (Some "?x") "deny"
                                (SInt 1) 0 in
  let d := mkDatabase ["P"] (permission_rules sampleDatabase ++ [rule])
                      [sampleSession] [] [] in
  let w := set_db (Some d) sampleWorld in
  ∃ row, evaluate "S" "P" "req-1" "Bash" [("command", JStr "rm -rf /tmp/x")] w
         = (Normal (mkDecision "deny" None), logged w d row)
         ∧ PermissionLogEntry.rule_id row = Some "rule-project".
Proof. eexists. split; reflexivity. Qed.





End EvaluateClaims.

(** ** NDJSON framing *)

Section Framing.
Import Js.

(** The complete lines of a buffer and the partial line after them:
    [buffer.split("\n")] followed by [lines.pop()]. *)
Definition frame (s : string) : list string * string :=
  let '(complete, last) := pop (split s LF) in (complete, default "" last).

Lemma split_nonempty s sep : split s sep ≠ [].
Proof.
  destruct s as [|c s]; cbn; [done|].
  destruct (Ascii.eqb c sep); [done|]. by destruct (split s sep).
Qed.

Lemma pop_cons {A} (x : A) l :
  l ≠ [] → pop (x :: l) = (x :: (pop l).1, (pop l).2).
Proof.
  destruct l as [|y l]; [done|]. intros _.
  change (pop (x :: y :: l)) with (let '(r, o) := pop (y :: l) in (x :: r, o)).
  by destruct (pop (y :: l)).
Qed.

Lemma frame_nil : frame "" = ([], "").
Proof. reflexivity. Qed.

Lemma frame_cons c s :
  frame (String c s) =
  if Ascii.eqb c LF then ("" :: (frame s).1, (frame s).2)
  else match (frame s).1 with
       | [] => ([], String c (frame s).2)
       | l :: ls => (String c l :: ls, (frame s).2)
       end.
Proof.
  unfold frame. cbn [split].
  pose proof (split_nonempty s LF) as Hne.
  destruct (Ascii.eqb c LF).
  - rewrite pop_cons by done. by destruct (pop (split s LF)).
  - destruct (split s LF) as [|l ls]; [done|].
    destruct ls as [|l' ls]; [reflexivity|].
    rewrite !(pop_cons _ (l' :: ls)) by done.
    by destruct (pop (l' :: ls)).
Qed.

Lemma append_assoc (a b c : string) : (a +:+ b) +:+ c = a +:+ (b +:+ c).
Proof. induction a as [|x a IH]; [done|]. rewrite !append_String. by rewrite IH. Qed.

(** Framing a text is framing its first part and then the rest after
    the partial line the first part left. *)
Lemma frame_app x : ∀ y,
  frame (x +:+ y) =
  ((frame x).1 ++ (frame ((frame x).2 +:+ y)).1, (frame ((frame x).2 +:+ y)).2).
Proof.
  induction x as [|c x IH]; intros y.
  - rewrite append_Empty, frame_nil. cbn. rewrite append_Empty. by destruct (frame y).
  - rewrite append_String, !frame_cons, IH.
    destruct (Ascii.eqb c LF) eqn:E; [reflexivity|]. cbn [fst snd].
    destruct (frame x) as [[|l ls] r]; cbn [fst snd app].
    + rewrite append_String, frame_cons, E.
      by destruct (frame (r +:+ y)) as [[|l' ls'] r'].
    + reflexivity.
Qed.

End Framing.

Section FeedLemmas.
Import Js Ndjson.

Definition concatStrings (l : list string) : string := foldr String.append "" l.

Lemma feed_frame buffer chunk :
  feed buffer chunk
  = (omap parseLine (frame (buffer +:+ chunk)).1, (frame (buffer +:+ chunk)).2).
Proof. unfold feed, frame. by destruct (pop _). Qed.

(** Feeding two chunks one after the other is feeding their
    concatenation. *)
Lemma feed_app buffer c1 c2 :
  feed buffer (c1 +:+ c2)
  = ((feed buffer c1).1 ++ (feed (feed buffer c1).2 c2).1,
     (feed (feed buffer c1).2 c2).2).
Proof.
  rewrite !feed_frame. cbn [fst snd].
  rewrite <- append_assoc, frame_app. cbn [fst snd].
  by rewrite omap_app.
Qed.

Lemma append_empty_r (b : string) : b +:+ "" = b.
Proof. induction b as [|x b IH]; [done|]. by rewrite append_String, IH. Qed.

(** A buffer that holds no complete line. *)
Definition partialLine (b : string) : Prop := frame b = ([], b).

Lemma frame_rest_partial s : partialLine (frame s).2.
Proof.
  unfold partialLine. induction s as [|c s IH]; [reflexivity|].
  rewrite frame_cons. destruct (Ascii.eqb c LF) eqn:E; [exact IH|].
  destruct (frame s) as [[|l ls] r]; cbn [fst snd] in *; [|exact IH].
  rewrite frame_cons, E, IH. reflexivity.
Qed.

(** Chunk boundaries do not matter: a sequence of [feed] calls on a
    parser behaves as one [feed] of the concatenated chunks. *)
Lemma feedAll_concat chunks : ∀ buffer,
  partialLine buffer →
  feedAll buffer chunks = feed buffer (concatStrings chunks).
Proof.
  induction chunks as [|c chunks IH]; intros buffer Hb.
  - cbn. rewrite feed_frame, append_empty_r, Hb. reflexivity.
  - cbn [feedAll concatStrings foldr]. rewrite feed_app.
    destruct (feed buffer c) as [o1 b1] eqn:H1. cbn [fst snd].
    rewrite IH; [by destruct (feed b1 _)|].
    rewrite feed_frame in H1. injection H1 as _ <-. apply frame_rest_partial.
Qed.

Fixpoint allChars (p : ascii → bool) (s : string) : bool :=
  match s with
  | EmptyString => true
  | String c s' => p c && allChars p s'
  end.

Definition notLF (c : ascii) : bool := negb (Ascii.eqb c LF).

(** A complete line in front of a text is the first line framed. *)
Lemma frame_line t : ∀ rest,
  allChars notLF t = true →
  frame (t +:+ String LF rest) = (t :: (frame rest).1, (frame rest).2).
Proof.
  induction t as [|c t IH]; intros rest Ht.
  - rewrite append_Empty, frame_cons. reflexivity.
  - cbn in Ht. apply andb_true_iff in Ht as [Hc Ht].
    rewrite append_String, frame_cons, IH by done.
    unfold notLF in Hc. apply negb_true_iff in Hc. by rewrite Hc.
Qed.

End FeedLemmas.

(** ** The text [JSON.stringify] produces *)

Section JsonValues.
Import Js JsVal.

(** The own keys of an object as JavaScript lists them: no key twice, and
    no key after one that it precedes. *)
Fixpoint ownKeyOrder (ks : list string) : bool :=
  match ks with
  | [] => true
  | k :: ks' =>
      forallb (fun k' => negb (String.eqb k k') && negb (precedes k' k)) ks'
      && ownKeyOrder ks'
  end.

(** The values that JSON carries: [undefined] occurs nowhere, a number is
    the representation of a number, and the properties of an object are
    listed in the order of its own keys. *)
Fixpoint isJson (v : JsValue) : bool :=
  match v with
  | JUndefined => false
  | JNull | JBool _ | JStr _ => true
  | JNum x => Number.canonical x
  | JArr items => forallb isJson items
  | JObj props =>
      ownKeyOrder (map fst props) && forallb (fun kv => isJson (snd kv)) props
  end.

Definition text (v : JsValue) : string := default "null" (stringify v).

Definition headIs (p : ascii → bool) (s : string) : bool :=
  match s with
  | String c _ => p c
  | EmptyString => false
  end.

Lemma isJson_stringify v : isJson v = true → stringify v = Some (text v).
Proof. unfold text. destruct v as [| |[|]| | | |]; done. Qed.

Lemma headIs_allChars p s : s ≠ "" → allChars p s = true → headIs p s = true.
Proof.
  destruct s as [|c s]; [done|]. intros _ H. cbn in *.
  by apply andb_true_iff in H as [Hc _].
Qed.

Lemma headIs_app p a b : headIs p a = true → headIs p (a +:+ b) = true.
Proof. by destruct a. Qed.

Lemma allChars_app p a b : allChars p (a +:+ b) = allChars p a && allChars p b.
Proof.
  induction a as [|c a IH]; [done|].
  rewrite append_String. cbn. by rewrite IH, andb_assoc.
Qed.

Lemma length_app (a b : string) :
  String.length (a +:+ b) = String.length a + String.length b.
Proof. induction a as [|c a IH]; [done|]. rewrite append_String. cbn. by rewrite IH. Qed.

End JsonValues.

Section NumberText.
Import Js.

Lemma pretty_N_go_app x : ∀ s, pretty_N_go x s = pretty_N_go x "" +:+ s.
Proof.
  induction (N.lt_wf_0 x) as [x _ IH]; intros s.
  assert (x = 0 ∨ 0 < x)%N as [->|Hx] by lia; [by rewrite !pretty_N_go_0|].
  rewrite (pretty_N_go_step x s), (pretty_N_go_step x "") by done.
  assert (Hlt : (x `div` 10 < x)%N) by (by apply N.div_lt).
  rewrite (IH _ Hlt (String _ s)), (IH _ Hlt (String _ "")).
  by rewrite append_assoc.
Qed.

Lemma pretty_N_go_snoc x :
  (0 < x)%N →
  pretty_N_go x "" = pretty_N_go (x `div` 10)%N "" +:+ str (pretty_N_char (x `mod` 10)%N).
Proof. intros Hx. rewrite pretty_N_go_step by done. apply pretty_N_go_app. Qed.

Lemma small_N_cases (m : N) :
  (m < 10)%N →
  (m = 0 ∨ m = 1 ∨ m = 2 ∨ m = 3 ∨ m = 4 ∨ m = 5 ∨ m = 6 ∨ m = 7 ∨ m = 8 ∨ m = 9)%N.
Proof. lia. Qed.

Lemma pretty_N_char_digit m :
  (m < 10)%N →
  is_digit (pretty_N_char m) = true ∧ digit_value (pretty_N_char m) = Z.of_N m.
Proof. intros H. pose proof (small_N_cases m H). destruct_or!; subst; done. Qed.

Lemma is_digit_cases c :
  is_digit c = true →
  (c = "0" ∨ c = "1" ∨ c = "2" ∨ c = "3" ∨ c = "4" ∨ c = "5" ∨ c = "6" ∨ c = "7"
   ∨ c = "8" ∨ c = "9")%char.
Proof.
  destruct c as [[|] [|] [|] [|] [|] [|] [|] [|]]; cbn; intros H;
    try discriminate; tauto.
Qed.

Lemma all_digits_allChars s : all_digits s = allChars is_digit s.
Proof. induction s as [|c s IH]; [done|]. cbn. by rewrite IH. Qed.

Lemma all_digits_app a b : all_digits (a +:+ b) = all_digits a && all_digits b.
Proof. by rewrite !all_digits_allChars, allChars_app. Qed.

Lemma all_digits_zeros n : all_digits (Number.zeros n) = true.
Proof. induction n as [|n IH]; [done|]. exact IH. Qed.

Lemma all_digits_slice0 s : ∀ n, all_digits s = true → all_digits (slice0 s n) = true.
Proof.
  induction s as [|c s IH]; intros [|n]; try done. cbn.
  intros [Hc Hs]%andb_true_iff. rewrite Hc. by apply IH.
Qed.

Lemma all_digits_slice s : ∀ n, all_digits s = true → all_digits (slice s n) = true.
Proof.
  induction s as [|c s IH]; intros [|n]; try done. cbn.
  intros [Hc Hs]%andb_true_iff. by apply IH.
Qed.

Lemma slice0_slice s : ∀ n, slice0 s n +:+ slice s n = s.
Proof.
  induction s as [|c s IH]; intros [|n]; try done. cbn [slice0 slice].
  by rewrite append_String, IH.
Qed.

Lemma slice0_length_exact s : ∀ n,
  n ≤ String.length s → String.length (slice0 s n) = n.
Proof.
  induction s as [|c s IH]; intros [|n]; cbn; try done; try lia.
  intros H. rewrite IH; lia.
Qed.

Lemma slice_nonempty s : ∀ n, n < String.length s → slice s n ≠ "".
Proof.
  induction s as [|c s IH]; intros [|n]; cbn; try done; try lia.
  intros H. apply IH. lia.
Qed.

Lemma zeros_length n : String.length (Number.zeros n) = n.
Proof. induction n as [|n IH]; [done|]. cbn. by rewrite IH. Qed.

(** The notation of a natural number: digits, at least one, that read as
    the number. *)
Lemma pretty_N_go_digits x : all_digits (pretty_N_go x "") = true.
Proof.
  induction (N.lt_wf_0 x) as [x _ IH].
  assert (x = 0 ∨ 0 < x)%N as [->|Hx] by lia; [by rewrite pretty_N_go_0|].
  rewrite pretty_N_go_snoc, all_digits_app by done.
  rewrite IH by (by apply N.div_lt). cbn. rewrite andb_true_r.
  apply pretty_N_char_digit, N.mod_lt. lia.
Qed.

Lemma digits_app s : ∀ acc rest,
  all_digits s = true → digits acc (s +:+ rest) = digits (digits acc s).1 rest.
Proof.
  induction s as [|c s IH]; intros acc rest; [done|]. cbn [all_digits].
  intros [Hc Hs]%andb_true_iff. rewrite append_String. cbn [digits].
  rewrite Hc. by apply IH.
Qed.

Lemma digits_pretty_N_go x : (digits 0 (pretty_N_go x "")).1 = Z.of_N x.
Proof.
  induction (N.lt_wf_0 x) as [x _ IH].
  assert (x = 0 ∨ 0 < x)%N as [->|Hx] by lia; [by rewrite pretty_N_go_0|].
  rewrite pretty_N_go_snoc by done.
  rewrite digits_app by apply pretty_N_go_digits.
  rewrite IH by (by apply N.div_lt).
  assert (Hm : (x `mod` 10 < 10)%N) by (apply N.mod_lt; lia).
  destruct (pretty_N_char_digit _ Hm) as [Hd Hv].
  cbn [digits str]. rewrite Hd, Hv. cbn [fst].
  pose proof (N.div_mod x 10 ltac:(lia)) as E. apply (f_equal Z.of_N) in E.
  rewrite N2Z.inj_add, N2Z.inj_mul in E. change (Z.of_N 10) with 10%Z in E. lia.
Qed.

Lemma pretty_N_go_nonempty x : ∀ s, s ≠ "" → pretty_N_go x s ≠ "".
Proof.
  induction (N.lt_wf_0 x) as [x _ IH]; intros s Hs.
  assert (x = 0 ∨ 0 < x)%N as [->|?] by lia; [by rewrite pretty_N_go_0|].
  rewrite pretty_N_go_step by done. apply IH; [by apply N.div_lt|done].
Qed.

Lemma pretty_natural (m : Z) :
  (0 ≤ m)%Z →
  all_digits (pretty m) = true ∧ pretty m ≠ "" ∧ (digits 0 (pretty m)).1 = m.
Proof.
  intros Hm. destruct m as [|x|x]; [done| |lia].
  change (pretty (Z.pos x)) with (pretty_N (N.pos x)).
  unfold pretty_N. rewrite decide_False by done.
  split; [apply pretty_N_go_digits|]. split; [|apply digits_pretty_N_go].
  rewrite pretty_N_go_step by done. by apply pretty_N_go_nonempty.
Qed.

Lemma allChars_digits (p : ascii → bool) s :
  (∀ c, is_digit c = true → p c = true) →
  all_digits s = true → allChars p s = true.
Proof.
  intros Hp. induction s as [|c s IH]; [done|]. cbn.
  intros [Hc Hs]%andb_true_iff. by rewrite (Hp c Hc), IH.
Qed.

(** The significant digits of a number that is not zero. *)
Lemma canonical_digits neg c s n :
  Number.canonical (Number.mk neg (String c s) n) = true →
  all_digits (String c s) = true ∧ Ascii.eqb c "0" = false
  ∧ Number.last_nonzero (String c s) = true.
Proof.
  unfold Number.canonical. cbn [Number.significand].
  intros [[H1 H2]%andb_true_iff H3]%andb_true_iff.
  by apply negb_true_iff in H2.
Qed.

(** The characters of [Number::toString]: digits, a sign, a point and the
    mark of the exponent. *)
Lemma toString_chars (p : ascii → bool) x :
  Number.canonical x = true →
  (∀ c, is_digit c = true → p c = true) →
  p "-"%char = true → p "."%char = true → p "e"%char = true → p "+"%char = true →
  allChars p (Number.toString x) = true ∧ Number.toString x ≠ "".
Proof.
  intros Hx Hd Hm Hpt He Hpl. destruct x as [neg [|c s] n].
  { cbn. by rewrite (Hd "0"%char). }
  destruct (canonical_digits _ _ _ _ Hx) as (Hs & _ & _).
  assert (Hps : allChars p (String c s) = true) by (by apply allChars_digits).
  unfold Number.toString. cbn [Number.significand Number.negative Number.point].
  split.
  - rewrite allChars_app. apply andb_true_iff.
    split; [destruct neg; cbn; by rewrite ?Hm|].
    destruct (Z.leb _ n && Z.leb n 21).
    { rewrite allChars_app, Hps.
      apply allChars_digits; [done|apply all_digits_zeros]. }
    destruct (Z.ltb 0 n && Z.leb n 21).
    { rewrite !allChars_app.
      rewrite (allChars_digits p (slice0 _ _)) by (done || by apply all_digits_slice0).
      rewrite (allChars_digits p (slice _ _)) by (done || by apply all_digits_slice).
      cbn [allChars andb]. by rewrite Hpt. }
    destruct (Z.ltb (-6) n && Z.leb n 0).
    { rewrite !allChars_app, Hps, andb_true_r.
      change (allChars p "0.") with (p "0"%char && (p "."%char && true)).
      rewrite (Hd "0"%char), Hpt by done. cbn.
      apply allChars_digits; [done|apply all_digits_zeros]. }
    destruct (pretty_natural (Z.abs (n - 1))) as (Hpd & _ & _); [lia|].
    rewrite !allChars_app.
    rewrite (allChars_digits p _ Hd Hpd), andb_true_r.
    cbn in Hps. apply andb_true_iff in Hps as [Hpc Hpss].
    assert (Hsg : allChars p (if (n - 1 <? 0)%Z then "-" else "+") = true)
      by (by destruct (n - 1 <? 0)%Z; cbn; rewrite ?Hm, ?Hpl).
    rewrite Hsg, andb_true_r. cbn. rewrite Hpc, He, andb_true_r. cbn.
    destruct s; [done|]. cbn [allChars]. by rewrite Hpt.
  - destruct neg; [done|]. rewrite append_Empty.
    destruct (Z.leb _ n && Z.leb n 21); [done|].
    destruct (Z.ltb 0 n && Z.leb n 21) eqn:E2.
    { apply andb_true_iff in E2 as [E2 _]. apply Z.ltb_lt in E2.
      destruct (Z.to_nat n) eqn:En; [lia|done]. }
    by destruct (Z.ltb (-6) n && Z.leb n 0).
Qed.

(** *** Reading a number back *)

Lemma digit_run_app s rest :
  all_digits s = true → headIs is_digit rest = false →
  digit_run (s +:+ rest) = (s, rest).
Proof.
  intros Hs Hr. induction s as [|c s IH].
  - rewrite append_Empty. destruct rest as [|c r]; [done|]. cbn in *. by rewrite Hr.
  - cbn in Hs. apply andb_true_iff in Hs as [Hc Hs].
    rewrite append_String. cbn. by rewrite Hc, IH.
Qed.

Lemma strip_leading_zeros n s :
  Number.strip_leading (Number.zeros n +:+ s) = Number.strip_leading s
  ∧ Number.leading_zeros (Number.zeros n +:+ s) = n + Number.leading_zeros s.
Proof.
  induction n as [|n [IH1 IH2]]; [done|].
  change (Number.zeros (S n) +:+ s) with (String "0" (Number.zeros n +:+ s)).
  cbn. by rewrite IH1, IH2.
Qed.

Lemma strip_trailing_zeros_only n : Number.strip_trailing (Number.zeros n) = "".
Proof. induction n as [|n IH]; [done|]. cbn. by rewrite IH. Qed.

Lemma strip_trailing_zeros s n :
  Number.last_nonzero s = true →
  Number.strip_trailing (s +:+ Number.zeros n) = s.
Proof.
  induction s as [|c s IH]; [done|]. intros H. rewrite append_String.
  cbn [Number.strip_trailing]. destruct s as [|c' s].
  - rewrite append_Empty, strip_trailing_zeros_only. cbn in H.
    apply negb_true_iff in H. by rewrite H.
  - by rewrite IH.
Qed.

(** Digits around the significant digits of a number do not change it. *)
Lemma make_padded neg c s n before after :
  Number.canonical (Number.mk false (String c s) 0) = true →
  Number.make neg (Number.zeros before +:+ String c s +:+ Number.zeros after) n
  = Number.mk neg (String c s) (n - Z.of_nat before).
Proof.
  intros Hx. destruct (canonical_digits _ _ _ _ Hx) as (_ & Hc & Hl).
  unfold Number.make.
  destruct (strip_leading_zeros before (String c s +:+ Number.zeros after)) as [-> ->].
  rewrite append_String. cbn [Number.strip_leading Number.leading_zeros]. rewrite Hc.
  rewrite <- append_String, strip_trailing_zeros by done.
  by rewrite Nat.add_0_r.
Qed.

Lemma make_trailing neg c s n after :
  Number.canonical (Number.mk false (String c s) 0) = true →
  Number.make neg (String c s +:+ Number.zeros after) n = Number.mk neg (String c s) n.
Proof.
  intros Hx. rewrite <- (Z.sub_0_r n) at 2.
  exact (make_padded neg c s n 0 after Hx).
Qed.

Lemma make_exact neg c s n :
  Number.canonical (Number.mk false (String c s) 0) = true →
  Number.make neg (String c s) n = Number.mk neg (String c s) n.
Proof.
  intros Hx. rewrite <- (make_trailing neg c s n 0 Hx).
  change (Number.zeros 0) with "". by rewrite append_empty_r.
Qed.

Lemma make_leading neg c s n before :
  Number.canonical (Number.mk false (String c s) 0) = true →
  Number.make neg (Number.zeros before +:+ String c s) n
  = Number.mk neg (String c s) (n - Z.of_nat before).
Proof.
  intros Hx. rewrite <- (make_padded neg c s n before 0 Hx).
  change (Number.zeros 0) with "". by rewrite append_empty_r.
Qed.

(** What may follow a value inside a text: nothing, a comma, or a closing
    bracket or brace. *)
Definition closes (rest : string) : bool :=
  match rest with
  | EmptyString => true
  | String c _ => Ascii.eqb c "," || Ascii.eqb c "]" || Ascii.eqb c "}"
  end.

Lemma closes_cases rest :
  closes rest = true →
  rest = "" ∨ ∃ c r, rest = String c r ∧ (c = "," ∨ c = "]" ∨ c = "}")%char.
Proof.
  destruct rest as [|c r]; [by left|]. cbn. intros H. right. exists c, r.
  split; [done|].
  apply orb_true_iff in H as [H|H]; [apply orb_true_iff in H as [H|H]|];
    apply Ascii.eqb_eq in H; auto.
Qed.

Lemma closes_head rest :
  closes rest = true →
  headIs is_digit rest = false
  ∧ JsonParse.fraction rest = Some ("", rest)
  ∧ JsonParse.exponent rest = Some (0%Z, rest).
Proof.
  intros H. destruct (closes_cases _ H) as [->|(c & r & -> & [->|[->| ->]])]; done.
Qed.

(** Reading the text of a number after its sign gives the number back. *)
Lemma number_toString neg c s n rest :
  Number.canonical (Number.mk false (String c s) n) = true →
  closes rest = true →
  JsonParse.number neg (Number.toString (Number.mk false (String c s) n) +:+ rest)
  = Some (JNum (Number.mk neg (String c s) n), rest).
Proof.
  intros Hx Hrest.
  destruct (canonical_digits _ _ _ _ Hx) as (Hs & Hc & Hl).
  destruct (closes_head _ Hrest) as (Hhead & Hfrac & Hexp).
  assert (Hx0 : Number.canonical (Number.mk false (String c s) 0) = true) by exact Hx.
  assert (Hdc : is_digit c = true ∧ all_digits s = true) by (by apply andb_true_iff).
  destruct Hdc as [Hdc Hds].
  unfold Number.toString. cbn [Number.significand Number.negative Number.point].
  rewrite append_Empty. unfold JsonParse.number.
  destruct (Z.leb _ n && Z.leb n 21) eqn:E1.
  { apply andb_true_iff in E1 as [E1 E1']. apply Z.leb_le in E1, E1'.
    rewrite digit_run_app by (done || by rewrite all_digits_app, Hs, all_digits_zeros).
    rewrite append_String, Hc, Hfrac, Hexp. cbn [andb].
    rewrite append_empty_r, <- append_String.
    rewrite make_trailing by done. repeat f_equal.
    rewrite length_app, zeros_length. cbn [String.length] in *. lia. }
  destruct (Z.ltb 0 n && Z.leb n 21) eqn:E2.
  { apply andb_true_iff in E2 as [E2 E2']. apply Z.ltb_lt in E2. apply Z.leb_le in E2'.
    apply andb_false_iff in E1 as [E1|E1]; [apply Z.leb_gt in E1|apply Z.leb_gt in E1; lia].
    rewrite !append_assoc. change ("." +:+ ?x) with (String "." x).
    rewrite digit_run_app by (by apply all_digits_slice0 || done).
    destruct (Z.to_nat n) as [|m] eqn:En; [lia|].
    cbn [slice0 slice]. rewrite Hc. cbn [andb].
    cbn [JsonParse.fraction]. change (Ascii.eqb "." ".") with true. cbn match.
    rewrite digit_run_app by (done || by apply all_digits_slice).
    assert (Hne : slice s m ≠ "").
    { apply slice_nonempty. cbn [String.length] in E1. lia. }
    destruct (slice s m) as [|f fs] eqn:Ef; [done|]. rewrite Hexp.
    rewrite <- Ef.
    change (String c (slice0 s m)) with (slice0 (String c s) (S m)).
    change (slice s m) with (slice (String c s) (S m)).
    rewrite slice0_slice, make_exact by done. repeat f_equal.
    rewrite slice0_length_exact by (cbn [String.length] in *; lia). lia. }
  destruct (Z.ltb (-6) n && Z.leb n 0) eqn:E3.
  { apply andb_true_iff in E3 as [E3 E3']. apply Z.ltb_lt in E3. apply Z.leb_le in E3'.
    change ("0." +:+ Number.zeros (Z.to_nat (- n)) +:+ String c s)
      with (String "0" (String "." (Number.zeros (Z.to_nat (- n)) +:+ String c s))).
    rewrite !append_String. cbn [digit_run]. change (is_digit "0") with true.
    change (is_digit ".") with false. cbn match.
    change (Ascii.eqb "0" "0" && negb (String.eqb "" "")) with false. cbn match.
    cbn [JsonParse.fraction]. change (Ascii.eqb "." ".") with true. cbn match.
    rewrite digit_run_app by (done || by rewrite all_digits_app, Hs, all_digits_zeros).
    destruct (Number.zeros (Z.to_nat (- n)) +:+ String c s) as [|f fs] eqn:Ef.
    { by destruct (Z.to_nat (- n)). }
    rewrite Hexp, <- Ef.
    change ("0" +:+ Number.zeros (Z.to_nat (- n)) +:+ String c s)
      with (Number.zeros (S (Z.to_nat (- n))) +:+ String c s).
    rewrite make_leading by done. repeat f_equal.
    cbn [String.length]. lia. }
  destruct (pretty_natural (Z.abs (n - 1))) as (Hpd & Hpn & Hpv); [lia|].
  assert (Hexp' : ∀ r, headIs is_digit r = false →
    JsonParse.exponent
      ("e" +:+ (if (n - 1 <? 0)%Z then "-" else "+") +:+ pretty (Z.abs (n - 1)) +:+ r)
    = Some ((n - 1)%Z, r)).
  { intros r Hr. destruct (n - 1 <? 0)%Z eqn:En.
    - apply Z.ltb_lt in En.
      change ("e" +:+ "-" +:+ pretty (Z.abs (n - 1)) +:+ r)
        with (String "e" (String "-" (pretty (Z.abs (n - 1)) +:+ r))).
      cbn [JsonParse.exponent]. change (Ascii.eqb "e" "e" || Ascii.eqb "e" "E") with true.
      cbn match. change (Ascii.eqb "-" "-") with true. cbn match.
      rewrite digit_run_app by done.
      destruct (pretty (Z.abs (n - 1))) as [|p ps] eqn:Ep; [done|].
      rewrite Hpv. f_equal. f_equal. lia.
    - apply Z.ltb_ge in En.
      change ("e" +:+ "+" +:+ pretty (Z.abs (n - 1)) +:+ r)
        with (String "e" (String "+" (pretty (Z.abs (n - 1)) +:+ r))).
      cbn [JsonParse.exponent]. change (Ascii.eqb "e" "e" || Ascii.eqb "e" "E") with true.
      cbn match. change (Ascii.eqb "+" "-") with false.
      change (Ascii.eqb "+" "+") with true. cbn match.
      rewrite digit_run_app by done.
      destruct (pretty (Z.abs (n - 1))) as [|p ps] eqn:Ep; [done|].
      rewrite Hpv. f_equal. f_equal. lia. }
  rewrite !append_assoc, append_String. cbn [digit_run]. rewrite Hdc.
  destruct s as [|d ds].
  - rewrite append_Empty.
    change (digit_run ("e" +:+ ?x)) with ("", "e" +:+ x).
    cbv beta match zeta. rewrite Hc. cbn [andb].
    change (JsonParse.fraction ("e" +:+ ?x)) with (Some ("", "e" +:+ x)).
    cbv beta match zeta. rewrite Hexp' by done.
    change (String c "" +:+ "") with (String c "").
    rewrite make_exact by done. repeat f_equal.
    cbn [String.length]. lia.
  - rewrite append_String.
    change (digit_run (String "." ?x)) with ("", String "." x).
    cbv beta match zeta. rewrite Hc. cbn [andb].
    cbn [JsonParse.fraction]. change (Ascii.eqb "." ".") with true. cbn match.
    rewrite digit_run_app by done.
    rewrite Hexp' by done.
    change (String c "" +:+ String d ds) with (String c (String d ds)).
    rewrite make_exact by done. repeat f_equal.
    cbn [String.length]. lia.
Qed.

End NumberText.

Section StringifyText.
Import Js JsVal.

Lemma quote_char_notLF c : allChars notLF (quote_char c) = true.
Proof. destruct c as [[|] [|] [|] [|] [|] [|] [|] [|]]; reflexivity. Qed.

Lemma quote_body_notLF s : allChars notLF (quote_body s) = true.
Proof.
  induction s as [|c s IH]; [done|].
  cbn [quote_body]. by rewrite allChars_app, quote_char_notLF, IH.
Qed.

Lemma quote_notLF s : allChars notLF (quote s) = true.
Proof.
  unfold quote. cbn [allChars]. by rewrite allChars_app, quote_body_notLF.
Qed.

Lemma join_notLF l :
  Forall (fun t => allChars notLF t = true) l → allChars notLF (join "," l) = true.
Proof.
  induction 1 as [|t l Ht Hl IH]; [done|].
  destruct l as [|t' l]; [done|].
  change (join "," (t :: t' :: l)) with (t +:+ "," +:+ join "," (t' :: l)).
  by rewrite !allChars_app, Ht, IH.
Qed.

(** Induction on JavaScript values through their arrays and objects. *)
Fixpoint JsValue_nested_ind (P : JsValue → Prop)
    (Hundef : P JUndefined) (Hnull : P JNull) (Hbool : ∀ b, P (JBool b))
    (Hnum : ∀ n, P (JNum n)) (Hstr : ∀ s, P (JStr s))
    (Harr : ∀ items, Forall P items → P (JArr items))
    (Hobj : ∀ props, Forall (fun kv => P kv.2) props → P (JObj props))
    (v : JsValue) : P v :=
  match v with
  | JUndefined => Hundef
  | JNull => Hnull
  | JBool b => Hbool b
  | JNum n => Hnum n
  | JStr s => Hstr s
  | JArr items =>
      Harr items
        ((fix go (l : list JsValue) : Forall P l :=
            match l with
            | [] => Forall_nil_2 P
            | x :: l' =>
                Forall_cons_2 P x l'
                  (JsValue_nested_ind P Hundef Hnull Hbool Hnum Hstr Harr Hobj x)
                  (go l')
            end) items)
  | JObj props =>
      Hobj props
        ((fix go (l : list (string * JsValue)) : Forall (fun kv => P kv.2) l :=
            match l with
            | [] => Forall_nil_2 _
            | kv :: l' =>
                Forall_cons_2 (fun kv => P kv.2) kv l'
                  (JsValue_nested_ind P Hundef Hnull Hbool Hnum Hstr Harr Hobj kv.2)
                  (go l')
            end) props)
  end.

Lemma forallb_Forall {A} (f : A → bool) l :
  forallb f l = true → Forall (fun x => f x = true) l.
Proof.
  induction l as [|x l IH]; [constructor|]. cbn.
  intros [Hx Hl]%andb_true_iff. constructor; auto.
Qed.

Lemma digit_notLF c : is_digit c = true → notLF c = true.
Proof. intros H. pose proof (is_digit_cases c H). destruct_or!; by subst. Qed.

(** [JSON.stringify] never emits a line feed. *)
Lemma stringify_notLF v :
  isJson v = true → ∀ t, stringify v = Some t → allChars notLF t = true.
Proof.
  induction v as [| |b|n|s|items IH|props IH] using JsValue_nested_ind;
    intros Hj t Ht; simplify_eq/=.
  - reflexivity.
  - destruct b; injection Ht as <-; reflexivity.
  - by apply toString_chars; [|apply digit_notLF|..].
  - apply quote_notLF.
  - rewrite !allChars_app. cbn. rewrite andb_true_r.
    apply join_notLF. apply Forall_map.
    apply forallb_Forall in Hj.
    eapply Forall_impl; [apply Forall_and; split; [exact IH|exact Hj]|].
    intros x [Hx Hjx]. cbn.
    destruct (stringify x) as [tx|] eqn:E; [by apply Hx|reflexivity].
  - rewrite !allChars_app. cbn. rewrite andb_true_r.
    apply join_notLF.
    apply andb_true_iff in Hj as [_ Hj]. apply forallb_Forall in Hj.
    assert (H : Forall (fun kv => (isJson kv.2 = true →
                                   ∀ t, stringify kv.2 = Some t → allChars notLF t = true)
                                  ∧ isJson kv.2 = true) props)
      by (apply Forall_and; split; [exact IH|exact Hj]).
    clear IH Hj.
    induction H as [|[k x] props [Hx Hjx] _ IHp]; [constructor|]. cbn.
    destruct (stringify x) as [tx|] eqn:Hsx; [|exact IHp].
    constructor; [|exact IHp].
    rewrite !allChars_app, quote_notLF. cbn. by apply Hx.
Qed.

End StringifyText.

Section TrimText.
Import Js JsVal.

Definition notWs (c : ascii) : bool := negb (is_white_space c).

Definition headOk (s : string) : bool :=
  match s with
  | String c _ => notWs c
  | EmptyString => false
  end.

Fixpoint lastOk (s : string) : bool :=
  match s with
  | EmptyString => false
  | String c EmptyString => notWs c
  | String _ s' => lastOk s'
  end.

Lemma trimEnd_lastOk s : lastOk s = true → trimEnd s = s.
Proof.
  induction s as [|c s IH]; [done|]. intros H.
  destruct s as [|c' s].
  - cbn in *. unfold notWs in H. apply negb_true_iff in H. by rewrite H.
  - change (trimEnd (String c (String c' s)))
      with (match trimEnd (String c' s) with
            | EmptyString => if is_white_space c then EmptyString else str c
            | t => String c t
            end).
    by rewrite IH.
Qed.

(** [trim] leaves a text alone that neither starts nor ends with
    white space. *)
Lemma trim_tight s : headOk s = true → lastOk s = true → trim s = s ∧ s ≠ "".
Proof.
  intros Hh Hl. destruct s as [|c s]; [done|]. split; [|done].
  unfold trim. cbn [trimStart]. cbn in Hh. unfold notWs in Hh.
  apply negb_true_iff in Hh. rewrite Hh. by apply trimEnd_lastOk.
Qed.

Lemma lastOk_cons c s : lastOk s = true → lastOk (String c s) = true.
Proof. by destruct s. Qed.

Lemma lastOk_app a b : lastOk b = true → lastOk (a +:+ b) = true.
Proof.
  intros Hb. induction a as [|c a IH]; [done|].
  rewrite append_String. by apply lastOk_cons.
Qed.

Lemma lastOk_allChars s : s ≠ "" → allChars notWs s = true → lastOk s = true.
Proof.
  induction s as [|c s IH]; [done|]. intros _ H.
  cbn in H. apply andb_true_iff in H as [Hc Hs].
  destruct s as [|c' s]; [done|]. apply lastOk_cons. by apply IH.
Qed.

Lemma headOk_allChars s : s ≠ "" → allChars notWs s = true → headOk s = true.
Proof.
  destruct s as [|c s]; [done|]. intros _ H. cbn in *.
  by apply andb_true_iff in H as [Hc _].
Qed.

Lemma digit_notWs c : is_digit c = true → notWs c = true.
Proof. intros H. pose proof (is_digit_cases c H). destruct_or!; by subst. Qed.

(** The text of a value has no white space around it. *)
Lemma stringify_tight v t :
  isJson v = true → stringify v = Some t → headOk t = true ∧ lastOk t = true.
Proof.
  destruct v as [| |b|n|s|items|props]; cbn [stringify isJson]; intros Hj Ht;
    [discriminate| | destruct b | | | |]; injection Ht as <-.
  - done.
  - done.
  - done.
  - destruct (toString_chars notWs n Hj digit_notWs) as [Hall Hne]; try done.
    split; [by apply headOk_allChars|by apply lastOk_allChars].
  - unfold quote. split; [done|]. apply lastOk_cons. by apply lastOk_app.
  - split; [done|]. rewrite append_String, append_Empty.
    apply lastOk_cons. by apply lastOk_app.
  - split; [done|]. rewrite append_String, append_Empty.
    apply lastOk_cons. by apply lastOk_app.
Qed.

End TrimText.

(** ** [JSON.parse] after [JSON.stringify] *)

Section JsonRoundTrip.
Import Js JsVal JsonParse.

Lemma closes_skip_ws rest : closes rest = true → skip_ws rest = rest.
Proof.
  intros H. destruct (closes_cases _ H) as [->|(c & r & -> & [->|[->| ->]])]; done.
Qed.

(** *** Numbers *)

Lemma value_digit fuel d r :
  is_digit d = true → value (S fuel) (String d r) = number false (String d r).
Proof.
  intros H. pose proof (is_digit_cases d H). destruct_or!; by subst.
Qed.

(** The text of a number that is not negative starts with a digit. *)
Lemma toString_head c s n :
  Number.canonical (Number.mk false (String c s) n) = true →
  ∃ d r, Number.toString (Number.mk false (String c s) n) = String d r
         ∧ is_digit d = true.
Proof.
  intros Hx. destruct (canonical_digits _ _ _ _ Hx) as (Hs & _ & _).
  apply andb_true_iff in Hs as [Hc _].
  unfold Number.toString. cbn [Number.significand Number.negative Number.point].
  rewrite append_Empty.
  destruct (Z.leb _ n && Z.leb n 21); [by eexists _, _|].
  destruct (Z.ltb 0 n && Z.leb n 21) eqn:E2.
  { apply andb_true_iff in E2 as [E2 _]. apply Z.ltb_lt in E2.
    destruct (Z.to_nat n) eqn:En; [lia|]. by eexists _, _. }
  destruct (Z.ltb (-6) n && Z.leb n 0); by eexists _, _.
Qed.

Lemma value_number x fuel rest :
  Number.canonical x = true → closes rest = true →
  value (S fuel) (Number.toString x +:+ rest) = Some (JNum x, rest).
Proof.
  intros Hx Hrest. destruct x as [neg [|c s] n].
  { unfold Number.canonical in Hx. cbn in Hx.
    apply andb_true_iff in Hx as [Hneg Hn]. apply negb_true_iff in Hneg.
    apply Z.eqb_eq in Hn. subst.
    change (Number.toString (Number.mk false "" 0)) with "0".
    rewrite append_String, append_Empty, value_digit by done.
    unfold number. destruct (closes_head _ Hrest) as (Hh & Hf & He).
    change (String "0" rest) with ("0" +:+ rest).
    rewrite digit_run_app by done. cbv beta match zeta. cbn [andb String.eqb negb].
    change (Ascii.eqb "0" "0" && false) with false. cbv beta match zeta.
    by rewrite Hf, He. }
  assert (Hx' : Number.canonical (Number.mk false (String c s) n) = true) by exact Hx.
  pose proof (number_toString neg c s n rest Hx' Hrest) as Hnum.
  destruct neg.
  - change (Number.toString (Number.mk true (String c s) n))
      with ("-" +:+ Number.toString (Number.mk false (String c s) n)).
    rewrite append_assoc, append_String, append_Empty. exact Hnum.
  - destruct (toString_head c s n Hx') as (d & r & E & Hd).
    rewrite E in *. rewrite append_String in *. by rewrite value_digit.
Qed.

(** *** Strings *)

Lemma chars_quote_char c r t rest :
  chars r = Some (t, rest) →
  chars (quote_char c +:+ r) = Some (String c t, rest).
Proof.
  intros H.
  destruct c as [[|] [|] [|] [|] [|] [|] [|] [|]];
    match goal with
    | |- context [quote_char ?a] =>
        let q := eval vm_compute in (quote_char a) in
        change (quote_char a) with q
    end;
    rewrite ?append_String, ?append_Empty; cbn; rewrite H; reflexivity.
Qed.

Lemma chars_quote_body s rest :
  chars (quote_body s +:+ String dquote rest) = Some (s, rest).
Proof.
  induction s as [|c s IH]; [reflexivity|].
  cbn [quote_body]. rewrite append_assoc. by apply chars_quote_char.
Qed.

Lemma quote_app s rest :
  quote s +:+ rest = String dquote (quote_body s +:+ String dquote rest).
Proof.
  unfold quote, str. by rewrite append_String, append_assoc, append_String, append_Empty.
Qed.

(** *** Values *)

(** Reading the text of [v] gives [v] back and stops where the text
    ends. *)
Definition parsesBack (v : JsValue) : Prop :=
  ∀ t, stringify v = Some t →
  ∀ fuel rest, String.length t < fuel → closes rest = true →
    value fuel (t +:+ rest) = Some (v, rest).

Definition memberText (kv : string * JsValue) : string :=
  quote (fst kv) +:+ ":" +:+ text (snd kv).

Lemma omap_memberText props :
  forallb (fun kv => isJson (snd kv)) props = true →
  omap (fun kv => match stringify (snd kv) with
                  | Some t => Some (quote (fst kv) +:+ ":" +:+ t)
                  | None => None
                  end) props
  = map memberText props.
Proof.
  induction props as [|kv props IH]; [done|]. cbn [forallb].
  intros [Hkv Hps]%andb_true_iff. cbn [omap list_omap map].
  rewrite (isJson_stringify _ Hkv), IH by done. reflexivity.
Qed.

(** A new key that precedes none of the keys of an object is listed
    last. *)
Lemma set_prop_last k v acc :
  Forall (fun k' => String.eqb k' k = false ∧ precedes k k' = false) (map fst acc) →
  set_prop k v acc = (acc ++ [(k, v)])%list.
Proof.
  induction acc as [|[k' v'] acc IH]; [done|]. cbn [map fst].
  intros [[Hne Hp] Hacc]%Forall_cons. cbn [set_prop]. rewrite Hne, Hp.
  by rewrite IH.
Qed.

Lemma ownKeyOrder_app l1 k l2 :
  ownKeyOrder (l1 ++ k :: l2) = true →
  Forall (fun k' => String.eqb k' k = false ∧ precedes k k' = false) l1.
Proof.
  induction l1 as [|k1 l1 IH]; [constructor|].
  cbn [app ownKeyOrder]. intros [Hall Hrest]%andb_true_iff.
  constructor; [|by apply IH].
  rewrite forallb_app in Hall. apply andb_true_iff in Hall as [_ Hall].
  cbn [forallb] in Hall. apply andb_true_iff in Hall as [Hk _].
  apply andb_true_iff in Hk as [H1 H2]. by apply negb_true_iff in H1, H2.
Qed.

Lemma elements_texts items :
  Forall parsesBack items → forallb isJson items = true → items ≠ [] →
  ∀ fuel acc rest,
    String.length (join "," (map text items)) + 2 ≤ fuel →
    elements fuel acc (join "," (map text items) +:+ String "]" rest)
    = Some (JArr (acc ++ items), rest).
Proof.
  induction 1 as [|x items Hx _ IH]; [done|].
  cbn [forallb]. intros [Hjx Hjs]%andb_true_iff _ fuel acc rest Hfuel.
  pose proof (isJson_stringify x Hjx) as Etx.
  destruct fuel as [|fuel]; [lia|].
  destruct items as [|y items].
  - cbn [map join] in *. cbn [elements].
    rewrite (Hx _ Etx fuel (String "]" rest)) by (done || lia).
    reflexivity.
  - change (join "," (map text (x :: y :: items)))
      with (text x +:+ "," +:+ join "," (map text (y :: items))) in *.
    rewrite !length_app in Hfuel. cbn [String.length] in Hfuel.
    rewrite !append_assoc, append_String, append_Empty.
    cbn [elements].
    rewrite (Hx _ Etx fuel (String "," _)) by (done || lia).
    cbn [skip_ws]. change (is_json_ws ",") with false. cbn [starts tail].
    change (Ascii.eqb "," ",") with true. cbn match.
    rewrite IH by (done || lia). by rewrite <- app_assoc.
Qed.

Lemma memberText_app kv rest :
  memberText kv +:+ rest
  = String dquote (quote_body (fst kv) +:+ String dquote (String ":" (text (snd kv) +:+ rest))).
Proof.
  unfold memberText.
  by rewrite !append_assoc, quote_app, append_String, append_Empty.
Qed.

Lemma memberText_length kv :
  String.length (text (snd kv)) + 3 ≤ String.length (memberText kv).
Proof.
  unfold memberText, quote, str. rewrite !length_app. cbn [String.length].
  rewrite length_app. cbn [String.length]. lia.
Qed.

Lemma members_texts props :
  Forall (fun kv => parsesBack (snd kv)) props →
  forallb (fun kv => isJson (snd kv)) props = true → props ≠ [] →
  ∀ fuel acc rest,
    ownKeyOrder (map fst (acc ++ props)) = true →
    String.length (join "," (map memberText props)) + 2 ≤ fuel →
    members fuel acc (join "," (map memberText props) +:+ String "}" rest)
    = Some (JObj (acc ++ props), rest).
Proof.
  induction 1 as [|[k x] props Hx _ IH]; [done|].
  cbn [forallb snd]. intros [Hjx Hjs]%andb_true_iff _ fuel acc rest Hord Hfuel.
  pose proof (isJson_stringify x Hjx) as Etx.
  pose proof (memberText_length (k, x)) as Hlen. cbn [snd] in Hx, Hlen.
  assert (Hlast : set_prop k x acc = (acc ++ [(k, x)])%list).
  { apply set_prop_last. rewrite map_app in Hord. cbn [map fst] in Hord.
    by apply ownKeyOrder_app in Hord. }
  destruct fuel as [|fuel]; [lia|].
  destruct props as [|kv props].
  - cbn [map join] in *. rewrite memberText_app. cbn [fst snd].
    cbn [members skip_ws]. change (is_json_ws dquote) with false.
    cbn [starts tail]. change (Ascii.eqb dquote dquote) with true. cbn match.
    rewrite chars_quote_body.
    cbn [skip_ws]. change (is_json_ws ":") with false. cbn [starts tail].
    change (Ascii.eqb ":" ":") with true. cbn match.
    rewrite (Hx _ Etx fuel (String "}" rest)) by (done || lia).
    cbn [skip_ws]. change (is_json_ws "}") with false. cbn [starts tail].
    change (Ascii.eqb "}" ",") with false. change (Ascii.eqb "}" "}") with true.
    cbn match. by rewrite Hlast.
  - change (join "," (map memberText ((k, x) :: kv :: props)))
      with (memberText (k, x) +:+ "," +:+ join "," (map memberText (kv :: props))) in *.
    rewrite !length_app in Hfuel. cbn [String.length] in Hfuel.
    rewrite !append_assoc, memberText_app, append_String, append_Empty. cbn [fst snd].
    cbn [members skip_ws]. change (is_json_ws dquote) with false.
    cbn [starts tail]. change (Ascii.eqb dquote dquote) with true. cbn match.
    rewrite chars_quote_body.
    cbn [skip_ws]. change (is_json_ws ":") with false. cbn [starts tail].
    change (Ascii.eqb ":" ":") with true. cbn match.
    rewrite (Hx _ Etx fuel (String "," _)) by (done || lia).
    cbn [skip_ws]. change (is_json_ws ",") with false. cbn [starts tail].
    change (Ascii.eqb "," ",") with true. cbn match.
    rewrite Hlast.
    rewrite IH; [by rewrite <- app_assoc|done|done|by rewrite <- app_assoc|lia].
Qed.

(** The text of a value starts with a character that is neither white
    space nor a closing bracket. *)
Definition opens (c : ascii) : bool := negb (is_json_ws c) && negb (Ascii.eqb c "]").

Lemma digit_opens c : is_digit c = true → opens c = true.
Proof. intros H. pose proof (is_digit_cases c H). destruct_or!; by subst. Qed.

Lemma text_opens v : isJson v = true → headIs opens (text v) = true.
Proof.
  unfold text. destruct v as [| |[|]|n|s|items|props]; try done. intros Hj.
  cbn [stringify default].
  destruct (toString_chars opens n Hj digit_opens) as [Hall Hne]; try done.
  by apply headIs_allChars.
Qed.

Lemma join_head p sep t l : headIs p t = true → headIs p (join sep (t :: l) ) = true.
Proof.
  destruct t as [|c t]; [done|]. intros H. destruct l; [done|].
  change (join sep (String c t :: s :: l)) with (String c t +:+ sep +:+ join sep (s :: l)).
  by rewrite append_String.
Qed.

Lemma opens_not_closing s :
  headIs opens s = true → skip_ws s = s ∧ starts "]" s = false.
Proof.
  destruct s as [|c s]; [done|]. cbn. unfold opens.
  intros [Hw Hc]%andb_true_iff. apply negb_true_iff in Hw, Hc. by rewrite Hw, Hc.
Qed.

Lemma value_array fuel r :
  value (S fuel) (String "[" r)
  = if starts "]" (skip_ws r) then Some (JArr [], tail (skip_ws r))
    else elements fuel [] r.
Proof. reflexivity. Qed.

Lemma value_object fuel r :
  value (S fuel) (String "{" r)
  = if starts "}" (skip_ws r) then Some (JObj [], tail (skip_ws r))
    else members fuel [] r.
Proof. reflexivity. Qed.

Lemma Forall_isJson {A} (f : A → JsValue) (l : list A) :
  Forall (fun a => isJson (f a) = true → parsesBack (f a)) l →
  forallb (fun a => isJson (f a)) l = true →
  Forall (fun a => parsesBack (f a)) l.
Proof.
  induction 1 as [|a l Ha _ IH]; [constructor|]. cbn [forallb].
  intros [Hja Hjl]%andb_true_iff. constructor; auto.
Qed.

(** Reading the text of a JSON value gives the value back. *)
Lemma value_stringify v : isJson v = true → parsesBack v.
Proof.
  induction v as [| |b|n|s|items IH|props IH] using JsValue_nested_ind;
    intros Hj t Ht fuel rest Hfuel Hrest; cbn [stringify] in Ht;
    try discriminate; (destruct fuel as [|fuel]; [lia|]).
  - injection Ht as <-. reflexivity.
  - destruct b; injection Ht as <-; reflexivity.
  - injection Ht as <-. by apply value_number.
  - injection Ht as <-. rewrite quote_app. cbn [value skip_ws].
    change (is_json_ws dquote) with false. cbn match.
    by rewrite chars_quote_body.
  - injection Ht as <-. cbn [isJson] in Hj.
    fold text in *.
    rewrite append_String, append_Empty in *.
    cbn [String.length] in Hfuel. rewrite length_app in Hfuel. cbn [String.length] in Hfuel.
    rewrite append_String, append_assoc, append_String, append_Empty, value_array.
    destruct items as [|x items]; [reflexivity|].
    assert (Hhead : headIs opens (join "," (map text (x :: items)) +:+ String "]" rest) = true).
    { apply headIs_app. cbn [map]. apply join_head, text_opens.
      cbn [forallb] in Hj. by apply andb_true_iff in Hj as [? _]. }
    destruct (opens_not_closing _ Hhead) as [-> ->].
    apply elements_texts; [by apply (Forall_isJson id)|done|done|lia].
  - injection Ht as <-. cbn [isJson] in Hj.
    apply andb_true_iff in Hj as [Hord Hj].
    rewrite omap_memberText in * by done.
    rewrite append_String, append_Empty in *.
    cbn [String.length] in Hfuel. rewrite length_app in Hfuel. cbn [String.length] in Hfuel.
    rewrite append_String, append_assoc, append_String, append_Empty, value_object.
    destruct props as [|kv props]; [reflexivity|].
    assert (Hhead : starts dquote (join "," (map memberText (kv :: props)) +:+ String "}" rest) = true).
    { cbn [map]. destruct props; reflexivity. }
    assert (Hskip : skip_ws (join "," (map memberText (kv :: props)) +:+ String "}" rest)
                    = join "," (map memberText (kv :: props)) +:+ String "}" rest).
    { cbn [map]. destruct props; reflexivity. }
    rewrite Hskip.
    assert (Hopen : starts "}" (join "," (map memberText (kv :: props)) +:+ String "}" rest) = false).
    { cbn [map]. destruct props; reflexivity. }
    rewrite Hopen.
    apply members_texts; [by apply Forall_isJson|done|done|done|lia].
Qed.

(** [JSON.parse(JSON.stringify(v))] is [v] for every JSON value. *)
Lemma parse_stringify v :
  isJson v = true → ∃ t, stringify v = Some t ∧ parse t = Some v.
Proof.
  intros Hj. exists (text v). split; [by apply isJson_stringify|].
  unfold parse.
  rewrite <- (append_empty_r (text v)) at 2.
  rewrite (value_stringify v Hj (text v)); [reflexivity|by apply isJson_stringify|lia|reflexivity].
Qed.

End JsonRoundTrip.

Section NdjsonClaim.
Import Js JsVal Ndjson.

(** The values that the parser hands to [onMessage]: the read of
    [parsed.type] throws on [null], which is dropped like a malformed
    line. *)
Definition handedOn (vs : list JsValue) : list JsValue :=
  List.filter (fun v => negb (nullish v)) vs.

Lemma tryDeliver_text v :
  isJson v = true →
  tryDeliver (text v) = if nullish v then None else Some v.
Proof.
  intros Hv. destruct (parse_stringify v Hv) as (t & Ht & Hp).
  rewrite (isJson_stringify v Hv) in Ht. injection Ht as <-.
  unfold tryDeliver, field. rewrite Hp. by destruct (nullish v).
Qed.

Lemma text_tight v : isJson v = true → trim (text v) = text v ∧ text v ≠ "".
Proof.
  intros Hv.
  destruct (stringify_tight v (text v) Hv (isJson_stringify v Hv)) as [Hh Hl].
  by apply trim_tight.
Qed.

Lemma parseLine_text v :
  isJson v = true →
  parseLine (text v) = if nullish v then None else Some v.
Proof.
  intros Hv. unfold parseLine. destruct (text_tight v Hv) as [-> Hne].
  destruct (String.eqb_spec (text v) "") as [E|_]; [done|].
  by apply tryDeliver_text.
Qed.

Lemma text_notLF v : isJson v = true → allChars notLF (text v) = true.
Proof. intros Hv. eapply stringify_notLF; [done|]. by apply isJson_stringify. Qed.

Lemma serializeNdjson_text v :
  isJson v = true → serializeNdjson v = text v +:+ String LF "".
Proof.
  intros Hv. unfold serializeNdjson. by rewrite (isJson_stringify v Hv).
Qed.

Lemma omap_parseLine_text v lines :
  isJson v = true →
  omap parseLine (text v :: lines) = (handedOn [v] ++ omap parseLine lines)%list.
Proof.
  intros Hv. cbn [omap list_omap]. rewrite parseLine_text by done.
  unfold handedOn. cbn [List.filter]. by destruct (nullish v).
Qed.

Lemma handedOn_cons v vs : handedOn (v :: vs) = (handedOn [v] ++ handedOn vs)%list.
Proof. unfold handedOn. cbn [List.filter]. by destruct (nullish v). Qed.

Lemma feed_serialized vs :
  Forall (fun v => isJson v = true) vs →
  feed "" (concatStrings (map serializeNdjson vs)) = (handedOn vs, "").
Proof.
  rewrite feed_frame, append_Empty.
  induction 1 as [|v vs Hv _ IH]; [reflexivity|].
  cbn [map concatStrings foldr]. fold (concatStrings (map serializeNdjson vs)).
  set (rest := concatStrings (map serializeNdjson vs)) in *.
  rewrite serializeNdjson_text by done.
  rewrite append_assoc, append_String, append_Empty.
  rewrite frame_line by (by apply text_notLF).
  injection IH as IH1 IH2. cbn [fst snd].
  rewrite omap_parseLine_text by done.
  by rewrite IH1, IH2, <- handedOn_cons.
Qed.




(** Numbers with a fraction or an exponent, and objects whose keys are
    array indices, come back as they were sent; a text is read as
    [JSON.parse] reads it. *)
Example ndjson_numbers_and_keys :
  let half := JNum (Number.mk false "5" 0) in
  let big := JNum (Number.mk true "123" 25) in
  let small := JNum (Number.mk false "15" (-8)) in
  let obj := JObj [("2", half); ("10", big); ("b", small); ("a", JNull)] in
  text (JArr [half; big; small]) = "[0.5,-1.23e+24,1.5e-9]"
  ∧ isJson obj = true
  ∧ feedAll "" [serializeNdjson obj; serializeNdjson half] = ([obj; half], "")
  ∧ JsonParse.parse "[5e-1, -123e22, 0.0000000015, 100, 1E2, 0.10]"
    = Some (JArr [half; big; small; JNum (Number.of_Z 100); JNum (Number.of_Z 100);
                  JNum (Number.mk false "1" 0)])
  ∧ JsonParse.parse ("{" +:+ quote "b" +:+ ":1," +:+ quote "10" +:+ ":2,"
                     +:+ quote "2" +:+ ":3," +:+ quote "b" +:+ ":4}")
    = Some (JObj [("2", JNum (Number.of_Z 3)); ("10", JNum (Number.of_Z 2));
                  ("b", JNum (Number.of_Z 4))])
  ∧ JsonParse.parse "01" = None ∧ JsonParse.parse "1." = None
  ∧ JsonParse.parse ".5" = None ∧ JsonParse.parse "1e" = None
  ∧ JsonParse.parse "-" = None ∧ JsonParse.parse "+1" = None.
Proof. repeat split; reflexivity. Qed.

End NdjsonClaim.

(** ** The result handler *)

Section ResultHandler.
Import SessionManager.

Lemma updated_ids ident f rows :
  (∀ s, Session.id (f s) = Session.id s) →
  Session.id <$> updated ident f rows = Session.id <$> rows.
Proof.
  intros Hf. unfold updated. rewrite <- list_fmap_compose.
  apply list_fmap_ext. intros _ s _. cbn.
  by destruct (String.eqb (Session.id s) ident).
Qed.

Lemma find_updated ident f rows :
  (∀ s, Session.id (f s) = Session.id s) →
  List.find (fun s => String.eqb (Session.id s) ident) (updated ident f rows)
  = f <$> List.find (fun s => String.eqb (Session.id s) ident) rows.
Proof.
  intros Hf. induction rows as [|s rows IH]; [done|]. cbn.
  destruct (String.eqb (Session.id s) ident) eqn:E.
  - by rewrite Hf, E.
  - by rewrite E.
Qed.

Lemma updated_other ident f rows r :
  Session.id r ≠ ident →
  (∀ s, Session.id (f s) = Session.id s) →
  r ∈ updated ident f rows ↔ r ∈ rows.
Proof.
  intros Hr Hf. unfold updated. rewrite list_elem_of_fmap. split.
  - intros (s & -> & Hs). destruct (String.eqb_spec (Session.id s) ident) as [E|E]; [|done].
    destruct Hr. by rewrite Hf.
  - intros Hin. exists r. split; [|done].
    destruct (String.eqb_spec (Session.id r) ident); done.
Qed.

Lemma updated_twice ident f g rows :
  (∀ s, Session.id (f s) = Session.id s) →
  updated ident g (updated ident f rows) = updated ident (fun s => g (f s)) rows.
Proof.
  intros Hf. unfold updated. rewrite <- list_fmap_compose.
  apply list_fmap_ext. intros _ s _. cbn.
  destruct (String.eqb (Session.id s) ident) eqn:E; [by rewrite Hf, E|by rewrite E].
Qed.

Lemma selectSession_elem ident d s :
  selectSession ident d = Some s → ident ∈ Session.id <$> sessions d.
Proof.
  unfold selectSession. intros H. apply find_some in H as [Hin Heq].
  apply String.eqb_eq in Heq as <-. apply list_elem_of_fmap_2.
  by apply list_elem_of_In.
Qed.

Lemma setResult_id c i o t s : Session.id (setResult c i o t s) = Session.id s.
Proof. by destruct s. Qed.

Lemma setStatus_id st s : Session.id (setStatus st s) = Session.id s.
Proof. by destruct s. Qed.

Lemma setStatus_setResult c i o t s :
  setStatus SessionStatus.idle (setResult c i o t s) = setResult c i o t s.
Proof. by destruct s. Qed.

(** The values the handler takes from a result message. *)
Definition resultCost (data : CliResultMessage) : Q :=
  default 0%Q (total_cost_usd data).
Definition resultInput (data : CliResultMessage) : Z :=
  default 0%Z (usage data ≫= input_tokens).
Definition resultOutput (data : CliResultMessage) : Z :=
  default 0%Z (usage data ≫= output_tokens).

(** The store after the handler ran: the session row rewritten by the one
    UPDATE, and the transcript entry. *)
Definition afterResultDb (ident : string) (data : CliResultMessage) (w : World)
    (d : Database) : Database :=
  mkDatabase (projects d) (permission_rules d)
    (updated ident (setResult (resultCost data) (resultInput data)
                              (resultOutput data) (clock w)) (sessions d))
    (messages d ++ [Message.mk (uuid_of (uuid_counter w)) ident "inbound" "result" ""
                               (text data) (clock w)])
    (permission_log d).

Definition afterResult (ident : string) (data : CliResultMessage) (w : World)
    (d : Database) : World :=
  set_emitted (emitted w ++ [statusEvent ident SessionStatus.idle (clock w)])
    (set_uuid_counter (S (uuid_counter w))
       (set_db (Some (afterResultDb ident data w d)) w)).

Lemma onResult_run ident data w d :
  db w = Some d →
  ident ∈ Session.id <$> sessions d →
  onResult ident data w = (Normal tt, afterResult ident data w d).
Proof.
  intros Hdb Hin. unfold onResult.
  fold (resultCost data) (resultInput data) (resultOutput data).
  unfold bind at 1, now, gets.
  unfold bind at 1.
  erewrite execute_ok; [|exact Hdb|reflexivity].
  unfold bind at 1, storeMessage, bind at 1, generateId.
  unfold bind at 1, now, gets.
  erewrite execute_ok; [|by destruct w|].
  2:{ unfold insertMessage. cbn [Message.session_id with_sessions sessions].
      fold (updated ident (setResult (resultCost data) (resultInput data)
                             (resultOutput data) (clock w)) (sessions d)).
      rewrite updated_ids by apply setResult_id.
      rewrite bool_decide_eq_true_2 by done. reflexivity. }
  unfold updateStatus, bind at 1.
  erewrite execute_ok; [|by destruct w|reflexivity].
  unfold bind, now, gets, emit, modify, afterResult, afterResultDb.
  unfold set_emitted, set_uuid_counter, set_db, with_sessions. cbn.
  f_equal. f_equal. f_equal. f_equal.
  fold (updated ident (setResult (resultCost data) (resultInput data)
                         (resultOutput data) (clock w)) (sessions d)).
  fold (updated ident (setStatus SessionStatus.idle)
          (updated ident (setResult (resultCost data) (resultInput data)
                            (resultOutput data) (clock w)) (sessions d))).
  rewrite updated_twice by apply setResult_id.
  unfold updated. apply list_fmap_ext. intros _ s _. cbn.
  destruct (String.eqb (Session.id s) ident); [apply setStatus_setResult|done].
Qed.

End ResultHandler.

Section ResultClaims.
Import SessionManager.

Lemma afterResult_select ident data w d s :
  selectSession ident d = Some s →
  selectSession ident (afterResultDb ident data w d)
  = Some (setResult (resultCost data) (resultInput data) (resultOutput data)
                    (clock w) s).
Proof.
  intros Hs. unfold selectSession, afterResultDb. cbn [sessions].
  rewrite find_updated by apply setResult_id.
  unfold selectSession in Hs. by rewrite Hs.
Qed.

(** C2.  A result message that carries its cost and token counts makes
    the handler run one UPDATE that sets the three totals of the session
    row to the values of the message, adds one to [num_turns], sets
    [last_active_at] and sets the status to [idle]; the rest of the row
    and the rows of other sessions stay as they were, and the statements
    after that UPDATE leave the session table as the UPDATE made it.  A
    second result therefore leaves the totals of the second message, not
    a sum, and [num_turns] two above where it began. *)
Theorem onResult_replaces_totals
    (w : World) (d : Database) (s : Session.t) (ident : string)
    (cost : Q) (inTok outTok : Z) (txt : string)
    (cost2 : Q) (inTok2 outTok2 : Z) (txt2 : string) :
  db w = Some d →
  selectSession ident d = Some s →
  ∃ w1 d1 w2 d2 s2,
    onResult ident (mkResult (Some cost) (Some (mkUsage (Some inTok) (Some outTok))) txt) w
    = (Normal tt, w1)
    ∧ db w1 = Some d1
    ∧ updateSession ident (setResult cost inTok outTok (clock w)) d
      = Normal (with_sessions (sessions d1) d)
    ∧ selectSession ident d1
      = Some (Session.mk (Session.id s) (Session.project_id s) (Session.session_id s)
                (Session.name s) SessionStatus.idle (Session.model s)
                (Session.cli_pid s) (Session.ws_port s)
                cost inTok outTok (Session.num_turns s + 1)
                (Session.error_message s) (Session.created_at s) (clock w)
                (Session.closed_at s))
    ∧ (∀ r, Session.id r ≠ ident → r ∈ sessions d1 ↔ r ∈ sessions d)
    ∧ onResult ident
        (mkResult (Some cost2) (Some (mkUsage (Some inTok2) (Some outTok2))) txt2) w1
      = (Normal tt, w2)
    ∧ db w2 = Some d2
    ∧ selectSession ident d2 = Some s2
    ∧ Session.total_cost_usd s2 = cost2
    ∧ Session.total_input_tokens s2 = inTok2
    ∧ Session.total_output_tokens s2 = outTok2
    ∧ Session.num_turns s2 = (Session.num_turns s + 2)%Z
    ∧ Session.status s2 = SessionStatus.idle.
Proof.
  intros Hdb Hs.
  set (r1 := mkResult (Some cost) (Some (mkUsage (Some inTok) (Some outTok))) txt).
  set (r2 := mkResult (Some cost2) (Some (mkUsage (Some inTok2) (Some outTok2))) txt2).
  set (d1 := afterResultDb ident r1 w d).
  set (w1 := afterResult ident r1 w d).
  assert (Hs1 : selectSession ident d1
          = Some (setResult cost inTok outTok (clock w) s))
    by (by apply afterResult_select).
  assert (Hdb1 : db w1 = Some d1) by reflexivity.
  exists w1, d1, (afterResult ident r2 w1 d1), (afterResultDb ident r2 w1 d1),
         (setResult cost2 inTok2 outTok2 (clock w1)
            (setResult cost inTok outTok (clock w) s)).
  split; [apply onResult_run; [done|by eapply selectSession_elem]|].
  split; [done|]. split; [reflexivity|].
  split; [rewrite Hs1; by destruct s|].
  split; [intros r Hr; apply updated_other; [done|apply setResult_id]|].
  split; [apply onResult_run; [done|by eapply selectSession_elem]|].
  split; [reflexivity|].
  split; [by apply afterResult_select|].
  destruct s; cbn. repeat split; try done. lia.
Qed.

(** Scenario S3. *)
Lemma onResult_replaces_totals_witness :
  ∃ w1 d1 w2 d2 s2,
    onResult "S" (mkResult (Some 0.05%Q) (Some (mkUsage (Some 100%Z) (Some 50%Z))) "{}")
             sampleWorld = (Normal tt, w1)
    ∧ db w1 = Some d1
    ∧ updateSession "S" (setResult 0.05%Q 100 50 (clock sampleWorld)) sampleDatabase
      = Normal (with_sessions (sessions d1) sampleDatabase)
    ∧ selectSession "S" d1
      = Some (Session.mk "S" "P" "" "Swift Spark" SessionStatus.idle "" None
                (Some 9000%Z) 0.05%Q 100 50 (0 + 1) "" 0 1000 None)
    ∧ (∀ r, Session.id r ≠ "S" → r ∈ sessions d1 ↔ r ∈ sessions sampleDatabase)
    ∧ onResult "S" (mkResult (Some 0.12%Q) (Some (mkUsage (Some 240%Z) (Some 130%Z))) "{}")
               w1 = (Normal tt, w2)
    ∧ db w2 = Some d2
    ∧ selectSession "S" d2 = Some s2
    ∧ Session.total_cost_usd s2 = 0.12%Q
    ∧ Session.total_input_tokens s2 = 240%Z
    ∧ Session.total_output_tokens s2 = 130%Z
    ∧ Session.num_turns s2 = (0 + 2)%Z
    ∧ Session.status s2 = SessionStatus.idle.
Proof.
  apply (onResult_replaces_totals sampleWorld sampleDatabase sampleSession "S");
    reflexivity.
Defined.

(** C10.  A field the result message omits counts as 0: the handler
    overwrites the stored total with 0, and still adds one to
    [num_turns] and sets the status to [idle]. *)
Theorem onResult_missing_fields_are_zero
    (w : World) (d : Database) (s : Session.t) (ident : string)
    (data : CliResultMessage) :
  db w = Some d →
  selectSession ident d = Some s →
  ∃ w' d' s',
    onResult ident data w = (Normal tt, w')
    ∧ db w' = Some d'
    ∧ selectSession ident d' = Some s'
    ∧ (total_cost_usd data = None → Session.total_cost_usd s' = 0%Q)
    ∧ (usage data ≫= input_tokens = None → Session.total_input_tokens s' = 0%Z)
    ∧ (usage data ≫= output_tokens = None → Session.total_output_tokens s' = 0%Z)
    ∧ Session.num_turns s' = (Session.num_turns s + 1)%Z
    ∧ Session.status s' = SessionStatus.idle.
Proof.
  intros Hdb Hs.
  exists (afterResult ident data w d), (afterResultDb ident data w d),
         (setResult (resultCost data) (resultInput data) (resultOutput data)
                    (clock w) s).
  split; [apply onResult_run; [done|by eapply selectSession_elem]|].
  split; [reflexivity|]. split; [by apply afterResult_select|].
  unfold resultCost, resultInput, resultOutput.
  destruct s; cbn. repeat split; try done; by intros ->.
Qed.

(** A result without [total_cost_usd] and without [usage], received by a
    session whose totals are not zero. *)
Lemma onResult_missing_fields_are_zero_witness :
  let s := Session.mk "S" "P" "" "Swift Spark" SessionStatus.active "" None
             (Some 9000%Z) 0.05%Q 100 50 1 "" 0 0 None in
  let d := mkDatabase ["P"] [] [s] [] [] in
  let w := set_db (Some d) sampleWorld in
  ∃ w' d' s',
    onResult "S" (mkResult None None "{}") w = (Normal tt, w')
    ∧ db w' = Some d'
    ∧ selectSession "S" d' = Some s'
    ∧ (total_cost_usd (mkResult None None "{}") = None → Session.total_cost_usd s' = 0%Q)
    ∧ (usage (mkResult None None "{}") ≫= input_tokens = None →
       Session.total_input_tokens s' = 0%Z)
    ∧ (usage (mkResult None None "{}") ≫= output_tokens = None →
       Session.total_output_tokens s' = 0%Z)
    ∧ Session.num_turns s' = (1 + 1)%Z
    ∧ Session.status s' = SessionStatus.idle.
Proof.
  intros s d w.
  apply (onResult_missing_fields_are_zero w d s "S"); reflexivity.
Defined.

End ResultClaims.

(** ** Process exit *)

Section ProcessExit.
Import SessionManager.

(** What [cli.getStderr()] returns for a session in a world. *)
Definition capturedStderr (w : World) (ident : string) : string :=
  match clis w !! ident with
  | Some c => Js.trim (LaunchedCli.stderrBuf c)
  | None => ""
  end.

(** The [stderr] that [handleProcessExit] works with: the captured text
    when the session is tracked, the empty string otherwise. *)
Definition exitStderr (w : World) (ident : string) : string :=
  match activeSessions w !! ident with
  | Some _ => capturedStderr w ident
  | None => ""
  end.

Ltac run_monad :=
  unfold handleProcessExit, connectFailureCleanup, waitForConnect, awaitConnect,
    try_catch, bind, releasePort, modify, gets, getStderr, bridgeClose, cliKill,
    getById, query, getDb, ret, now, execute, lift, emit, throw, updateSession,
    set_db, set_uuid_counter, set_activeSessions, set_usedPorts, set_bridges,
    set_clis, set_emitted, exitStderr, capturedStderr in *.

Lemma handleProcessExit_active w d s ident port :
  db w = Some d →
  selectSession ident d = Some s →
  Session.status s = SessionStatus.active →
  ∃ w',
    handleProcessExit ident port w = (Normal tt, w')
    ∧ db w' = Some (with_sessions
                      (updated ident
                         (setEnded SessionStatus.error
                            (or_else (exitStderr w ident)
                               "CLI process exited unexpectedly during active turn")
                            (clock w))
                         (sessions d)) d)
    ∧ emitted w' = emitted w ++
        [errorEvent ident "unexpected_exit"
           (or_else (exitStderr w ident)
              "CLI process exited unexpectedly during active turn")
           (clock w)]
    ∧ usedPorts w' = usedPorts w ∖ {[port]}
    ∧ activeSessions w' !! ident = None.
Proof.
  intros Hdb Hs Hst.
  destruct w as [cfg d0 n t act used br cl em]. cbn in Hdb. subst d0.
  run_monad. cbn -[difference selectSession].
  destruct (act !! ident) as [a|] eqn:Ha; cbn -[difference selectSession];
    rewrite Hs; cbn -[difference selectSession];
    rewrite Hst; cbn -[difference selectSession].
  - destruct (cl !! ident) as [c|]; cbn -[difference selectSession];
      (eexists; split; [reflexivity|]);
      cbn -[difference selectSession]; repeat split; try done;
      apply lookup_delete_eq.
  - eexists; split; [reflexivity|]. cbn -[difference selectSession].
    repeat split; done.
Qed.

(** The world after the subprocess wrote [chunks] to its standard
    error. *)
Definition afterStderr (ident : string) (chunks : list string) (w : World) : World :=
  set_clis (alter (fun c => LaunchedCli.mk (LaunchedCli.pid c)
                              (foldl onStderrData (LaunchedCli.stderrBuf c) chunks)
                              (LaunchedCli.killed c))
                  ident (clis w)) w.

(** The error the wait rejects with when the subprocess exits first. *)
Definition exitedError (code : option Z) : JsError :=
  Error ("CLI process exited with code " +:+ show_code code
         +:+ " before connecting to bridge").

Lemma setEnded_setEnded st msg t st' msg' t' s :
  setEnded st msg t (setEnded st' msg' t' s) = setEnded st msg t s.
Proof. by destruct s. Qed.

Lemma setEnded_id st msg t s : Session.id (setEnded st msg t s) = Session.id s.
Proof. by destruct s. Qed.

Lemma selectSession_updated ident f d s :
  (∀ x, Session.id (f x) = Session.id x) →
  selectSession ident d = Some s →
  selectSession ident (with_sessions (updated ident f (sessions d)) d) = Some (f s).
Proof.
  intros Hf Hs. unfold selectSession in *. cbn [with_sessions sessions].
  by rewrite find_updated, Hs.
Qed.

(** The event [handleProcessExit] emits for a session that never became
    active: none when nothing was captured from the standard error. *)
Definition exitBeforeConnectEvents (ident stderr : string) (t : Z)
    : list ConduitEvent.t :=
  if negb (String.eqb stderr "")
  then [errorEvent ident "cli_exited_before_connect" stderr t]
  else [].

Lemma or_else_empty a : or_else a "" = a.
Proof. by destruct a. Qed.

Lemma waitForConnect_exit w d s ident port env code :
  db w = Some d →
  selectSession ident d = Some s →
  Session.status s = SessionStatus.starting →
  is_Some (activeSessions w !! ident) →
  outcome env = ExitedBeforeConnect code →
  ∃ w' d',
    waitForConnect ident port env w = (Throw (exitedError code), w')
    ∧ db w' = Some d'
    ∧ selectSession ident d'
      = Some (setEnded SessionStatus.error
                (or_else (capturedStderr (afterStderr ident (stderr_chunks env) w) ident)
                         (message_of (exitedError code)))
                (clock w) s)
    ∧ emitted w' = emitted w ++
        exitBeforeConnectEvents ident
          (capturedStderr (afterStderr ident (stderr_chunks env) w) ident) (clock w) ++
        [errorEvent ident "cli_failed_to_connect"
           (or_else (capturedStderr (afterStderr ident (stderr_chunks env) w) ident)
                    (message_of (exitedError code)))
           (clock w)]
    ∧ (port ∉ usedPorts w')
    ∧ activeSessions w' !! ident = None.
Proof.
  intros Hdb Hs Hst [a Ha] Hout.
  destruct w as [cfg d0 n t act used br cl em]. cbn in Hdb, Ha. subst d0.
  unfold afterStderr, exitedError. run_monad. rewrite Hout.
  cbn -[difference selectSession updated].
  rewrite Ha. cbn -[difference selectSession updated].
  rewrite Hs. cbn -[difference selectSession updated].
  rewrite Hst. cbn -[difference selectSession updated].
  set (stderr := match alter _ ident cl !! ident with
                 | Some c => Js.trim (LaunchedCli.stderrBuf c)
                 | None => ""
                 end).
  assert (Hsel : ∀ st1 msg1 msg d0,
    selectSession ident
      (with_sessions
         (updated ident (setEnded SessionStatus.error msg t)
            (updated ident (setEnded st1 msg1 t) (sessions d))) d0)
    = Some (setEnded SessionStatus.error msg t s)).
  { intros. unfold selectSession in *. cbn [with_sessions sessions].
    rewrite updated_twice by apply setEnded_id.
    rewrite find_updated by (intros; by rewrite !setEnded_id).
    rewrite Hs. cbn [fmap option_fmap option_map]. by rewrite setEnded_setEnded. }
  unfold exitBeforeConnectEvents.
  destruct (negb (stderr =? "")%string) eqn:E;
    cbn -[difference selectSession updated];
    (eexists _, _; split; [reflexivity|]);
    cbn -[difference selectSession updated];
    (split; [reflexivity|]); (split; [apply Hsel|]);
    (split; [rewrite <- ?app_assoc, ?or_else_empty; reflexivity|]);
    (split; [rewrite elem_of_difference, elem_of_singleton; tauto
            |apply lookup_delete_eq]).
Qed.

End ProcessExit.

Section ProcessExitClaim.
Import SessionManager.

(** C9 as the code has it.  A subprocess that exits while its session is
    [active], or before the bridge connection of a [starting] session is
    established, leaves the session row in status [error] with
    [closed_at] set, and a [session.error] event is emitted with reason
    [unexpected_exit], respectively [cli_failed_to_connect] (after an
    event with reason [cli_exited_before_connect] when something was
    captured from the standard error).  The [error_message] is the
    captured standard error when that is not empty; when it is empty the
    message is a fixed text: the one about an exit during an active turn,
    respectively the message of the connect error. *)
Theorem process_exit_reports_error :
  (∀ w d s ident port,
     db w = Some d →
     selectSession ident d = Some s →
     Session.status s = SessionStatus.active →
     ∃ w' d' s',
       handleProcessExit ident port w = (Normal tt, w')
       ∧ db w' = Some d'
       ∧ selectSession ident d' = Some s'
       ∧ Session.status s' = SessionStatus.error
       ∧ Session.error_message s'
         = or_else (exitStderr w ident)
                   "CLI process exited unexpectedly during active turn"
       ∧ Session.closed_at s' = Some (clock w)
       ∧ last (emitted w')
         = Some (errorEvent ident "unexpected_exit" (Session.error_message s') (clock w)))
  ∧ (∀ w d s ident port env code,
       db w = Some d →
       selectSession ident d = Some s →
       Session.status s = SessionStatus.starting →
       is_Some (activeSessions w !! ident) →
       outcome env = ExitedBeforeConnect code →
       ∃ w' d' s',
         waitForConnect ident port env w = (Throw (exitedError code), w')
         ∧ db w' = Some d'
         ∧ selectSession ident d' = Some s'
         ∧ Session.status s' = SessionStatus.error
         ∧ Session.error_message s'
           = or_else (capturedStderr (afterStderr ident (stderr_chunks env) w) ident)
                     (message_of (exitedError code))
         ∧ Session.closed_at s' = Some (clock w)
         ∧ emitted w' = emitted w ++
             exitBeforeConnectEvents ident
               (capturedStderr (afterStderr ident (stderr_chunks env) w) ident)
               (clock w) ++
             [errorEvent ident "cli_failed_to_connect"
                         (Session.error_message s') (clock w)]).
Proof.
  split.
  - intros w d s ident port Hdb Hs Hst.
    destruct (handleProcessExit_active w d s ident port Hdb Hs Hst)
      as (w' & Hrun & Hdb' & Hem & _).
    eexists w', _, _. split; [exact Hrun|]. split; [exact Hdb'|].
    split; [by apply selectSession_updated; [apply setEnded_id|]|].
    rewrite Hem, last_snoc. by destruct s.
  - intros w d s ident port env code Hdb Hs Hst Ha Hout.
    destruct (waitForConnect_exit w d s ident port env code Hdb Hs Hst Ha Hout)
      as (w' & d' & Hrun & Hdb' & Hsel & Hem & _).
    eexists w', d', _. split; [exact Hrun|]. split; [exact Hdb'|].
    split; [exact Hsel|]. rewrite Hem. by destruct s.
Qed.

(** A session in the middle of a turn whose subprocess wrote to its
    standard error, and a session that has just been launched. *)
Definition busyWorld : World :=
  mkWorld sampleConfig
    (Some (mkDatabase ["P"] []
             [Session.mk "S" "P" "cli-1" "Swift Spark" SessionStatus.active "" (Some 4711%Z)
                         (Some 9000%Z) 0 0 0 0 "" 0 0 None] [] []))
    0 1000 {["S" := ActiveSession.mk "P" (Some "cli-1")]} {[9000%Z]}
    {["S" := BridgeServer.mk 9000 false true []]}
    {["S" := LaunchedCli.mk 4711 "boom " false]} [].

Definition launchedWorld : World :=
  mkWorld sampleConfig
    (Some (mkDatabase ["P"] []
             [Session.mk "S" "P" "" "Swift Spark" SessionStatus.starting "" (Some 4711%Z)
                         (Some 9000%Z) 0 0 0 0 "" 0 0 None] [] []))
    0 1000 {["S" := ActiveSession.mk "P" None]} {[9000%Z]}
    {["S" := BridgeServer.mk 9000 false false []]}
    {["S" := LaunchedCli.mk 4711 "" false]} [].

Lemma process_exit_reports_error_witness :
  (∃ w' d' s',
     handleProcessExit "S" 9000 busyWorld = (Normal tt, w')
     ∧ db w' = Some d'
     ∧ selectSession "S" d' = Some s'
     ∧ Session.status s' = SessionStatus.error
     ∧ Session.error_message s'
       = or_else (exitStderr busyWorld "S")
                 "CLI process exited unexpectedly during active turn"
     ∧ Session.closed_at s' = Some (clock busyWorld)
     ∧ last (emitted w')
       = Some (errorEvent "S" "unexpected_exit" (Session.error_message s')
                          (clock busyWorld)))
  ∧ (∃ w' d' s',
       waitForConnect "S" 9000 (mkEnv None (Some 4711%Z) ["boom "]
                                      (ExitedBeforeConnect (Some 1%Z))) launchedWorld
       = (Throw (exitedError (Some 1%Z)), w')
       ∧ db w' = Some d'
       ∧ selectSession "S" d' = Some s'
       ∧ Session.status s' = SessionStatus.error
       ∧ Session.error_message s'
         = or_else (capturedStderr (afterStderr "S" ["boom "] launchedWorld) "S")
                   (message_of (exitedError (Some 1%Z)))
       ∧ Session.closed_at s' = Some (clock launchedWorld)
       ∧ emitted w' = emitted launchedWorld ++
           exitBeforeConnectEvents "S"
             (capturedStderr (afterStderr "S" ["boom "] launchedWorld) "S")
             (clock launchedWorld) ++
           [errorEvent "S" "cli_failed_to_connect" (Session.error_message s')
                       (clock launchedWorld)]).
Proof.
  split.
  - eapply (proj1 process_exit_reports_error); reflexivity.
  - eapply (proj2 process_exit_reports_error); try reflexivity.
    vm_compute. eauto.
Defined.

(** C9 as stated fails when nothing was captured from the standard error
    of the subprocess: the captured content is empty, and the handler
    stores a fixed message instead. *)
Lemma process_exit_empty_stderr_message :
  let w := set_clis {["S" := LaunchedCli.mk 4711 "" false]} busyWorld in
  let '(r, w') := handleProcessExit "S" 9000 w in
  exitStderr w "S" = ""
  ∧ r = Normal tt
  ∧ Session.status <$> (db w' ≫= selectSession "S") = Some SessionStatus.error
  ∧ Session.error_message <$> (db w' ≫= selectSession "S")
    = Some "CLI process exited unexpectedly during active turn".
Proof. vm_compute. repeat split; reflexivity. Qed.

End ProcessExitClaim.

(** ** Failures of session creation *)

Section CreateFailures.
Import SessionManager.

(** A store with one project and no session; every port is free. *)
Definition freshWorld : World :=
  mkWorld sampleConfig (Some (mkDatabase ["P"] [] [] [] [])) 0 1000 ∅ ∅ ∅ ∅ [].

Definition sampleProject : Project := mkProject "/srv/p" None None "" "".

Definition noInput : CreateSessionInput := mkInput None None None None.

(** The port pool of the specification: the allocated ports are the
    [ws_port] values of the sessions that are not terminal. *)
Definition portPoolClosed (w : World) : Prop :=
  ∃ d, db w = Some d ∧ elements (usedPorts w) ≡ₚ livePorts d.

(** The mode that [create] validates. *)
Definition rawModeOf (project : Project) (input : CreateSessionInput) : string :=
  default (default "default" (default_permission_mode project)) (permission_mode input).

(** A rejected permission mode: the port taken just before the check
    stays allocated, and nothing else of the world changes but the id
    counter. *)
Lemma create_invalid_mode_keeps_port w projectId project input env port :
  size (activeSessions w) < maxSessionsGlobal (config w) →
  firstFree (usedPorts w) (wsPortRangeStart (config w))
    (Z.to_nat (wsPortRangeEnd (config w) - wsPortRangeStart (config w) + 1))
  = Some port →
  rawModeOf project input ≠ "" →
  rawModeOf project input ∉ VALID_PERMISSION_MODES →
  ∃ m,
    create projectId project input env w
    = (Throw (ValidationError m),
       set_usedPorts ({[port]} ∪ usedPorts w)
         (set_uuid_counter (S (uuid_counter w)) w)).
Proof.
  intros Hsize Hport Hne Hinv. unfold create.
  unfold bind at 1, gets. unfold bind at 1.
  replace (Nat.leb _ _) with false by (symmetry; apply Nat.leb_gt; lia).
  unfold bind at 1, generateId. unfold bind at 1, allocatePort.
  cbn [usedPorts config set_uuid_counter]. rewrite Hport.
  fold (rawModeOf project input).
  replace (String.eqb (rawModeOf project input) "") with false
    by (symmetry; by apply String.eqb_neq).
  rewrite bool_decide_eq_false_2 by done. cbn [negb andb].
  unfold throw. eexists. reflexivity.
Qed.

(** C3, evaluated where the code departs from it.  A rejected permission
    mode is thrown after [allocatePort()] and outside any clean-up: port
    9000 stays in the pool although no session holds it.  A bridge that
    fails to bind rejects outside any clean-up as well: port 9000 stays in
    the pool and the session row stays in status [starting].  The
    [catch] block around the launch shows the clean-up the other two
    paths miss: after a spawn failure the port is free, the bridge is
    closed and the row is in status [error]. *)
Theorem create_failure_leaves_port_allocated :
  portPoolClosed freshWorld
  ∧ (let '(r, w') := create "P" sampleProject (mkInput None None (Some "yolo") None)
                            (mkEnv None (Some 4711%Z) [] Connected) freshWorld in
     is_normal r = false
     ∧ elements (usedPorts w') = [9000%Z]
     ∧ livePorts <$> db w' = Some []
     ∧ ¬ portPoolClosed w')
  ∧ (let '(r, w') := create "P" sampleProject noInput
                            (mkEnv (Some (Error "listen EADDRINUSE")) (Some 4711%Z) []
                                   Connected) freshWorld in
     is_normal r = false
     ∧ elements (usedPorts w') = [9000%Z]
     ∧ Session.status <$> (db w' ≫= selectSession "uuid-0")
       = Some SessionStatus.starting)
  ∧ (let '(r, w') := create "P" sampleProject noInput
                            (mkEnv None None [] Connected) freshWorld in
     is_normal r = false
     ∧ elements (usedPorts w') = []
     ∧ BridgeServer.closed <$> bridges w' !! "uuid-0" = Some true
     ∧ Session.status <$> (db w' ≫= selectSession "uuid-0")
       = Some SessionStatus.error).
Proof.
  split; [|split; [|split]].
  - eexists. split; [reflexivity|]. vm_compute. constructor.
  - vm_compute. repeat split; try reflexivity.
    intros (d & Hd & Hperm). injection Hd as <-.
    apply Permutation_length in Hperm. discriminate Hperm.
  - vm_compute. repeat split; reflexivity.
  - vm_compute. repeat split; reflexivity.
Qed.

(** The clean-up of the connect timeout, and the port pool afterwards:
    scenario S4. *)
Example create_timeout_releases_port :
  let '(r, w') := create "P" sampleProject noInput
                         (mkEnv None (Some 4711%Z) [] TimedOut) freshWorld in
  r = Throw (Error "CLI failed to connect to bridge within 15s")
  ∧ elements (usedPorts w') = []
  ∧ BridgeServer.closed <$> bridges w' !! "uuid-0" = Some true
  ∧ LaunchedCli.killed <$> clis w' !! "uuid-0" = Some true
  ∧ Session.status <$> (db w' ≫= selectSession "uuid-0") = Some SessionStatus.error
  ∧ (let '(r2, w2) := create "P" sampleProject noInput
                             (mkEnv None (Some 4712%Z) [] Connected) w' in
     match r2 with
     | Normal (Some s) => Session.ws_port s
     | _ => None
     end = Some 9000%Z).
Proof. vm_compute. repeat split; reflexivity. Qed.

(** The exit handler registered by [cli.onExit] stays registered after a
    clean-up.  When the killed subprocess of the timed-out session exits
    after the next session has taken port 9000, the handler releases the
    port of that live session. *)
Example stale_exit_handler_releases_live_port :
  let '(_, w1) := create "P" sampleProject noInput
                         (mkEnv None (Some 4711%Z) [] TimedOut) freshWorld in
  let '(_, w2) := create "P" sampleProject noInput
                         (mkEnv None (Some 4712%Z) [] Connected) w1 in
  let '(_, w3) := handleProcessExit "uuid-0" 9000 w2 in
  elements (usedPorts w2) = [9000%Z]
  ∧ livePorts <$> db w2 = Some [9000%Z]
  ∧ elements (usedPorts w3) = []
  ∧ livePorts <$> db w3 = Some [9000%Z].
Proof. vm_compute. repeat split; reflexivity. Qed.

End CreateFailures.

(** * Further properties of the code *)

(** ** Globs as the matcher reads them *)

Section GlobSemantics.
Import Js PermissionEngine.

(** Glob matching in plain words: [*] stands for any run of characters
    that holds no line terminator, every other character for itself. *)
Fixpoint globMatch (p v : string) : bool :=
  match p with
  | EmptyString => match v with EmptyString => true | String _ _ => false end
  | String c p' =>
      if Ascii.eqb c "*" then
        (fix star (v : string) : bool :=
           globMatch p' v ||
           match v with
           | EmptyString => false
           | String a v' => negb (is_line_terminator a) && star v'
           end) v
      else
        match v with
        | EmptyString => false
        | String a v' => Ascii.eqb c a && globMatch p' v'
        end
  end.

(** The regular expression a pattern without [?] compiles to. *)
Definition globTerms (p : string) : list term :=
  map (fun c => if Ascii.eqb c "*" then TAtom Dot Star true else TAtom (Lit c) One true)
      (list_ascii_of_string p).

Lemma parse_glob p : ∀ acc st,
  (∀ c, c ∈ list_ascii_of_string p → c ≠ "?"%char) →
  parse acc st (stars (escape p) +:+ "$") = Compiled (rev acc ++ globTerms p ++ [TEnd]).
Proof.
  induction p as [|c p IH]; intros acc st Hp.
  - reflexivity.
  - assert (Hq : c ≠ "?"%char) by (apply Hp; cbn; left).
    assert (Hp' : ∀ x, x ∈ list_ascii_of_string p → x ≠ "?"%char)
      by (intros x Hx; apply Hp; cbn; by right).
    destruct (Ascii.eqb_spec c "*") as [->|Hs].
    + change (stars (escape (String "*" p)))
        with (String "." (String "*" (stars (escape p)))).
      rewrite !append_String.
      change (parse acc st (String "." (String "*" (stars (escape p) +:+ "$"))))
        with (parse (TAtom Dot Star true :: acc) PQuant (stars (escape p) +:+ "$")).
      rewrite IH by done. cbn. by rewrite <- app_assoc.
    + cbn [escape]. destruct (is_escaped c) eqn:He.
      * cbn [stars]. replace (Ascii.eqb backslash "*") with false by reflexivity.
        rewrite (escaped_not_star c He). rewrite !append_String.
        rewrite parse_escaped by done. rewrite IH by done.
        unfold globTerms. cbn [list_ascii_of_string map].
        replace (Ascii.eqb c "*") with false by (symmetry; by apply Ascii.eqb_neq).
        cbn. by rewrite <- app_assoc.
      * cbn [stars]. replace (Ascii.eqb c "*") with false
          by (symmetry; by apply Ascii.eqb_neq).
        rewrite append_String. rewrite parse_unescaped by done. rewrite IH by done.
        unfold globTerms. cbn [list_ascii_of_string map].
        replace (Ascii.eqb c "*") with false by (symmetry; by apply Ascii.eqb_neq).
        cbn. by rewrite <- app_assoc.
Qed.

Lemma match_here_glob p : ∀ bos v,
  match_here (globTerms p ++ [TEnd]) bos v = globMatch p v.
Proof.
  induction p as [|c p IH]; intros bos v.
  - destruct v; reflexivity.
  - unfold globTerms. cbn [list_ascii_of_string map app]. fold (globTerms p).
    cbn [globMatch]. destruct (Ascii.eqb c "*").
    + cbn [match_here]. revert bos.
      induction v as [|a v IHv]; intros bos.
      * by rewrite IH.
      * rewrite IH. f_equal. cbn [atom_matches]. f_equal. apply IHv.
    + destruct v as [|a v]; [reflexivity|]. cbn [match_here atom_matches].
      by rewrite IH.
Qed.

(** X1.  A pattern that holds no [?] never makes [matchGlob] throw, and
    what it matches is plain.  When the text between the first colon of
    the pattern and its second colon, or its end when there is no second
    colon, is exactly [*], the pattern matches the values that start with
    the text before the first colon, and what follows the second colon is
    not looked at.  Any other pattern must match the whole value, [*]
    standing for any run of characters without a line terminator and
    every other character, regular-expression syntax included, for
    itself. *)
Theorem matchGlob_is_glob (pattern value : string) :
  (∀ c, c ∈ list_ascii_of_string pattern → c ≠ "?"%char) →
  matchGlob pattern value
  = Normal (match afterFirstColon pattern with
            | Some r =>
                if String.eqb (beforeFirstColon r) "*"
                then startsWith value (beforeFirstColon pattern)
                else globMatch pattern value
            | None => globMatch pattern value
            end).
Proof.
  intros Hp. unfold matchGlob. rewrite prefixPattern_spec.
  assert (Hglob : globTest pattern value = Normal (globMatch pattern value)).
  { unfold globTest, globSource, RegExp.
    rewrite append_String, append_Empty. cbn [parse].
    replace (Ascii.eqb "^" "^") with true by reflexivity.
    rewrite parse_glob by done. cbn [rev app].
    by rewrite test_anchored, match_here_glob. }
  destruct (afterFirstColon pattern) as [r|]; [|exact Hglob].
  by destruct (String.eqb (beforeFirstColon r) "*").
Qed.

Lemma matchGlob_is_glob_witness :
  matchGlob "src/*.(ts|js)" "src/a.(ts|js)" = Normal true
  ∧ matchGlob "a:b:*" "a:bX" = Normal false
  ∧ matchGlob "a:b:*" "a:b:X" = Normal true
  ∧ matchGlob "a:*:b" "abc" = Normal true.
Proof.
  assert (H : ∀ pattern : string,
    bool_decide (Forall (fun c => c ≠ "?"%char) (list_ascii_of_string pattern)) = true →
    ∀ c, c ∈ list_ascii_of_string pattern → c ≠ "?"%char).
  { intros pattern Hd c Hc. apply bool_decide_eq_true in Hd.
    by eapply Forall_forall in Hd. }
  split; [|split; [|split]].
  - apply (matchGlob_is_glob "src/*.(ts|js)" "src/a.(ts|js)"), H. reflexivity.
  - apply (matchGlob_is_glob "a:b:*" "a:bX"), H. reflexivity.
  - apply (matchGlob_is_glob "a:b:*" "a:b:X"), H. reflexivity.
  - apply (matchGlob_is_glob "a:*:b" "abc"), H. reflexivity.
Defined.

End GlobSemantics.

(** ** Rule creation and deletion *)

Section RuleCrud.
Import PermissionEngine.

Lemma find_app_fresh {A} (f : A → bool) l x :
  (∀ y, y ∈ l → f y = false) → f x = true → List.find f (l ++ [x]) = Some x.
Proof.
  induction l as [|y l IH]; intros Hl Hx; cbn; [by rewrite Hx|].
  rewrite (Hl y) by left. apply IH; [|done]. intros z Hz. apply Hl. by right.
Qed.

Lemma selectRule_fresh ident rule d :
  PermissionRule.id rule = ident →
  ident ∉ PermissionRule.id <$> permission_rules d →
  selectRule ident (with_rules (permission_rules d ++ [rule]) d) = Some rule.
Proof.
  intros Hid Hfresh. unfold selectRule. cbn [with_rules permission_rules].
  apply find_app_fresh; [|by apply String.eqb_eq].
  intros y Hy. apply String.eqb_neq. intros E. apply Hfresh. rewrite <- E.
  by apply list_elem_of_fmap_2.
Qed.

(** The row [createRule] stores for an input that names a tool and a
    behavior and leaves the pattern and the priority out. *)
Definition defaultRule (w : World) (projectId : option string)
    (tool behavior : string) : PermissionRule.t :=
  PermissionRule.mk (uuid_of (uuid_counter w)) projectId tool (Some "") behavior
                    (SInt 0) (clock w).

Lemma createRule_run (w : World) (d : Database) (projectId : option string)
    (input : list (string * JsValue)) (tool behavior : string) :
  db w = Some d →
  uuid_of (uuid_counter w) ∉ PermissionRule.id <$> permission_rules d →
  match projectId with Some pid => pid ∈ projects d | None => True end →
  JsVal.get input "tool_name" = JStr tool →
  JsVal.get input "behavior" = JStr behavior →
  JsVal.nullish (JsVal.get input "rule_content") = true →
  JsVal.nullish (JsVal.get input "priority") = true →
  createRule projectId input w
  = (Normal (Some (defaultRule w projectId tool behavior)),
     set_db (Some (with_rules (permission_rules d ++
                               [defaultRule w projectId tool behavior]) d))
            (set_uuid_counter (S (uuid_counter w)) w)).
Proof.
  intros Hdb Hfresh Hproj Htool Hbeh Hrc Hpr.
  unfold createRule, bind at 1, generateId. unfold bind at 1, now, gets.
  unfold bind. erewrite execute_ok; [|by destruct w|].
  2:{ unfold insertRule. rewrite Htool, Hbeh. unfold JsVal.coalesce. rewrite Hrc, Hpr.
      cbn [Sql.bind Sql.text_affinity].
      rewrite bool_decide_eq_false_2 by done.
      destruct projectId as [pid|]; [rewrite bool_decide_eq_true_2 by done|];
        reflexivity. }
  erewrite query_ok; [|reflexivity].
  rewrite selectRule_fresh; done.
Qed.

(** The rules a project's listing, or the global listing, returns. *)
Definition listed (scope : option string) : M (list PermissionRule.t) :=
  match scope with
  | Some pid => getRulesForProject pid
  | None => getGlobalRules
  end.

(** X2.  On an initialised store, [createRule] with an input that names
    a tool and a behavior and leaves out the pattern and the priority
    stores one new row under a fresh id, with the empty pattern, priority
    0 and the given scope, and returns that row; the listing of the scope
    (the project's rules, or the global rules) then holds the new row and
    the rows of that scope that were there before, nothing else. *)
Theorem createRule_stores_rule_with_defaults
    (w : World) (d : Database) (projectId : option string)
    (input : list (string * JsValue)) (tool behavior : string) :
  db w = Some d →
  uuid_of (uuid_counter w) ∉ PermissionRule.id <$> permission_rules d →
  match projectId with Some pid => pid ∈ projects d | None => True end →
  JsVal.get input "tool_name" = JStr tool →
  JsVal.get input "behavior" = JStr behavior →
  JsVal.nullish (JsVal.get input "rule_content") = true →
  JsVal.nullish (JsVal.get input "priority") = true →
  ∃ w' rules,
    createRule projectId input w
    = (Normal (Some (defaultRule w projectId tool behavior)), w')
    ∧ db w' = Some (with_rules (permission_rules d ++
                                [defaultRule w projectId tool behavior]) d)
    ∧ listed projectId w' = (Normal rules, w')
    ∧ ∀ r, r ∈ rules ↔ (r = defaultRule w projectId tool behavior
                        ∨ (r ∈ permission_rules d
                           ∧ PermissionRule.project_id r = projectId)).
Proof.
  intros Hdb Hfresh Hproj Htool Hbeh Hrc Hpr.
  pose proof (createRule_run w d projectId input tool behavior
                Hdb Hfresh Hproj Htool Hbeh Hrc Hpr) as Hrun.
  set (rule := defaultRule w projectId tool behavior) in *.
  set (d' := with_rules (permission_rules d ++ [rule]) d) in *.
  set (w1 := set_db (Some d') (set_uuid_counter (S (uuid_counter w)) w)) in *.
  assert (Hd' : ∀ r, r ∈ permission_rules d' ↔ r ∈ permission_rules d ∨ r = rule).
  { intros r. unfold d'. cbn [with_rules permission_rules].
    by rewrite elem_of_app, list_elem_of_singleton. }
  assert (Hscope : PermissionRule.project_id rule = projectId) by reflexivity.
  destruct projectId as [pid|];
    (eexists w1, _; split; [exact Hrun|]; split; [reflexivity|]).
  - split; [unfold listed, getRulesForProject; by erewrite query_ok|].
    intros r. rewrite elem_of_order_by_desc, list_elem_of_filter, Hd'.
    split; [intros [Hs [Hr| ->]]; auto|].
    intros [->|[Hr Hs]]; (split; [done|]); [by right|by left].
  - split; [unfold listed, getGlobalRules; by erewrite query_ok|].
    intros r. rewrite elem_of_order_by_desc, list_elem_of_filter, Hd'.
    split; [intros [Hs [Hr| ->]]; auto|].
    intros [->|[Hr Hs]]; (split; [done|]); [by right|by left].
Qed.

Lemma createRule_stores_rule_with_defaults_witness :
  ∃ w' rules,
    createRule (Some "P") [("tool_name", JStr "Write"); ("behavior", JStr "deny")]
               sampleWorld
    = (Normal (Some (defaultRule sampleWorld (Some "P") "Write" "deny")), w')
    ∧ db w' = Some (with_rules (permission_rules sampleDatabase ++
                                [defaultRule sampleWorld (Some "P") "Write" "deny"])
                               sampleDatabase)
    ∧ listed (Some "P") w' = (Normal rules, w')
    ∧ ∀ r, r ∈ rules ↔ (r = defaultRule sampleWorld (Some "P") "Write" "deny"
                        ∨ (r ∈ permission_rules sampleDatabase
                           ∧ PermissionRule.project_id r = Some "P")).
Proof.
  apply (createRule_stores_rule_with_defaults sampleWorld sampleDatabase (Some "P")
           [("tool_name", JStr "Write"); ("behavior", JStr "deny")] "Write" "deny").
  - reflexivity.
  - by_evaluation.
  - by_evaluation.
  - reflexivity.
  - reflexivity.
  - reflexivity.
  - reflexivity.
Defined.

(** X3.  A rule without a tool name or without a behavior is never
    stored: when [tool_name] or [behavior] is missing or [null] in the
    input, [createRule] throws, whatever else the input holds and whatever
    the state, and the store is as it was. *)
Theorem createRule_requires_tool_and_behavior
    (w : World) (projectId : option string) (input : list (string * JsValue)) :
  JsVal.nullish (JsVal.get input "tool_name") = true
  ∨ JsVal.nullish (JsVal.get input "behavior") = true →
  ∃ e w', createRule projectId input w = (Throw e, w') ∧ db w' = db w.
Proof.
  intros Hmissing.
  unfold createRule, bind at 1, generateId. unfold bind at 1, now, gets.
  unfold bind. destruct (db w) as [d|] eqn:Hdb.
  - assert (Hstmt : ∃ e, insertRule (uuid_of (uuid_counter w)) projectId
               (JsVal.get input "tool_name")
               (JsVal.coalesce (JsVal.get input "rule_content") (JStr ""))
               (JsVal.get input "behavior")
               (JsVal.coalesce (JsVal.get input "priority") (JNum (Number.of_Z 0)))
               (clock (set_uuid_counter (S (uuid_counter w)) w)) d = Throw e).
    { unfold insertRule.
      destruct (Sql.bind (JsVal.get input "tool_name")) as [tn|] eqn:Etn; [|eauto].
      destruct (Sql.bind (JsVal.coalesce _ (JStr ""))) as [rc|]; [|eauto].
      destruct (Sql.bind (JsVal.get input "behavior")) as [b|] eqn:Eb; [|eauto].
      destruct (Sql.bind (JsVal.coalesce _ (JNum _))) as [pr|]; [|eauto].
      destruct Hmissing as [H|H].
      - destruct (JsVal.get input "tool_name"); simplify_eq/=;
          destruct (Sql.text_affinity b); eauto.
      - destruct (JsVal.get input "behavior"); simplify_eq/=;
          destruct (Sql.text_affinity tn); eauto. }
    destruct Hstmt as [e He].
    erewrite execute_throw; [|by destruct w|exact He].
    eexists _, _. split; [reflexivity|]. by destruct w.
  - rewrite execute_uninit by (by destruct w).
    eexists _, _. split; [reflexivity|]. by destruct w.
Qed.

Lemma createRule_requires_tool_and_behavior_witness :
  ∃ e w', createRule None [("behavior", JStr "deny"); ("tool_name", JNull)] sampleWorld
          = (Throw e, w')
          ∧ db w' = db sampleWorld.
Proof.
  apply (createRule_requires_tool_and_behavior sampleWorld None
           [("behavior", JStr "deny"); ("tool_name", JNull)]).
  left. reflexivity.
Defined.

(** The rule rows other than the one with id [ruleId]. *)
Definition otherRules (ruleId : string) (d : Database) : list PermissionRule.t :=
  List.filter (fun r => negb (String.eqb (PermissionRule.id r) ruleId)) (permission_rules d).

(** X4.  [deleteRule] on a rule that no audit row refers to removes
    exactly the rows with that id: looking the id up afterwards finds
    nothing, every other rule row is still there, and the audit log is
    untouched.  An id that names no rule is deleted without error. *)
Theorem deleteRule_removes_unreferenced_rule (w : World) (d : Database) (ruleId : string) :
  db w = Some d →
  Some ruleId ∉ PermissionLogEntry.rule_id <$> permission_log d →
  ∃ w' d',
    deleteRule ruleId w = (Normal tt, w')
    ∧ db w' = Some d'
    ∧ selectRule ruleId d' = None
    ∧ (∀ r, r ∈ permission_rules d' ↔ r ∈ permission_rules d ∧ PermissionRule.id r ≠ ruleId)
    ∧ permission_log d' = permission_log d.
Proof.
  intros Hdb Hfree.
  eexists _, (with_rules (otherRules ruleId d) d).
  split.
  { unfold deleteRule. erewrite execute_ok; [reflexivity|exact Hdb|].
    unfold deleteRuleStmt. rewrite (bool_decide_eq_false_2 (Some ruleId ∈ _)) by done.
    by rewrite andb_false_r. }
  split; [reflexivity|].
  assert (Hin : ∀ r, r ∈ otherRules ruleId d ↔
                     r ∈ permission_rules d ∧ PermissionRule.id r ≠ ruleId).
  { intros r. unfold otherRules. rewrite list_elem_of_In, filter_In, <- list_elem_of_In.
    rewrite negb_true_iff, String.eqb_neq. done. }
  split; [|split; [exact Hin|reflexivity]].
  unfold selectRule. cbn [with_rules permission_rules].
  destruct (List.find _ _) as [r|] eqn:E; [|done].
  apply find_some in E as [Hr He]. apply list_elem_of_In, Hin in Hr as [_ Hne].
  by apply String.eqb_eq in He.
Qed.

Lemma deleteRule_removes_unreferenced_rule_witness :
  ∃ w' d',
    deleteRule "rule-project" sampleWorld = (Normal tt, w')
    ∧ db w' = Some d'
    ∧ selectRule "rule-project" d' = None
    ∧ (∀ r, r ∈ permission_rules d' ↔
            r ∈ permission_rules sampleDatabase ∧ PermissionRule.id r ≠ "rule-project")
    ∧ permission_log d' = permission_log sampleDatabase.
Proof.
  apply (deleteRule_removes_unreferenced_rule sampleWorld sampleDatabase "rule-project").
  - reflexivity.
  - by_evaluation.
Defined.

End RuleCrud.

(** ** Rules, decisions and the audit log together *)

Section RulesAndDecisions.
Import PermissionEngine.

(** The store after one audit row was appended. *)
Lemma logged_db w d e :
  db (logged w d e)
  = Some (mkDatabase (projects d) (permission_rules d) (sessions d) (messages d)
                     (permission_log d ++ [e])).
Proof. reflexivity. Qed.

Lemma DecidedIn_rule toolName toolInput d order beh src rid :
  DecidedIn toolName toolInput d order beh src (Some rid) →
  rid ∈ PermissionRule.id <$> permission_rules d.
Proof.
  inversion 1 as [k scope b r' Hk Hbest _|]; subst. by eapply bestMatch_id.
Qed.

(** X5.  A rule that has decided a request can no longer be deleted.
    After [evaluate] returned, the newest audit row is the row of this
    decision; when it names a rule, [deleteRule] on that rule fails with
    the foreign-key error of the store and changes nothing
    ([permission_log.rule_id] references the rule without an ON DELETE
    action, and foreign keys are enforced). *)
Theorem decided_rule_cannot_be_deleted
    (w : World) (d : Database) (sessionId projectId requestId toolName : string)
    (toolInput : ToolInput) :
  db w = Some d →
  sessionId ∈ Session.id <$> sessions d →
  allNormal toolName toolInput d →
  ∃ decision w' entry,
    evaluate sessionId projectId requestId toolName toolInput w = (Normal decision, w')
    ∧ (db w' ≫= fun d' => last (permission_log d')) = Some entry
    ∧ PermissionLogEntry.request_id entry = requestId
    ∧ ∀ rid, PermissionLogEntry.rule_id entry = Some rid →
        deleteRule rid w'
        = (Throw (SqliteError "SQLITE_CONSTRAINT_FOREIGNKEY"), w').
Proof.
  intros Hdb Hs Hn.
  destruct (evaluate_run toolName toolInput w d sessionId projectId requestId Hdb Hs Hn)
    as (beh & src & rid0 & Hdec & Hrun).
  eexists _, _, _. split; [exact Hrun|].
  rewrite logged_db. cbn [mbind option_bind permission_log]. rewrite last_snoc.
  split; [reflexivity|]. split; [reflexivity|].
  intros rid Hrid. cbn in Hrid. subst rid0.
  unfold deleteRule. erewrite execute_throw; [reflexivity|apply logged_db|].
  unfold deleteRuleStmt. cbn [permission_rules permission_log].
  rewrite bool_decide_eq_true_2 by (by eapply DecidedIn_rule).
  rewrite bool_decide_eq_true_2; [reflexivity|].
  rewrite fmap_app. apply elem_of_app. right. cbn. by apply list_elem_of_singleton.
Qed.

(** Scenario S1: the request that the rule [rule-project] denies. *)
Lemma decided_rule_cannot_be_deleted_witness :
  ∃ decision w' entry,
    evaluate "S" "P" "req-1" "Bash" [("command", JStr "rm -rf /tmp/x")] sampleWorld
    = (Normal decision, w')
    ∧ (db w' ≫= fun d' => last (permission_log d')) = Some entry
    ∧ PermissionLogEntry.request_id entry = "req-1"
    ∧ ∀ rid, PermissionLogEntry.rule_id entry = Some rid →
        deleteRule rid w'
        = (Throw (SqliteError "SQLITE_CONSTRAINT_FOREIGNKEY"), w').
Proof.
  apply (decided_rule_cannot_be_deleted sampleWorld sampleDatabase).
  - reflexivity.
  - by_evaluation.
  - apply sampleDatabase_allNormal.
Defined.



(** X7.  Every decision can be read back: after [evaluate] returned,
    [getAuditLog] filtered by the session returns rows of that session
    only, and among them the row of this decision, with the fresh id, the
    request id, the tool and the behavior that was returned. *)
Theorem decision_is_in_audit_log
    (w : World) (d : Database) (sessionId projectId requestId toolName : string)
    (toolInput : ToolInput) :
  db w = Some d →
  sessionId ∈ Session.id <$> sessions d →
  allNormal toolName toolInput d →
  sessionId ≠ "" →
  ∃ decision w' rows entry,
    evaluate sessionId projectId requestId toolName toolInput w = (Normal decision, w')
    ∧ getAuditLog (Some (AuditFilters.mk (Some sessionId) None None)) w'
      = (Normal rows, w')
    ∧ entry ∈ rows
    ∧ PermissionLogEntry.id entry = uuid_of (uuid_counter w)
    ∧ PermissionLogEntry.request_id entry = requestId
    ∧ PermissionLogEntry.tool_name entry = toolName
    ∧ PermissionLogEntry.decision entry = behavior decision
    ∧ ∀ e, e ∈ rows → PermissionLogEntry.session_id e = sessionId.
Proof.
  intros Hdb Hs Hn Hne.
  destruct (evaluate_run toolName toolInput w d sessionId projectId requestId Hdb Hs Hn)
    as (beh & src & rid & Hdec & Hrun).
  eexists _, _, _, _. split; [exact Hrun|].
  split.
  { unfold getAuditLog, bind, getDb, lift. rewrite logged_db.
    cbn [mbind option_bind AuditFilters.session_id AuditFilters.limit AuditFilters.offset].
    replace (match Some sessionId with Some EmptyString => None | o => o end)
      with (Some sessionId) by (by destruct sessionId).
    reflexivity. }
  assert (Hrows : ∀ e,
    e ∈ Sql.order_by_desc (fun e => SInt (PermissionLogEntry.decided_at e))
          (List.filter (fun e => String.eqb (PermissionLogEntry.session_id e) sessionId)
             (permission_log d ++
              [auditRow toolName toolInput w sessionId requestId beh src rid]))
    ↔ (e ∈ permission_log d
       ∨ e = auditRow toolName toolInput w sessionId requestId beh src rid)
      ∧ PermissionLogEntry.session_id e = sessionId).
  { intros e. rewrite elem_of_order_by_desc, list_elem_of_In, filter_In,
      <- list_elem_of_In, elem_of_app, list_elem_of_singleton, String.eqb_eq. done. }
  split; [apply Hrows; split; [by right|reflexivity]|].
  repeat (split; [reflexivity|]).
  intros e He. by apply Hrows in He as [_ ?].
Qed.

Lemma decision_is_in_audit_log_witness :
  ∃ decision w' rows entry,
    evaluate "S" "P" "req-1" "Bash" [("command", JStr "rm -rf /tmp/x")] sampleWorld
    = (Normal decision, w')
    ∧ getAuditLog (Some (AuditFilters.mk (Some "S") None None)) w' = (Normal rows, w')
    ∧ entry ∈ rows
    ∧ PermissionLogEntry.id entry = uuid_of (uuid_counter sampleWorld)
    ∧ PermissionLogEntry.request_id entry = "req-1"
    ∧ PermissionLogEntry.tool_name entry = "Bash"
    ∧ PermissionLogEntry.decision entry = behavior decision
    ∧ ∀ e, e ∈ rows → PermissionLogEntry.session_id e = "S".
Proof.
  apply (decision_is_in_audit_log sampleWorld sampleDatabase).
  - reflexivity.
  - by_evaluation.
  - apply sampleDatabase_allNormal.
  - discriminate.
Defined.

End RulesAndDecisions.

(** ** Lines, frames and the last line *)

Section NdjsonLines.
Import Js JsVal Ndjson.

(** The lines a sequence of values is serialized to. *)
Definition linesOf (vs : list JsValue) : string :=
  concatStrings (map serializeNdjson vs).

Lemma feed_empty chunk :
  feed "" chunk = (omap parseLine (frame chunk).1, (frame chunk).2).
Proof. by rewrite feed_frame, append_Empty. Qed.

(** Complete lines in front of a text are delivered first. *)
Lemma feed_lines vs rest :
  Forall (fun v => isJson v = true) vs →
  feed "" (linesOf vs +:+ rest) = (handedOn vs ++ (feed "" rest).1, (feed "" rest).2).
Proof.
  rewrite !feed_empty. cbn [fst snd].
  induction 1 as [|v vs Hv _ IH].
  { unfold linesOf. cbn [map concatStrings foldr]. by rewrite append_Empty. }
  unfold linesOf in *. cbn [map concatStrings foldr].
  fold (concatStrings (map serializeNdjson vs)).
  rewrite serializeNdjson_text by done.
  rewrite !append_assoc, append_String, append_Empty.
  rewrite frame_line by (by apply text_notLF). cbn [fst snd].
  rewrite omap_parseLine_text by done.
  injection IH as IH1 IH2.
  by rewrite IH1, IH2, (handedOn_cons v vs), <- app_assoc.
Qed.

Lemma frame_partial t : allChars notLF t = true → frame t = ([], t).
Proof.
  induction t as [|c t IH]; [reflexivity|]. cbn. intros [Hc Ht]%andb_true_iff.
  rewrite frame_cons, IH by done. unfold notLF in Hc.
  apply negb_true_iff in Hc. by rewrite Hc.
Qed.

Lemma partialLine_notLF b : frame b = ([], b) → allChars notLF b = true.
Proof.
  induction b as [|c b IH]; [done|]. rewrite frame_cons.
  destruct (Ascii.eqb c LF) eqn:E; [done|].
  destruct (frame b) as [[|l ls] r] eqn:Hf; cbn [fst snd]; [|done].
  intros [= ->]. cbn. unfold notLF at 1. rewrite E. by apply IH.
Qed.

(** X8.  A stream that ends without a line feed: when the chunks fed
    to the parser, cut anywhere, make up the lines of the JSON values
    [vs] followed by the text of one more JSON value [v] with no line
    feed after it, [feed] hands on the values of [vs] in order, [null]
    left out, and keeps the text of [v] in the buffer; [flush] then hands
    on [v], unless it is [null], and empties the buffer, and flushing an
    empty buffer delivers nothing. *)
Theorem flush_delivers_last_line
    (vs : list JsValue) (v : JsValue) (chunks : list string) :
  Forall (fun x => isJson x = true) (v :: vs) →
  concatStrings chunks = linesOf vs +:+ text v →
  feedAll "" chunks = (handedOn vs, text v)
  ∧ flush (text v) = (handedOn [v], "")
  ∧ flush "" = ([], "").
Proof.
  intros [Hv Hvs]%Forall_cons Hcut.
  rewrite feedAll_concat by reflexivity. rewrite Hcut, feed_lines by done.
  rewrite feed_empty, frame_partial by (by apply text_notLF). cbn [fst snd omap list_omap].
  rewrite app_nil_r. split; [done|]. split; [|reflexivity].
  destruct (text_tight v Hv) as [Htrim Hne].
  unfold flush. rewrite Htrim.
  destruct (String.eqb_spec (text v) "") as [E|_]; [done|].
  rewrite tryDeliver_text by done. unfold handedOn. cbn [List.filter].
  by destruct (nullish v).
Qed.

Lemma flush_delivers_last_line_witness :
  feedAll "" [String "1" (String LF "2"); ".5"]
  = ([JNum (Number.of_Z 1)], text (JNum (Number.mk false "25" 1)))
  ∧ flush (text (JNum (Number.mk false "25" 1))) = ([JNum (Number.mk false "25" 1)], "")
  ∧ flush "" = ([], "").
Proof.
  apply (flush_delivers_last_line [JNum (Number.of_Z 1)] (JNum (Number.mk false "25" 1))
           [String "1" (String LF "2"); ".5"]).
  - constructor; [reflexivity|]. constructor; [reflexivity|]. constructor.
  - reflexivity.
Defined.

(** The buffered text [null] is flushed away without a call of
    [onMessage]. *)
Example flush_drops_null : flush "null" = ([], "") ∧ flush " 7 " = ([JNum (Number.of_Z 7)], "").
Proof. split; reflexivity. Qed.

(** X9.  A line that does not parse is dropped and nothing else is lost:
    when one line of the stream is not JSON text, the values of the lines
    before it and after it are handed on, in order and [null] left out,
    wherever the chunks are cut, and the buffer ends empty.  (The line
    holds no [\u] escape: [JsonParse.parse] rejects the escapes above
    [00ff], which [JSON.parse] reads.) *)
Theorem malformed_line_is_skipped
    (before after : list JsValue) (bad : string) (chunks : list string) :
  Forall (fun x => isJson x = true) before →
  Forall (fun x => isJson x = true) after →
  allChars notLF bad = true →
  includes bad (String backslash "u") = false →
  JsonParse.parse (trim bad) = None →
  concatStrings chunks = linesOf before +:+ bad +:+ String LF (linesOf after) →
  feedAll "" chunks = (handedOn before ++ handedOn after, "").
Proof.
  intros Hb Ha Hbad _ Hparse Hcut.
  assert (Hline : parseLine bad = None).
  { unfold parseLine, tryDeliver. rewrite Hparse. by destruct (String.eqb _ _). }
  rewrite feedAll_concat by reflexivity. rewrite Hcut, feed_lines by done.
  rewrite feed_empty, frame_line by done. cbn [fst snd omap list_omap].
  rewrite Hline.
  pose proof (feed_lines after "" Ha) as H. rewrite append_empty_r, feed_empty in H.
  injection H as H1 H2. cbn in H1, H2. rewrite app_nil_r in H1.
  fold (omap parseLine (frame (linesOf after)).1). by rewrite H1, H2.
Qed.

Lemma malformed_line_is_skipped_witness :
  feedAll "" [String "1" (String LF "{a"); String ":" (String "1" (String "}" (String LF "2.5")));
              String LF ""]
  = ([JNum (Number.of_Z 1)] ++ [JNum (Number.mk false "25" 1)], "").
Proof.
  apply (malformed_line_is_skipped [JNum (Number.of_Z 1)] [JNum (Number.mk false "25" 1)]
           "{a:1}").
  - constructor; [reflexivity|]. constructor.
  - constructor; [reflexivity|]. constructor.
  - reflexivity.
  - reflexivity.
  - reflexivity.
  - reflexivity.
Defined.

End NdjsonLines.

(** ** Frames of the bridge connection *)

Section BridgeFrames.
Import Js JsVal Ndjson WsServer.

Lemma endsWith_app s c : endsWith s c = true → ∃ s', s = s' +:+ str c.
Proof.
  induction s as [|a s IH]; [done|]. cbn.
  destruct s as [|b s].
  - intros ->%Ascii.eqb_eq. by exists "".
  - intros H. destruct (IH H) as [s' Hs']. exists (String a s'). by rewrite Hs'.
Qed.

Lemma endsWith_notLF t : allChars notLF t = true → endsWith t LF = false.
Proof.
  induction t as [|a t IH]; [done|]. cbn. intros [Ha Ht]%andb_true_iff.
  destruct t as [|b t]; [|by apply IH].
  unfold notLF in Ha. by apply negb_true_iff in Ha.
Qed.

(** A text that ends with a line feed leaves nothing in the buffer. *)
Lemma frame_terminated s : (frame (s +:+ str LF)).2 = "".
Proof.
  rewrite frame_app. cbn [snd]. unfold str.
  pose proof (frame_rest_partial s) as Hp. unfold partialLine in Hp.
  by rewrite frame_line by (by apply partialLine_notLF).
Qed.

Lemma onMessage_buffer text : (onMessage "" text).2 = "".
Proof.
  unfold onMessage. rewrite feed_empty. cbn [snd].
  destruct (endsWith text LF) eqn:E; [|apply frame_terminated].
  apply endsWith_app in E as [s ->]. apply frame_terminated.
Qed.

(** X10.  On a bridge connection every WebSocket frame is parsed on its
    own.  The message handler appends a line feed to a frame that lacks
    one, so the buffer is empty after each frame: the messages of a
    sequence of frames are the messages of each frame taken alone (a
    message split over two frames is never put together), and the flush
    on close finds nothing to deliver. *)
Theorem bridge_frames_are_parsed_alone (frames : list string) :
  onMessages "" frames = (flat_map (fun text => (onMessage "" text).1) frames, "")
  ∧ flush (onMessages "" frames).2 = ([], "").
Proof.
  assert (H : onMessages "" frames
              = (flat_map (fun text => (onMessage "" text).1) frames, "")).
  { induction frames as [|text frames IH]; [reflexivity|].
    cbn [onMessages flat_map]. pose proof (onMessage_buffer text) as Hb.
    destruct (onMessage "" text) as [out b]. cbn in Hb. subst b.
    by rewrite IH. }
  split; [exact H|]. by rewrite H.
Qed.

(** X11.  A frame that holds the text of one JSON value and no line
    feed is handled at once by the bridge's message handler, exactly as
    the frame with the line feed is: the value is handed on, unless it is
    [null], which is dropped; the parser alone, fed the same text,
    delivers nothing and keeps it in the buffer. *)
Theorem bridge_frame_without_newline (v : JsValue) :
  isJson v = true →
  onMessage "" (text v) = (handedOn [v], "")
  ∧ onMessage "" (serializeNdjson v) = (handedOn [v], "")
  ∧ feed "" (text v) = ([], text v).
Proof.
  intros Hv.
  assert (Hline : feed "" (text v +:+ str LF) = (handedOn [v], "")).
  { pose proof (feed_lines [v] "" (Forall_cons_2 _ _ _ Hv (Forall_nil_2 _))) as H.
    unfold linesOf in H. cbn [map concatStrings foldr] in H.
    rewrite serializeNdjson_text in H by done.
    rewrite !append_empty_r in H. by rewrite app_nil_r in H. }
  split; [|split].
  - unfold onMessage. by rewrite endsWith_notLF by (by apply text_notLF).
  - unfold onMessage. rewrite serializeNdjson_text by done.
    destruct (endsWith _ LF) eqn:E; [exact Hline|].
    rewrite append_assoc, append_String, append_Empty.
    exfalso. revert E. clear. induction (text v) as [|a t IH]; [done|].
    rewrite append_String. cbn. destruct (t +:+ String LF "") eqn:Et; [by destruct t|].
    exact IH.
  - rewrite feed_empty, frame_partial by (by apply text_notLF). reflexivity.
Qed.

Lemma bridge_frame_without_newline_witness :
  let v := JArr [JNum (Number.mk false "15" 1); JBool true; JNull] in
  onMessage "" (text v) = ([v], "")
  ∧ onMessage "" (serializeNdjson v) = ([v], "")
  ∧ feed "" (text v) = ([], text v).
Proof.
  apply (bridge_frame_without_newline
           (JArr [JNum (Number.mk false "15" 1); JBool true; JNull])).
  reflexivity.
Defined.

(** The frame [null] is dropped by the handler. *)
Example bridge_frame_null : onMessage "" "null" = ([], "").
Proof. reflexivity. Qed.

End BridgeFrames.

(** ** The captured standard error *)

Section StderrCapture.
Import Js SessionManager.

Lemma slice0_all s n : String.length s ≤ n → slice0 s n = s.
Proof.
  revert n. induction s as [|c s IH]; intros n Hn; [by destruct n|].
  destruct n as [|n]; cbn in *; [lia|]. rewrite IH; [done|lia].
Qed.

Lemma slice0_length s n : String.length (slice0 s n) ≤ n.
Proof.
  revert n. induction s as [|c s IH]; intros [|n]; cbn; try lia.
  specialize (IH n). lia.
Qed.

Lemma slice0_app_full s t n : n ≤ String.length s → slice0 (s +:+ t) n = slice0 s n.
Proof.
  revert n. induction s as [|c s IH]; intros n Hn.
  - cbn in Hn. assert (n = 0) as -> by lia. by destruct t.
  - destruct n as [|n]; [reflexivity|]. rewrite append_String. cbn in *.
    rewrite IH; [done|lia].
Qed.

Lemma slice0_slice0_app s t n : slice0 (slice0 s n +:+ t) n = slice0 (s +:+ t) n.
Proof.
  revert n. induction s as [|c s IH]; intros n.
  - by destruct n.
  - destruct n as [|n]; [by destruct t|].
    cbn [slice0]. rewrite !append_String. cbn [slice0]. by rewrite IH.
Qed.

Lemma onStderrData_fold chunks : ∀ buf,
  String.length buf ≤ STDERR_MAX_BYTES →
  foldl onStderrData buf chunks
  = slice0 (buf +:+ concatStrings chunks) STDERR_MAX_BYTES.
Proof.
  induction chunks as [|c chunks IH]; intros buf Hbuf.
  - cbn. by rewrite append_empty_r, slice0_all.
  - cbn [foldl concatStrings foldr]. fold (concatStrings chunks).
    rewrite IH.
    + unfold onStderrData. destruct (Nat.ltb_spec (String.length buf) STDERR_MAX_BYTES).
      * by rewrite slice0_slice0_app, append_assoc.
      * rewrite !slice0_app_full by lia. done.
    + unfold onStderrData. destruct (Nat.ltb_spec (String.length buf) STDERR_MAX_BYTES);
        [apply slice0_length|done].
Qed.

(** X12.  The captured standard error is the beginning of what the
    process wrote: whatever chunks the [data] handler receives, in
    whatever sizes, the buffer after them holds the first 4096 characters
    of their concatenation (all of it when it is shorter); output that
    arrives once the buffer is full is dropped, never swapped in. *)
Theorem stderr_capture_is_prefix (chunks : list string) :
  foldl onStderrData "" chunks = slice0 (concatStrings chunks) STDERR_MAX_BYTES.
Proof.
  rewrite onStderrData_fold; [by rewrite append_Empty|]. cbn. lia.
Qed.

End StderrCapture.

(** ** The port pool *)

Section PortPool.
Import SessionManager.

Lemma firstFree_Some used n : ∀ start p,
  firstFree used start n = Some p →
  (start ≤ p < start + Z.of_nat n)%Z ∧ (p ∉ used)
  ∧ ∀ q, (start ≤ q < p)%Z → q ∈ used.
Proof.
  induction n as [|n IH]; intros start p H; [done|].
  cbn [firstFree] in H. case_bool_decide as Hin.
  - apply IH in H as (Hr & Hp & Hq). split; [lia|]. split; [done|].
    intros q Hq'. destruct (decide (q = start)) as [->|]; [done|]. apply Hq. lia.
  - injection H as <-. split; [lia|]. split; [done|]. intros q Hq. lia.
Qed.

Lemma firstFree_None used n : ∀ start,
  firstFree used start n = None ↔
  ∀ q, (start ≤ q < start + Z.of_nat n)%Z → q ∈ used.
Proof.
  induction n as [|n IH]; intros start.
  - cbn. split; [intros _ q Hq; lia|done].
  - cbn [firstFree]. case_bool_decide as Hin.
    + rewrite IH. split.
      * intros H q Hq. destruct (decide (q = start)) as [->|]; [done|]. apply H. lia.
      * intros H q Hq. apply H. lia.
    + split; [done|]. intros H. destruct Hin. apply H. lia.
Qed.

(** The ports of the configured range. *)
Definition inRange (w : World) (q : Z) : Prop :=
  (wsPortRangeStart (config w) ≤ q ≤ wsPortRangeEnd (config w))%Z.

(** X13.  A port that [allocatePort] returns lies in the configured
    range, was free, is the lowest free port of the range, and is marked
    used afterwards; nothing else in the state changes. *)
Theorem allocatePort_lowest_free (w w' : World) (p : Z) :
  allocatePort w = (Normal p, w') →
  inRange w p
  ∧ (p ∉ usedPorts w)
  ∧ (∀ q, inRange w q → (q < p)%Z → q ∈ usedPorts w)
  ∧ w' = set_usedPorts ({[p]} ∪ usedPorts w) w.
Proof.
  unfold allocatePort, inRange.
  destruct (firstFree _ _ _) as [port|] eqn:E; [|done].
  intros [= -> <-]. apply firstFree_Some in E as (Hr & Hp & Hq).
  split; [lia|]. split; [done|]. split; [|done].
  intros q Hq1 Hq2. apply Hq. lia.
Qed.

Lemma allocatePort_lowest_free_witness :
  inRange busyWorld 9001
  ∧ (9001%Z ∉ usedPorts busyWorld)
  ∧ (∀ q, inRange busyWorld q → (q < 9001)%Z → q ∈ usedPorts busyWorld)
  ∧ set_usedPorts ({[9001%Z]} ∪ usedPorts busyWorld) busyWorld
    = set_usedPorts ({[9001%Z]} ∪ usedPorts busyWorld) busyWorld.
Proof.
  apply (allocatePort_lowest_free busyWorld
           (set_usedPorts ({[9001%Z]} ∪ usedPorts busyWorld) busyWorld) 9001).
  reflexivity.
Defined.

(** X14.  [allocatePort] throws exactly when the pool is exhausted: it
    fails with the conflict error [No available ports for new session],
    leaving the state as it was, if and only if every port of the
    configured range is in use.  An empty range (start above end) is
    exhausted from the start. *)
Theorem allocatePort_exhausted (w : World) :
  (∀ q, inRange w q → q ∈ usedPorts w)
  ↔ allocatePort w = (Throw (ConflictError "No available ports for new session"), w).
Proof.
  unfold allocatePort, inRange.
  destruct (firstFree _ _ _) as [port|] eqn:E.
  - split; [|done]. intros H. apply firstFree_Some in E as (Hr & Hp & _).
    destruct Hp. apply H. lia.
  - split; [done|]. intros _ q Hq. apply (proj1 (firstFree_None _ _ _) E). lia.
Qed.

End PortPool.

(** ** A session that comes up *)

Section CreateSuccess.
Import SessionManager.

(** The name [create] gives the session. *)
Definition sessionNameOf (projectId : string) (input : CreateSessionInput)
    (d : Database) : string :=
  match name input with
  | Some n => n
  | None =>
      let index := countSessions projectId d in
      default "undefined" (SESSION_ADJECTIVES !! (index mod length SESSION_ADJECTIVES))
      +:+ " " +:+
      default "undefined" (SESSION_NOUNS !! ((index / length SESSION_ADJECTIVES)
                                             mod length SESSION_NOUNS))
  end.

Definition modelOf (project : Project) (input : CreateSessionInput) : string :=
  default (default "" (default_model project)) (model input).

Lemma updated_fresh ident f l r :
  ident ∉ Session.id <$> l → Session.id r = ident →
  updated ident f (l ++ [r]) = l ++ [f r].
Proof.
  intros Hfresh Hid. unfold updated. rewrite map_app. cbn [map].
  rewrite Hid, String.eqb_refl. f_equal.
  rewrite <- (list_fmap_id l) at 2. apply list_fmap_ext. intros i x Hx.
  destruct (String.eqb_spec (Session.id x) ident) as [E|_]; [|done].
  destruct Hfresh. rewrite <- E. apply list_elem_of_fmap_2.
  by eapply list_elem_of_lookup_2.
Qed.

Ltac norm :=
  unfold set_db, set_uuid_counter, set_activeSessions, set_usedPorts, set_bridges,
    set_clis, set_emitted;
  cbn [config db uuid_counter clock activeSessions usedPorts bridges clis emitted].

(** X15.  A session that comes up.  When the store is initialised, the
    project exists, the global session limit is not reached, a port is
    free, the permission mode is empty or valid, the bridge server
    starts, the CLI is spawned and connects in time, [create] returns the
    row of the new session: fresh id, status [idle], the spawned pid, the
    lowest free port, the given or generated name, no CLI session id.
    That row is appended to the store; the session is tracked, its port
    is in use, its bridge and its CLI are registered, and exactly one
    event is emitted, the change of status to [idle]. *)
Theorem create_connected_session_is_idle
    (w : World) (d : Database) (projectId : string) (project : Project)
    (input : CreateSessionInput) (env : CreateEnv) (port pid : Z) :
  db w = Some d →
  projectId ∈ projects d →
  uuid_of (uuid_counter w) ∉ Session.id <$> sessions d →
  size (activeSessions w) < maxSessionsGlobal (config w) →
  firstFree (usedPorts w) (wsPortRangeStart (config w))
    (Z.to_nat (wsPortRangeEnd (config w) - wsPortRangeStart (config w) + 1))
  = Some port →
  (rawModeOf project input = "" ∨ rawModeOf project input ∈ VALID_PERMISSION_MODES) →
  bridge_error env = None →
  spawn_pid env = Some pid →
  outcome env = Connected →
  let ident := uuid_of (uuid_counter w) in
  let row := Session.mk ident projectId "" (sessionNameOf projectId input d)
               SessionStatus.idle (modelOf project input) (Some pid) (Some port)
               0 0 0 0 "" (clock w) (clock w) None in
  ∃ w' d',
    create projectId project input env w = (Normal (Some row), w')
    ∧ db w' = Some d'
    ∧ sessions d' = sessions d ++ [row]
    ∧ activeSessions w' = <[ident := ActiveSession.mk projectId None]> (activeSessions w)
    ∧ usedPorts w' = {[port]} ∪ usedPorts w
    ∧ bridges w' !! ident = Some (BridgeServer.mk port false true [])
    ∧ clis w' !! ident
      = Some (LaunchedCli.mk pid (foldl onStderrData "" (stderr_chunks env)) false)
    ∧ emitted w' = emitted w ++ [statusEvent ident SessionStatus.idle (clock w)].
Proof.
  intros Hdb Hproj Hfresh Hsize Hport Hmode Hbridge Hspawn Hout ident row.
  destruct w as [cfg d0 n t act used br cl em].
  cbn [db config uuid_counter clock activeSessions usedPorts emitted] in *. subst d0.
  unfold create.
  unfold bind at 1, gets. unfold bind at 1.
  cbn [config activeSessions].
  replace (Nat.leb _ _) with false by (symmetry; apply Nat.leb_gt; lia).
  unfold bind at 1, generateId. unfold bind at 1, allocatePort.
  norm. rewrite Hport. norm.
  fold (rawModeOf project input). fold (modelOf project input).
  replace (negb (String.eqb (rawModeOf project input) "")
           && negb (bool_decide (rawModeOf project input ∈ VALID_PERMISSION_MODES)))
    with false.
  2:{ symmetry. destruct Hmode as [-> |Hm]; [reflexivity|].
      rewrite (bool_decide_eq_true_2 _ Hm). apply andb_false_r. }
  unfold bind at 1, now, gets. norm.
  unfold bind at 1.
  set (w1 := mkWorld cfg (Some d) (S n) t act ({[port]} ∪ used) br cl em).
  assert (Hname : (match name input with
                   | Some n0 => ret n0
                   | None => generateSessionName projectId
                   end) w1 = (Normal (sessionNameOf projectId input d), w1)).
  { unfold sessionNameOf. destruct (name input); [reflexivity|].
    unfold generateSessionName, bind. by rewrite (query_ok _ w1 d). }
  rewrite Hname. fold ident. unfold w1. clear Hname w1.
  unfold bind at 1.
  erewrite execute_ok; [|reflexivity|].
  2:{ unfold insertSession. cbn [Session.project_id].
      by rewrite bool_decide_eq_true_2 by done. }
  norm.
  unfold bind at 1, createBridgeServer. rewrite Hbridge.
  unfold modify at 1. norm.
  unfold bind at 1, try_catch, launchCli. rewrite Hspawn.
  unfold bind at 1, modify at 1. unfold ret at 1. norm.
  unfold bind at 1.
  erewrite execute_ok; [|reflexivity|reflexivity].
  norm.
  unfold bind at 1, modify at 1. norm.
  unfold bind at 1, waitForConnect, try_catch, awaitConnect. rewrite Hout.
  unfold bind at 1, modify at 1. unfold modify at 1. norm.
  unfold bind at 1, updateStatus.
  unfold bind at 1.
  erewrite execute_ok; [|reflexivity|reflexivity].
  norm.
  unfold bind at 1, now, gets. unfold emit, modify, getById. norm.
  erewrite query_ok; [|reflexivity].
  unfold with_sessions. cbn [sessions projects permission_rules messages permission_log].
  rewrite (updated_fresh ident (setCliPid pid)) by done.
  rewrite (updated_fresh ident (setStatus SessionStatus.idle)) by done.
  cbn [setCliPid setStatus]. fold row.
  eexists _, _. split.
  { f_equal. f_equal. unfold selectSession. cbn [sessions].
    apply find_app_fresh; [|apply String.eqb_refl].
    intros y Hy. apply String.eqb_neq. intros E. apply Hfresh. fold ident. rewrite <- E.
    by apply list_elem_of_fmap_2. }
  cbn [db sessions activeSessions usedPorts bridges clis emitted].
  split; [reflexivity|]. split; [reflexivity|]. split; [reflexivity|].
  split; [reflexivity|].
  split; [by rewrite lookup_alter_eq, lookup_insert_eq|].
  split; [by rewrite lookup_alter_eq, lookup_insert_eq|].
  reflexivity.
Qed.

Lemma create_connected_session_is_idle_witness :
  ∃ w' d',
    create "P" sampleProject noInput (mkEnv None (Some 4711%Z) ["warming up"] Connected)
           freshWorld
    = (Normal (Some (Session.mk (uuid_of 0) "P" ""
                       (sessionNameOf "P" noInput (mkDatabase ["P"] [] [] [] []))
                       SessionStatus.idle (modelOf sampleProject noInput)
                       (Some 4711%Z) (Some 9000%Z) 0 0 0 0 "" 1000 1000 None)), w')
    ∧ db w' = Some d'
    ∧ sessions d'
      = [] ++ [Session.mk (uuid_of 0) "P" ""
                 (sessionNameOf "P" noInput (mkDatabase ["P"] [] [] [] []))
                 SessionStatus.idle (modelOf sampleProject noInput)
                 (Some 4711%Z) (Some 9000%Z) 0 0 0 0 "" 1000 1000 None]
    ∧ activeSessions w'
      = <[uuid_of 0 := ActiveSession.mk "P" None]> (activeSessions freshWorld)
    ∧ usedPorts w' = {[9000%Z]} ∪ usedPorts freshWorld
    ∧ bridges w' !! uuid_of 0 = Some (BridgeServer.mk 9000 false true [])
    ∧ clis w' !! uuid_of 0
      = Some (LaunchedCli.mk 4711 (foldl onStderrData "" ["warming up"]) false)
    ∧ emitted w' = emitted freshWorld ++ [statusEvent (uuid_of 0) SessionStatus.idle 1000].
Proof.
  apply (create_connected_session_is_idle freshWorld (mkDatabase ["P"] [] [] [] []) "P"
           sampleProject noInput (mkEnv None (Some 4711%Z) ["warming up"] Connected)
           9000 4711).
  - reflexivity.
  - by_evaluation.
  - by_evaluation.
  - by_evaluation.
  - reflexivity.
  - right. by_evaluation.
  - reflexivity.
  - reflexivity.
  - reflexivity.
Defined.

End CreateSuccess.

(** ** Messages to a session *)

Section SessionMessages.
Import SessionManager.

Ltac run_session :=
  unfold sendMessage, interrupt, kill, isConnected, bridgeSend, updateStatus,
    storeMessage, generateId, onSystemInit, onPermissionRequest,
    try_catch, bind, releasePort, modify, gets, getStderr, bridgeClose, cliKill,
    getById, query, getDb, ret, now, execute, lift, emit, throw, updateSession,
    insertMessage,
    set_db, set_uuid_counter, set_activeSessions, set_usedPorts, set_bridges,
    set_clis, set_emitted in *.

(** The stores and rows of the sample worlds. *)
Definition busySession : Session.t :=
  Session.mk "S" "P" "cli-1" "Swift Spark" SessionStatus.active "" (Some 4711%Z)
             (Some 9000%Z) 0 0 0 0 "" 0 0 None.

Definition busyDatabase : Database := mkDatabase ["P"] [] [busySession] [] [].

Definition launchedSession : Session.t :=
  Session.mk "S" "P" "" "Swift Spark" SessionStatus.starting "" (Some 4711%Z)
             (Some 9000%Z) 0 0 0 0 "" 0 0 None.

Definition launchedDatabase : Database := mkDatabase ["P"] [] [launchedSession] [] [].

(** The frame that carries a user message. *)
Definition userFrame (content : string) : string :=
  Ndjson.serializeNdjson (JObj (userMessage content)).

(** X16.  [sendMessage] to a tracked session whose CLI is connected
    (the session has its row, and the generated message id is new) sends
    exactly one frame on the bridge, the NDJSON line of
    [{type: user, message: {role: user, content}}], which a parser reads
    back as that one message with nothing left over; it sets the
    session's row to status [active] with [last_active_at] now, appends
    one outbound [user] message row that holds the JSON text of the
    message, and emits one status event. *)
Theorem sendMessage_delivers_and_records
    (w : World) (d : Database) (s : Session.t) (a : ActiveSession.t)
    (b : BridgeServer.t) (sessionId content : string) :
  db w = Some d →
  selectSession sessionId d = Some s →
  activeSessions w !! sessionId = Some a →
  bridges w !! sessionId = Some b →
  BridgeServer.connected b = true →
  uuid_of (uuid_counter w) ∉ Message.id <$> messages d →
  ∃ w' d',
    sendMessage sessionId content w = (Normal tt, w')
    ∧ db w' = Some d'
    ∧ BridgeServer.sent <$> bridges w' !! sessionId
      = Some (BridgeServer.sent b ++ [userFrame content])
    ∧ Ndjson.feed "" (userFrame content) = ([JObj (userMessage content)], "")
    ∧ selectSession sessionId d'
      = Some (setLastActive (clock w) (setStatus SessionStatus.active s))
    ∧ messages d'
      = messages d ++ [Message.mk (uuid_of (uuid_counter w)) sessionId "outbound" "user" ""
                                  (stringifyObject (userMessage content)) (clock w)]
    ∧ emitted w' = emitted w ++ [statusEvent sessionId SessionStatus.active (clock w)].
Proof.
  intros Hdb Hs Ha Hb Hc _.
  destruct w as [cfg d0 n t act used br cl em]. cbn in Hdb, Ha, Hb. subst d0.
  run_session. cbn -[selectSession updated userMessage stringifyObject].
  rewrite Ha. cbn -[selectSession updated userMessage stringifyObject].
  rewrite Hb, Hc. cbn -[selectSession updated userMessage stringifyObject].
  rewrite updated_twice by apply setStatus_id.
  rewrite updated_ids by (intros x; by destruct x).
  rewrite bool_decide_eq_true_2 by (by eapply selectSession_elem).
  eexists _, _. split; [reflexivity|].
  cbn -[selectSession updated userMessage stringifyObject].
  split; [reflexivity|].
  split; [by rewrite lookup_alter_eq, Hb; cbn; rewrite Hc|].
  split.
  { pose proof (feed_serialized [JObj (userMessage content)]) as H.
    cbn [map concatStrings foldr] in H. rewrite append_empty_r in H.
    apply H. constructor; [reflexivity|constructor]. }
  split; [|done].
  unfold selectSession in *. cbn [sessions].
  rewrite find_updated by (intros x; by destruct x). by rewrite Hs.
Qed.

Lemma sendMessage_delivers_and_records_witness :
  ∃ w' d',
    sendMessage "S" "hello" busyWorld = (Normal tt, w')
    ∧ db w' = Some d'
    ∧ BridgeServer.sent <$> bridges w' !! "S"
      = Some (BridgeServer.sent (BridgeServer.mk 9000 false true []) ++ [userFrame "hello"])
    ∧ Ndjson.feed "" (userFrame "hello") = ([JObj (userMessage "hello")], "")
    ∧ selectSession "S" d'
      = Some (setLastActive (clock busyWorld) (setStatus SessionStatus.active busySession))
    ∧ messages d'
      = messages busyDatabase
        ++ [Message.mk (uuid_of (uuid_counter busyWorld)) "S" "outbound" "user" ""
                       (stringifyObject (userMessage "hello")) (clock busyWorld)]
    ∧ emitted w'
      = emitted busyWorld ++ [statusEvent "S" SessionStatus.active (clock busyWorld)].
Proof.
  apply (sendMessage_delivers_and_records busyWorld busyDatabase busySession
           (ActiveSession.mk "P" (Some "cli-1")) (BridgeServer.mk 9000 false true [])
           "S" "hello").
  - reflexivity.
  - reflexivity.
  - reflexivity.
  - reflexivity.
  - reflexivity.
  - by_evaluation.
Defined.

(** X17.  While the CLI is not connected to the bridge of a tracked
    session, [sendMessage] throws the conflict error and changes nothing,
    but [interrupt] returns normally: the interrupt frame is dropped by
    the bridge, nothing is sent and nothing changes. *)
Theorem disconnected_bridge_refuses_message_drops_interrupt
    (w : World) (a : ActiveSession.t) (b : BridgeServer.t) (sessionId content : string) :
  activeSessions w !! sessionId = Some a →
  bridges w !! sessionId = Some b →
  BridgeServer.connected b = false →
  sendMessage sessionId content w
  = (Throw (ConflictError "Cannot send message: CLI is not connected to bridge"), w)
  ∧ interrupt sessionId w = (Normal tt, w).
Proof.
  intros Ha Hb Hc.
  destruct w as [cfg d0 n t act used br cl em]. cbn in Ha, Hb.
  run_session. cbn. rewrite Ha. cbn. rewrite Hb, Hc. cbn.
  split; [reflexivity|]. do 2 f_equal.
  apply alter_id. intros x Hx. rewrite Hb in Hx. injection Hx as <-. by rewrite Hc.
Qed.

Lemma disconnected_bridge_refuses_message_drops_interrupt_witness :
  sendMessage "S" "hello" launchedWorld
  = (Throw (ConflictError "Cannot send message: CLI is not connected to bridge"),
     launchedWorld)
  ∧ interrupt "S" launchedWorld = (Normal tt, launchedWorld).
Proof.
  apply (disconnected_bridge_refuses_message_drops_interrupt launchedWorld
           (ActiveSession.mk "P" None) (BridgeServer.mk 9000 false false []) "S" "hello").
  - reflexivity.
  - reflexivity.
  - reflexivity.
Defined.

(** The event [kill] emits. *)
Definition closedEvent (sessionId : string) (t : Z) : ConduitEvent.t :=
  ConduitEvent.mk session_closed sessionId (JObj []) t.

Lemma setClosed_id t s : Session.id (setClosed t s) = Session.id s.
Proof. by destruct s. Qed.

(** [kill] on an initialised store. *)
Lemma kill_run (w : World) (d : Database) (sessionId : string) :
  db w = Some d →
  ∃ w',
    kill sessionId w = (Normal tt, w')
    ∧ db w' = Some (with_sessions (updated sessionId (setClosed (clock w)) (sessions d)) d)
    ∧ activeSessions w' = delete sessionId (activeSessions w)
    ∧ emitted w' = emitted w ++ [closedEvent sessionId (clock w)]
    ∧ clock w' = clock w
    ∧ config w' = config w
    ∧ uuid_counter w' = uuid_counter w
    ∧ match activeSessions w !! sessionId with
      | Some _ =>
          bridges w' = alter (fun b => BridgeServer.mk (BridgeServer.port b) true
                                         (BridgeServer.connected b) (BridgeServer.sent b))
                             sessionId (bridges w)
          ∧ clis w' = alter (fun c => LaunchedCli.mk (LaunchedCli.pid c)
                                        (LaunchedCli.stderrBuf c) true)
                            sessionId (clis w)
          ∧ usedPorts w' = match bridges w !! sessionId with
                           | Some b => usedPorts w ∖ {[BridgeServer.port b]}
                           | None => usedPorts w
                           end
      | None => bridges w' = bridges w ∧ clis w' = clis w ∧ usedPorts w' = usedPorts w
      end.
Proof.
  intros Hdb.
  destruct w as [cfg d0 n t act used br cl em]. cbn in Hdb. subst d0.
  run_session. cbn -[difference updated].
  destruct (act !! sessionId) as [a|] eqn:Ha; cbn -[difference updated].
  - rewrite lookup_alter_eq.
    destruct (br !! sessionId) as [b|] eqn:Hb; cbn -[difference updated];
      (eexists; split; [reflexivity|]); cbn -[difference updated];
      repeat split; done.
  - eexists; split; [reflexivity|]. cbn -[difference updated].
    repeat split; try done. symmetry. by apply delete_id.
Qed.

(** X18.  [kill] on a tracked session releases everything it held: the
    session is no longer tracked, the port of its bridge is free, the
    bridge is closed and the CLI is signalled; its row gets status
    [closed] and [closed_at] now, the rows of other sessions are as they
    were, and one [session.closed] event is emitted. *)
Theorem kill_releases_session
    (w : World) (d : Database) (s : Session.t) (a : ActiveSession.t)
    (b : BridgeServer.t) (sessionId : string) :
  db w = Some d →
  selectSession sessionId d = Some s →
  activeSessions w !! sessionId = Some a →
  bridges w !! sessionId = Some b →
  ∃ w' d',
    kill sessionId w = (Normal tt, w')
    ∧ db w' = Some d'
    ∧ activeSessions w' !! sessionId = None
    ∧ (BridgeServer.port b ∉ usedPorts w')
    ∧ BridgeServer.closed <$> bridges w' !! sessionId = Some true
    ∧ (∀ c, clis w !! sessionId = Some c →
            LaunchedCli.killed <$> clis w' !! sessionId = Some true)
    ∧ selectSession sessionId d' = Some (setClosed (clock w) s)
    ∧ (∀ r, Session.id r ≠ sessionId → r ∈ sessions d' ↔ r ∈ sessions d)
    ∧ emitted w' = emitted w ++ [closedEvent sessionId (clock w)].
Proof.
  intros Hdb Hs Ha Hb.
  destruct (kill_run w d sessionId Hdb) as (w' & Hrun & Hdb' & Hact & Hem & _ & _ & _ & Hmem).
  rewrite Ha, Hb in Hmem. destruct Hmem as (Hbr & Hcl & Hports).
  eexists w', _. split; [exact Hrun|]. split; [exact Hdb'|].
  split; [rewrite Hact; apply lookup_delete_eq|].
  split; [rewrite Hports, elem_of_difference, elem_of_singleton; tauto|].
  split; [by rewrite Hbr, lookup_alter_eq, Hb|].
  split; [intros c Hc; by rewrite Hcl, lookup_alter_eq, Hc|].
  split; [by apply selectSession_updated; [apply setClosed_id|]|].
  split; [|exact Hem].
  intros r Hr. cbn [with_sessions sessions]. apply updated_other; [done|apply setClosed_id].
Qed.

Lemma kill_releases_session_witness :
  ∃ w' d',
    kill "S" busyWorld = (Normal tt, w')
    ∧ db w' = Some d'
    ∧ activeSessions w' !! "S" = None
    ∧ (BridgeServer.port (BridgeServer.mk 9000 false true []) ∉ usedPorts w')
    ∧ BridgeServer.closed <$> bridges w' !! "S" = Some true
    ∧ (∀ c, clis busyWorld !! "S" = Some c →
            LaunchedCli.killed <$> clis w' !! "S" = Some true)
    ∧ selectSession "S" d' = Some (setClosed (clock busyWorld) busySession)
    ∧ (∀ r, Session.id r ≠ "S" → r ∈ sessions d' ↔ r ∈ sessions busyDatabase)
    ∧ emitted w' = emitted busyWorld ++ [closedEvent "S" (clock busyWorld)].
Proof.
  apply (kill_releases_session busyWorld busyDatabase busySession
           (ActiveSession.mk "P" (Some "cli-1")) (BridgeServer.mk 9000 false true []) "S").
  - reflexivity.
  - reflexivity.
  - reflexivity.
  - reflexivity.
Defined.

(** X19.  [kill] does not check that the session exists: for an id that
    is neither tracked nor stored it returns normally, changes no row and
    no resource, and still emits a [session.closed] event for that id. *)
Theorem kill_unknown_session_still_reports_closed
    (w : World) (d : Database) (sessionId : string) :
  db w = Some d →
  activeSessions w !! sessionId = None →
  sessionId ∉ Session.id <$> sessions d →
  kill sessionId w
  = (Normal tt, set_emitted (emitted w ++ [closedEvent sessionId (clock w)]) w).
Proof.
  intros Hdb Ha Hs.
  destruct w as [cfg d0 n t act used br cl em]. cbn in Hdb, Ha. subst d0.
  run_session. cbn -[updated]. rewrite Ha. cbn -[updated].
  assert (Hrows : updated sessionId (setClosed t) (sessions d) = sessions d).
  { unfold updated. rewrite <- (list_fmap_id (sessions d)) at 2.
    apply list_fmap_ext. intros i x Hx.
    destruct (String.eqb_spec (Session.id x) sessionId) as [E|_]; [|done].
    destruct Hs. rewrite <- E. apply list_elem_of_fmap_2.
    by eapply list_elem_of_lookup_2. }
  rewrite Hrows. by destruct d.
Qed.

Lemma kill_unknown_session_still_reports_closed_witness :
  kill "gone" busyWorld
  = (Normal tt,
     set_emitted (emitted busyWorld ++ [closedEvent "gone" (clock busyWorld)]) busyWorld).
Proof.
  apply (kill_unknown_session_still_reports_closed busyWorld busyDatabase "gone").
  - reflexivity.
  - reflexivity.
  - by_evaluation.
Defined.

Lemma setSessionId_id sid s : Session.id (setSessionId sid s) = Session.id s.
Proof. by destruct s. Qed.

(** X20.  The CLI session id is recorded once.  The [system/init]
    handler runs before every turn; when the tracked session has no CLI
    session id yet (none, or the empty string) it stores the id of the
    message (the empty string when the message has none) in the row and
    in the tracked entry; when it has one, both keep it, whatever the
    message says.  In both cases the row's status becomes [active] and
    one status event is emitted. *)
Theorem onSystemInit_keeps_first_cli_session_id
    (w : World) (d : Database) (s : Session.t) (a : ActiveSession.t)
    (ident : string) (session_id : option string) :
  db w = Some d →
  selectSession ident d = Some s →
  activeSessions w !! ident = Some a →
  ∃ w' d',
    onSystemInit ident session_id w = (Normal tt, w')
    ∧ db w' = Some d'
    ∧ emitted w' = emitted w ++ [statusEvent ident SessionStatus.active (clock w)]
    ∧ (noCliSessionId a = false →
         activeSessions w' = activeSessions w
         ∧ selectSession ident d' = Some (setStatus SessionStatus.active s))
    ∧ (noCliSessionId a = true →
         activeSessions w' !! ident
         = Some (ActiveSession.mk (ActiveSession.projectId a) (Some (default "" session_id)))
         ∧ selectSession ident d'
           = Some (setStatus SessionStatus.active
                     (setSessionId (default "" session_id) s))).
Proof.
  intros Hdb Hs Ha.
  destruct w as [cfg d0 n t act used br cl em]. cbn in Hdb, Ha. subst d0.
  run_session. cbn -[selectSession updated]. rewrite Ha.
  destruct (noCliSessionId a) eqn:Hno; cbn -[selectSession updated];
    (eexists _, _; split; [reflexivity|]); cbn -[selectSession updated];
    (split; [reflexivity|]); (split; [reflexivity|]); (split; [intros ?|intros ?]);
    try done.
  - split; [apply lookup_insert_eq|].
    unfold selectSession in *. cbn [sessions with_sessions].
    rewrite updated_twice by apply setSessionId_id.
    rewrite find_updated by (intros x; by destruct x). by rewrite Hs.
  - split; [done|].
    unfold selectSession in *. cbn [sessions with_sessions].
    rewrite find_updated by apply setStatus_id. by rewrite Hs.
Qed.

Lemma onSystemInit_keeps_first_cli_session_id_witness :
  ∃ w' d',
    onSystemInit "S" (Some "cli-2") busyWorld = (Normal tt, w')
    ∧ db w' = Some d'
    ∧ emitted w'
      = emitted busyWorld ++ [statusEvent "S" SessionStatus.active (clock busyWorld)]
    ∧ (noCliSessionId (ActiveSession.mk "P" (Some "cli-1")) = false →
         activeSessions w' = activeSessions busyWorld
         ∧ selectSession "S" d' = Some (setStatus SessionStatus.active busySession))
    ∧ (noCliSessionId (ActiveSession.mk "P" (Some "cli-1")) = true →
         activeSessions w' !! "S"
         = Some (ActiveSession.mk
                   (ActiveSession.projectId (ActiveSession.mk "P" (Some "cli-1")))
                   (Some (default "" (Some "cli-2"))))
         ∧ selectSession "S" d'
           = Some (setStatus SessionStatus.active
                     (setSessionId (default "" (Some "cli-2")) busySession))).
Proof.
  apply (onSystemInit_keeps_first_cli_session_id busyWorld busyDatabase busySession
           (ActiveSession.mk "P" (Some "cli-1")) "S" (Some "cli-2")).
  - reflexivity.
  - reflexivity.
  - reflexivity.
Defined.

End SessionMessages.

(** ** Answering a permission request *)

Section PermissionAnswer.
Import PermissionEngine SessionManager.

(** The state the session manager keeps in memory, and the events. *)
Definition memoryOf (w : World) :=
  (activeSessions w, usedPorts w, bridges w, clis w, emitted w).

Definition keepsMemory {A} (m : M A) : Prop :=
  ∀ w, memoryOf (m w).2 = memoryOf w.

Lemma keeps_ret {A} (a : A) : keepsMemory (ret a).
Proof. by intros w. Qed.

Lemma keeps_lift {A} (c : Completion A) : keepsMemory (lift c).
Proof. by intros w. Qed.

Lemma keeps_bind {A B} (m : M A) (k : A → M B) :
  keepsMemory m → (∀ a, keepsMemory (k a)) → keepsMemory (bind m k).
Proof.
  intros Hm Hk w. unfold bind. specialize (Hm w).
  destruct (m w) as [[a|e] w1]; cbn in *; [|done].
  by rewrite Hk.
Qed.

Lemma keeps_getDb : keepsMemory getDb.
Proof. intros w. unfold getDb. by destruct (db w). Qed.

Lemma keeps_query {A} (q : Database → A) : keepsMemory (query q).
Proof. apply keeps_bind; [apply keeps_getDb|intros; apply keeps_ret]. Qed.

Lemma keeps_execute stmt : keepsMemory (execute stmt).
Proof.
  apply keeps_bind; [apply keeps_getDb|intros d].
  apply keeps_bind; [apply keeps_lift|intros d']. by intros w.
Qed.

Lemma keeps_logDecision sid req tool input dec src rid :
  keepsMemory (logDecision sid req tool input dec src rid).
Proof.
  apply keeps_bind; [by intros w|intros i].
  apply keeps_bind; [by intros w|intros t]. apply keeps_execute.
Qed.

Lemma keeps_findMatchingRule scope tool input beh :
  keepsMemory (findMatchingRule scope tool input beh).
Proof.
  apply keeps_bind; [|intros; apply keeps_lift].
  destruct scope as [[|c s]|]; apply keeps_query.
Qed.

(** [evaluate] touches the store and the id counter only. *)
Lemma keeps_evaluate sid pid req tool input :
  keepsMemory (evaluate sid pid req tool input).
Proof.
  unfold evaluate.
  repeat first
    [ apply keeps_bind; [apply keeps_findMatchingRule|intros [r|]]
    | apply keeps_bind; [apply keeps_logDecision|intros _]
    | apply keeps_ret ].
Qed.

(** X22.  When [evaluate] throws (the store is not initialised, a
    rule's pattern makes the matcher throw, the audit row cannot be
    written), the permission handler fails with the same error and sends
    no answer: the bridges hold the frames they held, and no event is
    emitted.  The CLI is left waiting for its [control_response]. *)
Theorem failed_evaluation_sends_no_answer
    (w w' : World) (e : JsError) (ident projectId requestId toolName : string)
    (toolInput : ToolInput) :
  evaluate ident projectId requestId toolName toolInput w = (Throw e, w') →
  onPermissionRequest ident projectId requestId toolName toolInput w = (Throw e, w')
  ∧ bridges w' = bridges w
  ∧ emitted w' = emitted w.
Proof.
  intros Hev. unfold onPermissionRequest, bind. rewrite Hev. split; [done|].
  pose proof (keeps_evaluate ident projectId requestId toolName toolInput w) as Hk.
  rewrite Hev in Hk. cbn in Hk. unfold memoryOf in Hk. by simplify_eq.
Qed.

Lemma failed_evaluation_sends_no_answer_witness :
  onPermissionRequest "S" "P" "req-1" "Bash" [("command", JStr "ls")] coldWorld
  = (Throw uninitialized, coldWorld)
  ∧ bridges coldWorld = bridges coldWorld
  ∧ emitted coldWorld = emitted coldWorld.
Proof.
  apply (failed_evaluation_sends_no_answer coldWorld coldWorld uninitialized
           "S" "P" "req-1" "Bash" [("command", JStr "ls")]).
  reflexivity.
Defined.

(** The answer as the subprocess reads it: [updated_input] is
    [undefined] and is left out of the text. *)
Definition answerReceived (requestId behavior : string) : JsValue :=
  JObj [("type", JStr "control_response");
        ("response",
         JObj [("subtype", JStr "can_use_tool_result");
               ("request_id", JStr requestId);
               ("result", JObj [("behavior", JStr behavior)])])].

Lemma answer_frame requestId beh :
  Ndjson.feed "" (Ndjson.serializeNdjson (controlResponse requestId (mkDecision beh None)))
  = ([answerReceived requestId beh], "").
Proof.
  pose proof (feed_serialized [answerReceived requestId beh]) as H.
  cbn [map concatStrings foldr] in H. rewrite append_empty_r in H.
  apply H. constructor; [reflexivity|constructor].
Qed.

(** X23.  A permission request that can be evaluated is answered
    exactly once.  On a session with a stored row and a connected bridge,
    when no rule's pattern throws, the handler returns normally and
    appends one frame to the session's bridge: the [control_response]
    with the request's id and the behavior [evaluate] decided.  Read back
    from the wire the answer has no [updated_input] field.  The store is
    as [evaluate] left it, and no event is emitted. *)
Theorem permission_request_is_answered_once
    (w : World) (d : Database) (b : BridgeServer.t)
    (ident projectId requestId toolName : string) (toolInput : ToolInput) :
  db w = Some d →
  ident ∈ Session.id <$> sessions d →
  allNormal toolName toolInput d →
  bridges w !! ident = Some b →
  BridgeServer.connected b = true →
  ∃ decision w0 w',
    evaluate ident projectId requestId toolName toolInput w = (Normal decision, w0)
    ∧ onPermissionRequest ident projectId requestId toolName toolInput w = (Normal tt, w')
    ∧ db w' = db w0
    ∧ emitted w' = emitted w
    ∧ BridgeServer.sent <$> bridges w' !! ident
      = Some (BridgeServer.sent b ++
              [Ndjson.serializeNdjson (controlResponse requestId decision)])
    ∧ Ndjson.feed "" (Ndjson.serializeNdjson (controlResponse requestId decision))
      = ([answerReceived requestId (behavior decision)], "").
Proof.
  intros Hdb Hs Hn Hb Hc.
  destruct (evaluate_run toolName toolInput w d ident projectId requestId Hdb Hs Hn)
    as (beh & src & rid & _ & Hrun).
  eexists _, _, _. split; [exact Hrun|].
  unfold onPermissionRequest, bind. rewrite Hrun.
  split; [reflexivity|].
  destruct w as [cfg d0 n t act used br cl em]. cbn in Hdb, Hb. subst d0.
  cbn -[controlResponse Ndjson.serializeNdjson Ndjson.feed].
  split; [reflexivity|]. split; [reflexivity|].
  split; [by rewrite lookup_alter_eq, Hb; cbn; rewrite Hc|].
  apply answer_frame.
Qed.

(** Scenario S1 on a session whose CLI is connected. *)
Definition connectedWorld : World := set_db (Some sampleDatabase) busyWorld.

Lemma permission_request_is_answered_once_witness :
  ∃ decision w0 w',
    evaluate "S" "P" "req-1" "Bash" [("command", JStr "rm -rf /tmp/x")] connectedWorld
    = (Normal decision, w0)
    ∧ onPermissionRequest "S" "P" "req-1" "Bash" [("command", JStr "rm -rf /tmp/x")]
                          connectedWorld
      = (Normal tt, w')
    ∧ db w' = db w0
    ∧ emitted w' = emitted connectedWorld
    ∧ BridgeServer.sent <$> bridges w' !! "S"
      = Some (BridgeServer.sent (BridgeServer.mk 9000 false true []) ++
              [Ndjson.serializeNdjson (controlResponse "req-1" decision)])
    ∧ Ndjson.feed "" (Ndjson.serializeNdjson (controlResponse "req-1" decision))
      = ([answerReceived "req-1" (behavior decision)], "").
Proof.
  apply (permission_request_is_answered_once connectedWorld sampleDatabase
           (BridgeServer.mk 9000 false true [])).
  - reflexivity.
  - by_evaluation.
  - apply sampleDatabase_allNormal.
  - reflexivity.
  - reflexivity.
Defined.

End PermissionAnswer.

(** ** Shutdown *)

Section Shutdown.
Import SessionManager.

Definition closedRows (t : Z) (ids : list string) (rows : list Session.t)
    : list Session.t :=
  foldl (fun rows ident => updated ident (setClosed t) rows) rows ids.

Definition untracked (ids : list string) (m : gmap string ActiveSession.t)
    : gmap string ActiveSession.t :=
  foldl (fun m ident => delete ident m) m ids.

Lemma killEach_run ids : ∀ w d,
  db w = Some d →
  ∃ w',
    killEach ids w = (Normal tt, w')
    ∧ db w' = Some (with_sessions (closedRows (clock w) ids (sessions d)) d)
    ∧ activeSessions w' = untracked ids (activeSessions w)
    ∧ emitted w' = emitted w ++ map (fun ident => closedEvent ident (clock w)) ids
    ∧ config w' = config w
    ∧ uuid_counter w' = uuid_counter w.
Proof.
  induction ids as [|ident ids IH]; intros w d Hdb.
  - exists w. cbn. rewrite app_nil_r. repeat split; try done.
    rewrite Hdb. by destruct d.
  - destruct (kill_run w d ident Hdb) as (w1 & Hrun & Hdb1 & Hact & Hem & Hclock & Hcfg & Hn & _).
    destruct (IH w1 _ Hdb1) as (w' & Hrun' & Hdb' & Hact' & Hem' & Hcfg' & Hn').
    exists w'. cbn [killEach]. unfold bind. rewrite Hrun. split; [exact Hrun'|].
    rewrite Hdb', Hact', Hem', Hcfg', Hn', Hclock, Hact, Hem, Hcfg, Hn.
    cbn [closedRows untracked foldl map with_sessions sessions].
    rewrite <- app_assoc. repeat split; done.
Qed.

Lemma untracked_lookup ids : ∀ m k,
  untracked ids m !! k = if bool_decide (k ∈ ids) then None else m !! k.
Proof.
  induction ids as [|i ids IH]; intros m k; [done|].
  cbn [untracked foldl]. fold (untracked ids (delete i m)). rewrite IH.
  destruct (decide (k = i)) as [->|Hne].
  - rewrite (bool_decide_eq_true_2 (i ∈ i :: ids)) by left.
    case_bool_decide; [done|apply lookup_delete_eq].
  - rewrite lookup_delete_ne by done.
    case_bool_decide as H1; case_bool_decide as H2; try done.
    + destruct H2. by right.
    + apply elem_of_cons in H2 as [?|?]; done.
Qed.

(** Rows rewritten once for each id of a list: a row is rewritten exactly
    when its id is in the list. *)
Lemma updated_each (g : Session.t → Session.t) ids :
  (∀ s, Session.id (g s) = Session.id s) → (∀ s, g (g s) = g s) →
  ∀ rows,
    foldl (fun rows ident => updated ident g rows) rows ids
    = map (fun r => if bool_decide (Session.id r ∈ ids) then g r else r) rows.
Proof.
  intros Hid Hidem. induction ids as [|i ids IH]; intros rows.
  - cbn. rewrite <- (list_fmap_id rows) at 1. apply list_fmap_ext. intros k r _.
    by rewrite bool_decide_eq_false_2 by apply not_elem_of_nil.
  - cbn [foldl]. rewrite IH.
    unfold updated. rewrite <- list_fmap_compose.
    apply list_fmap_ext. intros k r _. cbn.
    destruct (String.eqb_spec (Session.id r) i) as [E|E].
    + rewrite Hid.
      rewrite (bool_decide_eq_true_2 (Session.id r ∈ i :: _)) by (rewrite E; left).
      case_bool_decide; [apply Hidem|done].
    + case_bool_decide as H1; case_bool_decide as H2; try done.
      * destruct H2. by right.
      * apply elem_of_cons in H2 as [?|?]; done.
Qed.

Lemma setClosed_twice t s : setClosed t (setClosed t s) = setClosed t s.
Proof. by destruct s. Qed.

(** X21.  [shutdownAll] kills the tracked sessions one after the other.
    In whatever order the array lists the tracked ids, the loop returns
    normally on an initialised store; afterwards no session is tracked,
    the row of every session that was tracked has status [closed] and a
    closing time, every other row is as it was, and one [session.closed]
    event was emitted for each id of the array, in the array's order. *)
Theorem shutdownAll_leaves_no_tracked_session
    (w : World) (d : Database) (ids : list string) :
  db w = Some d →
  (∀ k, k ∈ ids ↔ is_Some (activeSessions w !! k)) →
  ∃ w' d',
    killEach ids w = (Normal tt, w')
    ∧ db w' = Some d'
    ∧ activeSessions w' = ∅
    ∧ sessions d'
      = map (fun r => if bool_decide (is_Some (activeSessions w !! Session.id r))
                      then setClosed (clock w) r else r) (sessions d)
    ∧ emitted w' = emitted w ++ map (fun ident => closedEvent ident (clock w)) ids.
Proof.
  intros Hdb Hids.
  destruct (killEach_run ids w d Hdb) as (w' & Hrun & Hdb' & Hact & Hem & _).
  eexists w', _. split; [exact Hrun|]. split; [exact Hdb'|].
  split; [|split; [|exact Hem]].
  - apply map_eq. intros k. rewrite Hact, untracked_lookup, lookup_empty.
    case_bool_decide as Hk; [done|].
    destruct (activeSessions w !! k) eqn:E; [|done].
    destruct Hk. apply Hids. by rewrite E.
  - cbn [with_sessions sessions]. unfold closedRows.
    rewrite updated_each by (apply setClosed_id || apply setClosed_twice).
    apply list_fmap_ext. intros i r _. cbn.
    by rewrite (bool_decide_ext _ _ (Hids (Session.id r))).
Qed.

Lemma shutdownAll_leaves_no_tracked_session_witness :
  ∃ w' d',
    killEach ["S"] busyWorld = (Normal tt, w')
    ∧ db w' = Some d'
    ∧ activeSessions w' = ∅
    ∧ sessions d'
      = map (fun r => if bool_decide (is_Some (activeSessions busyWorld !! Session.id r))
                      then setClosed (clock busyWorld) r else r) (sessions busyDatabase)
    ∧ emitted w'
      = emitted busyWorld ++ map (fun ident => closedEvent ident (clock busyWorld)) ["S"].
Proof.
  apply (shutdownAll_leaves_no_tracked_session busyWorld busyDatabase ["S"]).
  - reflexivity.
  - intros k. rewrite list_elem_of_singleton. cbn [activeSessions busyWorld]. split.
    + intros ->. by eexists.
    + intros [a Ha]. by apply lookup_singleton_Some in Ha as [-> _].
Defined.

End Shutdown.

(** ** Start-up clean-up *)

Section Orphans.
Import SessionManager.

(** The rows of [sessions] after the loop has gone through [orphaned]. *)
Definition marked (t : Z) (orphaned : list Session.t) (rows : list Session.t)
    : list Session.t :=
  foldl (fun rows session => updated (Session.id session) (setOrphaned t) rows)
        rows orphaned.

(** The pids the loop signals. *)
Definition signalled (orphaned : list Session.t) : list Z :=
  flat_map (fun session => match Session.cli_pid session with
                           | Some pid => if Z.eqb pid 0 then [] else [pid]
                           | None => []
                           end) orphaned.

Lemma cleanupLoop_run orphaned : ∀ w d,
  db w = Some d →
  cleanupLoop orphaned w
  = (Normal (signalled orphaned),
     set_db (Some (with_sessions (marked (clock w) orphaned (sessions d)) d)) w).
Proof.
  induction orphaned as [|s orphaned IH]; intros w d Hdb.
  - destruct w as [cfg d0 n t act used br cl em]. cbn in Hdb. subst d0.
    by destruct d.
  - cbn [cleanupLoop]. unfold bind at 1, now, gets. unfold bind at 1.
    erewrite execute_ok; [|exact Hdb|reflexivity].
    unfold bind at 1.
    erewrite IH; [|by destruct w].
    unfold ret. cbn [signalled flat_map marked foldl]. by f_equal.
Qed.

Lemma setOrphaned_id t s : Session.id (setOrphaned t s) = Session.id s.
Proof. by destruct s. Qed.

Lemma setOrphaned_twice t s : setOrphaned t (setOrphaned t s) = setOrphaned t s.
Proof. by destruct s. Qed.

(** A row is rewritten exactly when its id is the id of an orphan. *)
Lemma marked_rows t orphaned : ∀ rows,
  marked t orphaned rows
  = map (fun r => if bool_decide (Session.id r ∈ Session.id <$> orphaned)
                  then setOrphaned t r else r) rows.
Proof.
  induction orphaned as [|s orphaned IH]; intros rows.
  - cbn. rewrite <- (list_fmap_id rows) at 1. apply list_fmap_ext. intros i r _.
    by rewrite bool_decide_eq_false_2 by apply not_elem_of_nil.
  - change (marked t (s :: orphaned) rows)
      with (marked t orphaned (updated (Session.id s) (setOrphaned t) rows)).
    rewrite IH.
    unfold updated. rewrite <- list_fmap_compose.
    apply list_fmap_ext. intros i r _. cbn.
    destruct (String.eqb_spec (Session.id r) (Session.id s)) as [E|E].
    + rewrite setOrphaned_id.
      rewrite (bool_decide_eq_true_2 (Session.id r ∈ Session.id s :: _))
        by (rewrite E; left).
      case_bool_decide; [apply setOrphaned_twice|done].
    + case_bool_decide as H1; case_bool_decide as H2; try done.
      * destruct H2. by right.
      * apply elem_of_cons in H2 as [?|?]; done.
Qed.

Lemma terminal_setOrphaned t s : SessionStatus.terminal (Session.status (setOrphaned t s)) = true.
Proof. by destruct s. Qed.

Lemma elem_of_selectOrphaned d s :
  s ∈ selectOrphaned d ↔ s ∈ sessions d ∧ Session.status s ≠ SessionStatus.closed.
Proof.
  unfold selectOrphaned. rewrite list_elem_of_In, filter_In, <- list_elem_of_In.
  rewrite negb_true_iff.
  destruct (Session.status s); cbn; split; intros [? ?]; split; done.
Qed.

Lemma NoDup_fmap_elem {A B} (f : A → B) (l : list A) x y :
  NoDup (f <$> l) → x ∈ l → y ∈ l → f x = f y → x = y.
Proof.
  induction l as [|a l IH]; intros Hnd Hx Hy E; [by apply elem_of_nil in Hx|].
  cbn in Hnd. apply NoDup_cons in Hnd as [Ha Hnd].
  apply elem_of_cons in Hx as [->|Hx]; apply elem_of_cons in Hy as [->|Hy]; try done.
  - destruct Ha. rewrite E. by apply list_elem_of_fmap_2.
  - destruct Ha. rewrite <- E. by apply list_elem_of_fmap_2.
  - by apply IH.
Qed.

Lemma filter_nothing {A} (f : A → bool) (l : list A) :
  (∀ x, x ∈ l → f x = false) → List.filter f l = [].
Proof.
  induction l as [|a l IH]; intros H; [done|]. cbn.
  rewrite (H a) by left. apply IH. intros x Hx. apply H. by right.
Qed.

(** X24.  Start-up clean-up closes the books.  On an initialised store
    whose session ids are distinct, [cleanupOrphanedSessions] signals the
    stored non-zero pid of every session whose status is not [closed], in
    the order of the rows, and rewrites exactly those rows to status
    [error] with [closed_at] now (a row already in [error] gets a new
    closing time); [closed] rows are untouched.  Afterwards every row is
    terminal and [listActive] returns nothing.  The tracked sessions,
    ports, bridges and CLIs are not touched, and no event is emitted. *)
Theorem cleanupOrphanedSessions_closes_the_books (w : World) (d : Database) :
  db w = Some d →
  NoDup (Session.id <$> sessions d) →
  ∃ w' d',
    cleanupOrphanedSessions w = (Normal (signalled (selectOrphaned d)), w')
    ∧ db w' = Some d'
    ∧ sessions d'
      = map (fun s => if SessionStatus.eqb (Session.status s) SessionStatus.closed
                      then s else setOrphaned (clock w) s) (sessions d)
    ∧ (∀ s, s ∈ sessions d' → SessionStatus.terminal (Session.status s) = true)
    ∧ listActive w' = (Normal [], w')
    ∧ memoryOf w' = memoryOf w.
Proof.
  intros Hdb Hnd.
  set (rows' := map (fun s => if SessionStatus.eqb (Session.status s) SessionStatus.closed
                              then s else setOrphaned (clock w) s) (sessions d)).
  assert (Hrows : marked (clock w) (selectOrphaned d) (sessions d) = rows').
  { rewrite marked_rows. apply list_fmap_ext. intros i r Hr. cbn.
    apply list_elem_of_lookup_2 in Hr.
    destruct (SessionStatus.eqb (Session.status r) SessionStatus.closed) eqn:E.
    - rewrite bool_decide_eq_false_2; [done|].
      intros (s & Hid & Hs)%list_elem_of_fmap.
      apply elem_of_selectOrphaned in Hs as [Hs Hst].
      assert (r = s) as <-.
      { by apply (NoDup_fmap_elem Session.id (sessions d)). }
      destruct Hst. by destruct (Session.status r).
    - rewrite bool_decide_eq_true_2; [done|].
      apply list_elem_of_fmap_2, elem_of_selectOrphaned. split; [done|].
      intros Hc. by rewrite Hc in E. }
  assert (Hterm : ∀ s, s ∈ rows' → SessionStatus.terminal (Session.status s) = true).
  { intros s (r & -> & Hr)%list_elem_of_fmap.
    destruct (SessionStatus.eqb (Session.status r) SessionStatus.closed) eqn:E;
      [by destruct (Session.status r)|apply terminal_setOrphaned]. }
  eexists _, (with_sessions rows' d).
  split.
  { unfold cleanupOrphanedSessions, bind. rewrite (query_ok _ w d Hdb).
    rewrite (cleanupLoop_run _ w d Hdb), Hrows. reflexivity. }
  split; [reflexivity|]. split; [reflexivity|]. split; [exact Hterm|].
  split; [|by destruct w].
  unfold listActive. erewrite query_ok; [|reflexivity].
  cbn [with_sessions sessions]. do 2 f_equal.
  rewrite filter_nothing; [reflexivity|].
  intros s Hs. by rewrite (Hterm s Hs).
Qed.

Lemma cleanupOrphanedSessions_closes_the_books_witness :
  ∃ w' d',
    cleanupOrphanedSessions busyWorld
    = (Normal (signalled (selectOrphaned busyDatabase)), w')
    ∧ db w' = Some d'
    ∧ sessions d'
      = map (fun s => if SessionStatus.eqb (Session.status s) SessionStatus.closed
                      then s else setOrphaned (clock busyWorld) s) (sessions busyDatabase)
    ∧ (∀ s, s ∈ sessions d' → SessionStatus.terminal (Session.status s) = true)
    ∧ listActive w' = (Normal [], w')
    ∧ memoryOf w' = memoryOf busyWorld.
Proof.
  apply (cleanupOrphanedSessions_closes_the_books busyWorld busyDatabase).
  - reflexivity.
  - by_evaluation.
Defined.

End Orphans.

(** ** The transcript in pages *)

Section Transcript.
Import SessionManager.

(** The transcript of a session: its messages, oldest first. *)
Definition transcript (sessionId : string) (d : Database) : list Message.t :=
  Sql.order_by_asc (fun m => SInt (Message.timestamp m))
    (List.filter (fun m => String.eqb (Message.session_id m) sessionId) (messages d)).

Lemma elem_of_insert_asc {A} (key : A → SqlValue) r l x :
  x ∈ Sql.insert_asc key r l ↔ x = r ∨ x ∈ l.
Proof.
  induction l as [|y l IH]; cbn.
  - rewrite list_elem_of_singleton, elem_of_nil. tauto.
  - destruct (Sql.leb (key r) (key y)).
    + rewrite !elem_of_cons. tauto.
    + rewrite !elem_of_cons, IH. tauto.
Qed.

Lemma elem_of_order_by_asc {A} (key : A → SqlValue) l x :
  x ∈ Sql.order_by_asc key l ↔ x ∈ l.
Proof.
  induction l as [|y l IH]; cbn; [done|].
  rewrite elem_of_insert_asc, elem_of_cons, IH. tauto.
Qed.

(** X25.  Pages of [getMessages] tile the transcript.  For page sizes
    that are not negative, the first [size1] messages (offset left to its
    default 0) followed by the page of [size2] messages at offset [size1]
    are the page of [size1 + size2] messages at offset 0: no message is
    skipped or returned twice between consecutive pages.  The first page
    is the beginning of the session's messages in ascending timestamp
    order, and a page holds only messages of that session. *)
Theorem getMessages_pages_tile_the_transcript
    (w : World) (d : Database) (sessionId : string) (size1 size2 : Z) :
  db w = Some d →
  (0 ≤ size1)%Z → (0 ≤ size2)%Z →
  ∃ page1 page2,
    getMessages sessionId (Some size1) None w = (Normal page1, w)
    ∧ getMessages sessionId (Some size2) (Some size1) w = (Normal page2, w)
    ∧ getMessages sessionId (Some (size1 + size2)%Z) (Some 0%Z) w
      = (Normal (page1 ++ page2), w)
    ∧ page1 = take (Z.to_nat size1) (transcript sessionId d)
    ∧ (∀ m, m ∈ page1 ++ page2 →
            m ∈ messages d ∧ Message.session_id m = sessionId).
Proof.
  intros Hdb H1 H2. unfold getMessages. rewrite !(query_ok _ w d Hdb).
  fold (transcript sessionId d). unfold Sql.limit_offset. cbn [default].
  unfold id. rewrite (proj2 (Z.ltb_ge size1 0)), (proj2 (Z.ltb_ge size2 0)),
    (proj2 (Z.ltb_ge (size1 + size2) 0)) by lia.
  change (Z.to_nat 0) with 0. cbn [drop].
  eexists _, _. split; [reflexivity|]. split; [reflexivity|].
  rewrite Z2Nat.inj_add, take_take_drop by done.
  split; [reflexivity|]. split; [reflexivity|].
  intros m Hm. apply (subseteq_take _ _ m) in Hm.
  unfold transcript in Hm. apply elem_of_order_by_asc in Hm.
  rewrite list_elem_of_In, filter_In, <- list_elem_of_In, String.eqb_eq in Hm. done.
Qed.

Lemma getMessages_pages_tile_the_transcript_witness :
  ∃ page1 page2,
    getMessages "S" (Some 2%Z) None busyWorld = (Normal page1, busyWorld)
    ∧ getMessages "S" (Some 3%Z) (Some 2%Z) busyWorld = (Normal page2, busyWorld)
    ∧ getMessages "S" (Some (2 + 3)%Z) (Some 0%Z) busyWorld
      = (Normal (page1 ++ page2), busyWorld)
    ∧ page1 = take (Z.to_nat 2) (transcript "S" busyDatabase)
    ∧ (∀ m, m ∈ page1 ++ page2 →
            m ∈ messages busyDatabase ∧ Message.session_id m = "S").
Proof.
  apply (getMessages_pages_tile_the_transcript busyWorld busyDatabase "S" 2 3).
  - reflexivity.
  - lia.
  - lia.
Defined.

End Transcript.

(** ** Quiet exits *)

Section QuietExit.
Import SessionManager.

Ltac run_exit :=
  unfold handleProcessExit, bind, releasePort, modify, gets, getStderr, bridgeClose,
    getById, query, getDb, ret, now, execute, lift, emit, throw, updateSession,
    set_db, set_uuid_counter, set_activeSessions, set_usedPorts, set_bridges,
    set_clis, set_emitted, exitStderr, capturedStderr in *.

(** A session that was killed: its row is closed and it is not tracked. *)
Definition closedSession : Session.t := setClosed 900 busySession.

Definition closedDatabase : Database := mkDatabase ["P"] [] [closedSession] [] [].

Definition closedWorld : World :=
  mkWorld sampleConfig (Some closedDatabase) 0 1000 ∅ ∅ ∅ ∅ [].

(** X26.  The exit of a process whose session is already closed changes
    nothing but the port.  When the session is no longer tracked and its
    row has status [closed] (as [kill] leaves it), [handleProcessExit]
    releases the port and returns: the row keeps its status, its error
    message and its closing time, and no event is emitted. *)
Theorem exit_of_closed_session_changes_no_row
    (w : World) (d : Database) (s : Session.t) (ident : string) (port : Z) :
  db w = Some d →
  selectSession ident d = Some s →
  Session.status s = SessionStatus.closed →
  activeSessions w !! ident = None →
  handleProcessExit ident port w
  = (Normal tt, set_usedPorts (usedPorts w ∖ {[port]}) w).
Proof.
  intros Hdb Hs Hst Ha.
  destruct w as [cfg d0 n t act used br cl em]. cbn in Hdb, Ha. subst d0.
  run_exit. cbn -[difference selectSession]. rewrite Ha.
  cbn -[difference selectSession]. rewrite Hs. cbn -[difference selectSession].
  by rewrite Hst.
Qed.

Lemma exit_of_closed_session_changes_no_row_witness :
  handleProcessExit "S" 9000 closedWorld
  = (Normal tt, set_usedPorts (usedPorts closedWorld ∖ {[9000%Z]}) closedWorld).
Proof.
  apply (exit_of_closed_session_changes_no_row closedWorld closedDatabase closedSession).
  - reflexivity.
  - reflexivity.
  - reflexivity.
  - reflexivity.
Defined.

(** A session whose CLI has connected and waits for its first message:
    [create] has returned, the row is idle. *)
Definition readySession : Session.t :=
  Session.mk "S" "P" "" "Swift Spark" SessionStatus.idle "" (Some 4711%Z)
             (Some 9000%Z) 0 0 0 0 "" 0 0 None.

Definition readyDatabase : Database := mkDatabase ["P"] [] [readySession] [] [].

Definition readyWorld : World :=
  mkWorld sampleConfig (Some readyDatabase) 0 1000
    {["S" := ActiveSession.mk "P" None]} {[9000%Z]}
    {["S" := BridgeServer.mk 9000 false true []]}
    {["S" := LaunchedCli.mk 4711 "" false]} [].

(** X27.  A CLI that exits quietly while its session is idle is recorded
    as closed, not as failed.  When the row's status is [idle] (the CLI
    had connected, [create] had returned, and no turn is running) and the
    captured standard error is empty after trimming, [handleProcessExit]
    sets the row to [closed] with an empty error message and [closed_at]
    now, stops tracking the session and releases the port, and emits no
    event, neither [session.error] nor [session.closed]. *)
Theorem quiet_exit_of_idle_session_closes_session
    (w : World) (d : Database) (s : Session.t) (ident : string) (port : Z) :
  db w = Some d →
  selectSession ident d = Some s →
  Session.status s = SessionStatus.idle →
  exitStderr w ident = "" →
  ∃ w' d',
    handleProcessExit ident port w = (Normal tt, w')
    ∧ db w' = Some d'
    ∧ selectSession ident d' = Some (setEnded SessionStatus.closed "" (clock w) s)
    ∧ emitted w' = emitted w
    ∧ activeSessions w' !! ident = None
    ∧ (port ∉ usedPorts w').
Proof.
  intros Hdb Hs Hst Herr.
  destruct w as [cfg d0 n t act used br cl em]. cbn in Hdb. subst d0.
  run_exit. cbn -[difference selectSession updated] in *.
  assert (Hsel : ∀ d0, selectSession ident
            (with_sessions (updated ident (setEnded SessionStatus.closed "" t) (sessions d)) d0)
            = Some (setEnded SessionStatus.closed "" t s)).
  { intros d0. unfold selectSession in *. cbn [with_sessions sessions].
    rewrite find_updated by apply setEnded_id. by rewrite Hs. }
  destruct (act !! ident) as [a|] eqn:Ha; cbn -[difference selectSession updated] in *.
  - destruct (cl !! ident) as [c|] eqn:Hc; cbn -[difference selectSession updated] in *;
      rewrite ?Herr, Hs; cbn -[difference selectSession updated];
      (rewrite Hst; cbn -[difference selectSession updated];
       eexists _, _; (split; [reflexivity|]); cbn -[difference selectSession updated];
       (split; [reflexivity|]); (split; [apply Hsel|]); (split; [reflexivity|]);
       (split; [apply lookup_delete_eq|]);
       rewrite elem_of_difference, elem_of_singleton; tauto).
  - rewrite Hs. cbn -[difference selectSession updated].
    rewrite Hst; cbn -[difference selectSession updated];
      eexists _, _; (split; [reflexivity|]); cbn -[difference selectSession updated];
      (split; [reflexivity|]); (split; [apply Hsel|]); (split; [reflexivity|]);
      (split; [done|]);
      rewrite elem_of_difference, elem_of_singleton; tauto.
Qed.

Lemma quiet_exit_of_idle_session_closes_session_witness :
  ∃ w' d',
    handleProcessExit "S" 9000 readyWorld = (Normal tt, w')
    ∧ db w' = Some d'
    ∧ selectSession "S" d'
      = Some (setEnded SessionStatus.closed "" (clock readyWorld) readySession)
    ∧ emitted w' = emitted readyWorld
    ∧ activeSessions w' !! "S" = None
    ∧ (9000%Z ∉ usedPorts w').
Proof.
  apply (quiet_exit_of_idle_session_closes_session readyWorld readyDatabase
           readySession "S" 9000).
  - reflexivity.
  - reflexivity.
  - reflexivity.
  - reflexivity.
Defined.

End QuietExit.

(** ** Routing *)

Section Routing.
Import JsVal MessageRouter.

Definition noCallbacks : MessageRouterCallbacks := mkCallbacks None None None None None.

(** The [type] of a message. *)
Definition typeOf (message : JsValue) : JsValue := field_opt message "type".

(** The messages the router turns into no event: keep-alives, and the
    requests to use a tool, which go to the permission handler only. *)
Definition silent (message : JsValue) : bool :=
  is_str (typeOf message) "keep_alive"
  || (is_str (typeOf message) "control_request"
      && is_str (field_opt (field_opt message "request") "subtype") "can_use_tool").

(** The event type a message is forwarded under. *)
Definition eventKind (message : JsValue) : EventType :=
  if is_str (typeOf message) "stream_event" || is_str (typeOf message) "tool_progress"
  then stream_event
  else if is_str (typeOf message) "result" then session_result
  else session_message.

(** X28.  The router forwards every message at most once and never
    fails on one.  With no callbacks installed, [routeMessage] on any
    message that is not [null] or [undefined] returns normally; it emits
    nothing for a [keep_alive] and for a [control_request] that asks to
    use a tool, and for every other message exactly one event that
    carries the message unchanged: [stream.event] for the types
    [stream_event] and [tool_progress], [session.result] for [result],
    [session.message] for all the rest, unknown and missing types
    included. *)
Theorem routeMessage_forwards_each_message_once
    (w : World) (conduitSessionId : string) (message : JsValue) :
  nullish message = false →
  routeMessage conduitSessionId message noCallbacks w
  = (Normal tt,
     if silent message then w
     else set_emitted
            (emitted w ++ [ConduitEvent.mk (eventKind message) conduitSessionId message
                                           (clock w)]) w).
Proof.
  intros Hnn. unfold routeMessage, field, silent, eventKind, typeOf. rewrite Hnn.
  unfold lift, bind at 1.
  destruct (field_opt message "type") as [| | | |ty| |];
    try (cbn; rewrite ?Tauto.if_same; reflexivity).
  cbn [is_str].
  destruct (String.eqb_spec ty "system") as [->|_].
  { cbn. by destruct (is_str (field_opt message "subtype") "init"). }
  destruct (String.eqb_spec ty "assistant") as [->|_]; [reflexivity|].
  destruct (String.eqb_spec ty "stream_event") as [->|_]; [reflexivity|].
  destruct (String.eqb_spec ty "result") as [->|_]; [reflexivity|].
  destruct (String.eqb_spec ty "control_request") as [->|_].
  { cbn -[field_opt].
    destruct (is_str (field_opt (field_opt message "request") "subtype") "can_use_tool");
      [reflexivity|].
    by destruct (is_str (field_opt (field_opt message "request") "subtype") "init"). }
  destruct (String.eqb_spec ty "tool_progress") as [->|_]; [reflexivity|].
  destruct (String.eqb_spec ty "keep_alive") as [->|_]; reflexivity.
Qed.

Lemma routeMessage_forwards_each_message_once_witness :
  routeMessage "S" (JObj [("type", JStr "mystery"); ("n", JNum (Number.of_Z 1))]) noCallbacks sampleWorld
  = (Normal tt,
     if silent (JObj [("type", JStr "mystery"); ("n", JNum (Number.of_Z 1))]) then sampleWorld
     else set_emitted
            (emitted sampleWorld ++
             [ConduitEvent.mk (eventKind (JObj [("type", JStr "mystery"); ("n", JNum (Number.of_Z 1))]))
                              "S" (JObj [("type", JStr "mystery"); ("n", JNum (Number.of_Z 1))])
                              (clock sampleWorld)]) sampleWorld).
Proof.
  apply (routeMessage_forwards_each_message_once sampleWorld "S").
  reflexivity.
Defined.

End Routing.

(** ** What external clients are told *)

Section ExternalClients.
Import JsVal SessionManager ExternalWs.

(** X29.  External clients are told less than the bus carries.  The
    [session.error] events of the session manager hold the error text
    under [error_message], the mapping reads [message]: whatever the
    reason and the text, the client receives
    [{event: error, message: Session error}].  A [session.closed] event
    is not forwarded at all, and a status event is forwarded with the
    status alone. *)
Theorem external_clients_get_no_error_text_and_no_closure
    (sessionId reason errorMessage : string) (st : SessionStatus.t) (t : Z) :
  forwarded (errorEvent sessionId reason errorMessage t)
  = stringify (JObj [("event", JStr "error"); ("message", JStr "Session error")])
  ∧ forwarded (closedEvent sessionId t) = None
  ∧ forwarded (statusEvent sessionId st t)
    = stringify (JObj [("event", JStr "session_status");
                       ("status", JStr (SessionStatus.to_string st))]).
Proof. repeat split. Qed.

End ExternalClients.

(** ** Subscriptions *)

Section Subscriptions.
Import EventBus.

(** What the users of the bus do to it. *)
Inductive BusOp : Type :=
| Subscribe (session : option string)
| Unsubscribe (ident : string)
| Clear.

Definition applyOp (bus : EventBus.t) (op : BusOp) : EventBus.t :=
  match op with
  | Subscribe session => (subscribe session bus).2
  | Unsubscribe ident => unsubscribe ident bus
  | Clear => clear bus
  end.

(** The bus after a history of operations. *)
Definition after (ops : list BusOp) : EventBus.t := foldl applyOp initial ops.

Definition subId (n : nat) : string := "sub_" +:+ pretty n.

(** Every subscription id was issued by the counter. *)
Definition issued (bus : EventBus.t) : Prop :=
  ∀ sub, sub ∈ subscriptions bus → ∃ k, k ≤ subCounter bus ∧ id sub = subId k.

Lemma subId_inj n m : subId n = subId m → n = m.
Proof.
  unfold subId. intros H. rewrite !append_String, append_Empty in H.
  injection H as H. by apply (inj pretty).
Qed.

Lemma map_set_fresh sub l :
  id sub ∉ id <$> l → map_set sub l = l ++ [sub].
Proof.
  induction l as [|x l IH]; [done|]. cbn. intros H.
  apply not_elem_of_cons in H as [Hne H].
  destruct (String.eqb_spec (id x) (id sub)) as [E|_]; [by destruct Hne|].
  by rewrite IH.
Qed.

Lemma issued_fresh bus : issued bus → subId (S (subCounter bus)) ∉ id <$> subscriptions bus.
Proof.
  intros Hi (sub & E & Hsub)%list_elem_of_fmap.
  destruct (Hi sub Hsub) as (k & Hk & Hid). rewrite Hid in E.
  apply subId_inj in E. lia.
Qed.

Lemma elem_of_List_filter {A} (f : A → bool) l x :
  x ∈ List.filter f l ↔ x ∈ l ∧ f x = true.
Proof. by rewrite list_elem_of_In, filter_In, <- list_elem_of_In. Qed.

Lemma List_filter_all {A} (f : A → bool) (l : list A) :
  (∀ x, x ∈ l → f x = true) → List.filter f l = l.
Proof.
  induction l as [|a l IH]; intros H; [done|]. cbn.
  rewrite (H a) by left. f_equal. apply IH. intros x Hx. apply H. by right.
Qed.

Lemma NoDup_List_filter_fmap {A B} (g : A → B) (f : A → bool) l :
  NoDup (g <$> l) → NoDup (g <$> List.filter f l).
Proof.
  induction l as [|x l IH]; [done|]. cbn. intros [Hx Hl]%NoDup_cons.
  destruct (f x); [|by apply IH]. cbn. apply NoDup_cons. split; [|by apply IH].
  intros (y & E & Hy)%list_elem_of_fmap. apply Hx. rewrite E.
  apply list_elem_of_fmap_2. by apply elem_of_List_filter in Hy as [? _].
Qed.

Lemma after_invariant ops :
  issued (after ops) ∧ NoDup (id <$> subscriptions (after ops)).
Proof.
  unfold after. induction ops as [|op ops IH] using rev_ind.
  - split; [intros sub Hsub; by apply elem_of_nil in Hsub|constructor].
  - rewrite foldl_app. cbn [foldl]. destruct IH as [Hi Hnd].
    set (bus := foldl applyOp initial ops) in *.
    destruct op as [session|ident|]; cbn [applyOp].
    + unfold subscribe. cbn [snd subscriptions subCounter].
      fold (subId (S (subCounter bus))).
      rewrite map_set_fresh by (by apply issued_fresh). split.
      * intros sub [Hsub|Hsub]%elem_of_app.
        -- destruct (Hi sub Hsub) as (k & Hk & Hid). exists k. split; [cbn; lia|done].
        -- apply list_elem_of_singleton in Hsub as ->. exists (S (subCounter bus)).
           split; [done|reflexivity].
      * rewrite fmap_app. apply NoDup_app. split; [done|]. split; [|by apply NoDup_singleton].
        intros x Hx Hx'. apply list_elem_of_singleton in Hx' as ->.
        by apply (issued_fresh bus).
    + unfold unsubscribe. cbn [subscriptions subCounter]. split.
      * intros sub [Hsub _]%elem_of_List_filter. by apply Hi.
      * by apply NoDup_List_filter_fmap.
    + split; [intros sub Hsub; by apply elem_of_nil in Hsub|constructor].
Qed.

(** X30.  A new subscription never replaces another one.  After any
    history of subscribing, unsubscribing (of any id) and clearing, the
    ids on the bus are distinct and the id [subscribe] issues next is not
    among them: the new subscription is added behind the others, the
    subscriber count grows by one, an event reaches the subscribers it
    reached before, in the same order, and then the new one if its filter
    lets the event pass, and calling the returned unsubscribe function
    gives back the subscriptions as they were. *)
Theorem subscribe_never_replaces_a_subscription
    (ops : list BusOp) (session : option string) (event : ConduitEvent.t) :
  let bus := after ops in
  let ident := (subscribe session bus).1 in
  let bus' := (subscribe session bus).2 in
  NoDup (id <$> subscriptions bus)
  ∧ (ident ∉ id <$> subscriptions bus)
  ∧ subscriptions bus' = subscriptions bus ++ [mkSubscription ident session]
  ∧ subscriberCount bus' = S (subscriberCount bus)
  ∧ emit event bus' = emit event bus ++
      (if receives event (mkSubscription ident session) then [ident] else [])
  ∧ subscriptions (unsubscribe ident bus') = subscriptions bus.
Proof.
  intros bus ident bus'. destruct (after_invariant ops) as [Hi Hnd]. fold bus in Hi, Hnd.
  pose proof (issued_fresh bus Hi) as Hfresh.
  assert (Hsubs : subscriptions bus' = subscriptions bus ++ [mkSubscription ident session]).
  { unfold bus', ident, subscribe. cbn [fst snd subscriptions].
    by rewrite map_set_fresh. }
  split; [exact Hnd|]. split; [exact Hfresh|]. split; [exact Hsubs|].
  split; [unfold subscriberCount; rewrite Hsubs, List.length_app; cbn; lia|].
  split.
  - unfold emit. rewrite Hsubs, List.filter_app, fmap_app. cbn [List.filter].
    by destruct (receives event _).
  - unfold unsubscribe. cbn [subscriptions]. rewrite Hsubs, List.filter_app. cbn [List.filter].
    cbn [id]. rewrite String.eqb_refl. cbn [negb]. rewrite app_nil_r.
    apply List_filter_all. intros x Hx. apply negb_true_iff, String.eqb_neq.
    intros E. apply Hfresh. change (subId (S (subCounter bus))) with ident.
    rewrite <- E. by apply list_elem_of_fmap_2.
Qed.

End Subscriptions.
